(** * BudgeTRAX backend: the budget service

    A shallow embedding of [BudgetService] (category resolution, goal
    upsert, transaction update, category deletion and the dashboard
    aggregation) together with the part of the relational schema
    ([database/schema.sql]) these operations depend on.

    Conventions of the embedding.
    - A JavaScript [number] is an IEEE 754 binary64 value, the
      [spec_float] of the Standard Library at precision 53: every sum,
      difference, product and quotient is rounded to the nearest value,
      and the infinities, NaN and the two zeros are values.
    - A JavaScript string is a [string] whose characters stand for the code
      units U+0000 .. U+00FF.
    - [string | undefined] is [option string]; truthiness of a string is
      non-emptiness.
    - The store is a record of tables (lists of rows, in table order).  Its
      PRIMARY KEY and UNIQUE constraints, the text input syntax of its
      [uuid] columns and the rounding and the range of its DECIMAL(12,2)
      columns are modelled; what its DATE column makes of a text is a
      parameter; timestamps and the widths of the text columns are not
      modelled.  A row holds the values a client reads from it.  An
      identifier generated by the store ([uuid_generate_v4]) is an extra
      argument of the operation that inserts.
    - The account id passed to every operation is the id of the
      authenticated account, a canonical uuid text. *)

From Stdlib Require Import List String Ascii Bool Arith NArith ZArith Lia.
From Stdlib Require Import Permutation Sorted DecimalString SpecFloat QArith.
Import ListNotations.

Local Open Scope string_scope.
Local Open Scope list_scope.

(* ================================================================== *)
(** * Characters and strings *)

Module JsString.

Definition code (c : ascii) : nat := nat_of_ascii c.

Definition between (lo hi : nat) (c : ascii) : bool :=
  (lo <=? code c)%nat && (code c <=? hi)%nat.

Definition is_digit (c : ascii) : bool := between 48 57 c.
Definition is_lower (c : ascii) : bool := between 97 122 c.
Definition is_upper (c : ascii) : bool := between 65 90 c.

(** [\w] of a regular expression without the unicode flag. *)
Definition is_word (c : ascii) : bool :=
  is_digit c || is_lower c || is_upper c || (code c =? 95)%nat.

(** [0-9a-f] under the [i] flag. *)
Definition is_hex (c : ascii) : bool :=
  is_digit c || between 97 102 c || between 65 70 c.

(** WhiteSpace and LineTerminator code units below U+0100: TAB, LF, VT, FF,
    CR, SP and NBSP. *)
Definition is_space (c : ascii) : bool :=
  between 9 13 c || (code c =? 32)%nat || (code c =? 160)%nat.

Definition toUpperChar (c : ascii) : ascii :=
  if is_lower c then ascii_of_nat (code c - 32) else c.

Definition toLowerChar (c : ascii) : ascii :=
  if is_upper c then ascii_of_nat (code c + 32) else c.

Fixpoint map_chars (f : ascii -> ascii) (s : string) : string :=
  match s with
  | EmptyString => EmptyString
  | String c r => String (f c) (map_chars f r)
  end.

Fixpoint drop_spaces (l : list ascii) : list ascii :=
  match l with
  | c :: r => if is_space c then drop_spaces r else l
  | [] => []
  end.

(** [String.prototype.trim]. *)
Definition trim (s : string) : string :=
  string_of_list_ascii
    (rev (drop_spaces (rev (drop_spaces (list_ascii_of_string s))))).

(** Truthiness of a string value. *)
Definition truthy (s : string) : bool :=
  match s with EmptyString => false | _ => true end.

(** Truthiness of [string | undefined]. *)
Definition truthy_opt (o : option string) : bool :=
  match o with Some s => truthy s | None => false end.

(** [s.replace(/-/g, ' ')]. *)
Definition hyphens_to_spaces (s : string) : string :=
  map_chars (fun c => if (code c =? 45)%nat then " "%char else c) s.

(** [s.replace(/\b\w/g, c => c.toUpperCase())]: a word character is
    replaced when the position before it is a word boundary, that is when
    it starts the string or follows a non-word character.  [prev] tells
    whether the preceding character is a word character. *)
Fixpoint capitalize_from (prev : bool) (s : string) : string :=
  match s with
  | EmptyString => EmptyString
  | String c r =>
      String (if is_word c && negb prev then toUpperChar c else c)
             (capitalize_from (is_word c) r)
  end.

Definition capitalize_words (s : string) : string := capitalize_from false s.

End JsString.

(* ================================================================== *)
(** * Identifiers *)

Module Uuid.
Import JsString.

Inductive cls := Hex | Dash | Version | Variant.

Definition in_cls (k : cls) (c : ascii) : bool :=
  match k with
  | Hex => is_hex c
  | Dash => (code c =? 45)%nat
  | Version => between 49 53 c
  | Variant => between 56 57 c || between 97 98 c || between 65 66 c
  end.

(** The pattern of [isUuid]:
    [^[0-9a-f]{8}-[0-9a-f]{4}-[1-5][0-9a-f]{3}-[89ab][0-9a-f]{3}-[0-9a-f]{12}$]
    with the [i] flag. *)
Definition pattern : list cls :=
  repeat Hex 8 ++ [Dash] ++ repeat Hex 4 ++ [Dash] ++
  [Version] ++ repeat Hex 3 ++ [Dash] ++
  [Variant] ++ repeat Hex 3 ++ [Dash] ++ repeat Hex 12.

Fixpoint matches (p : list cls) (l : list ascii) : bool :=
  match p, l with
  | [], [] => true
  | k :: p', c :: l' => in_cls k c && matches p' l'
  | _, _ => false
  end.

(** [BudgetService.isUuid]; [undefined], [null] and the empty string are
    falsy and rejected first. *)
Definition isUuid (value : option string) : bool :=
  match value with
  | None => false
  | Some s => truthy s && matches pattern (list_ascii_of_string s)
  end.

(** Text input of the store's [uuid] type: sixteen bytes of two hexadecimal
    digits each, a hyphen allowed after every second byte but the last,
    the whole optionally in braces.  [read_bytes n i] reads [n] bytes, [i]
    being the index of the next one, and returns the digits read and the
    rest of the text. *)
Fixpoint read_bytes (n i : nat) (l : list ascii)
  : option (list ascii * list ascii) :=
  match n with
  | O => Some ([], l)
  | S n' =>
      match l with
      | a :: b :: r =>
          if is_hex a && is_hex b then
            let r' :=
              match r with
              | d :: r0 =>
                  if (code d =? 45)%nat && Nat.odd i && (i <? 15)%nat
                  then r0 else r
              | [] => r
              end in
            match read_bytes n' (S i) r' with
            | Some (ds, rest) => Some (toLowerChar a :: toLowerChar b :: ds, rest)
            | None => None
            end
          else None
      | _ => None
      end
  end.

(** The canonical text of a uuid: lower-case digits in groups of
    8-4-4-4-12. *)
Definition canonical (ds : list ascii) : string :=
  string_of_list_ascii
    (firstn 8 ds ++ "-"%char :: firstn 4 (skipn 8 ds) ++
     "-"%char :: firstn 4 (skipn 12 ds) ++
     "-"%char :: firstn 4 (skipn 16 ds) ++
     "-"%char :: skipn 20 ds).

(** [uuid_in s] is the canonical text of the uuid [s] denotes, or [None]
    when the store rejects [s] (invalid input syntax for type uuid). *)
Definition uuid_in (s : string) : option string :=
  let l := list_ascii_of_string s in
  let '(braces, body) :=
    match l with
    | c :: r => if (code c =? 123)%nat then (true, r) else (false, l)
    | [] => (false, l)
    end in
  match read_bytes 16 0 body with
  | Some (ds, rest) =>
      let rest' :=
        if braces then
          match rest with
          | c :: r => if (code c =? 125)%nat then Some r else None
          | [] => None
          end
        else Some rest in
      match rest' with
      | Some [] => Some (canonical ds)
      | _ => None
      end
  | None => None
  end.

End Uuid.

(* ================================================================== *)
(** * Numbers *)

Module Number.
Local Open Scope Z_scope.

(** A JavaScript number. *)
Definition number : Type := spec_float.

Definition prec : Z := 53.
Definition emax : Z := 1024.

(** [a + b], [a - b], [a * b] and [a / b]. *)
Definition add : number -> number -> number := SFadd prec emax.
Definition sub : number -> number -> number := SFsub prec emax.
Definition mul : number -> number -> number := SFmul prec emax.
Definition div : number -> number -> number := SFdiv prec emax.

(** The number nearest to an integer, the integer itself below 2^53. *)
Definition num (z : Z) : number := binary_normalize prec emax z 0 false.

(** The number a decimal literal with [k] digits after the point denotes:
    the one nearest to [m / 10^k], for [m] below 2^53 and [k] up to 22,
    where both terms of the quotient are numbers. *)
Definition dec (m : Z) (k : nat) : number :=
  div (num m) (num (10 ^ Z.of_nat k)).

Definition zero : number := S754_zero false.
Definition nan : number := S754_nan.

(** [a < b] and [a > b]; both fail when one side is NaN. *)
Definition lt (a b : number) : bool := SFltb a b.
Definition gt (a b : number) : bool := SFltb b a.

(** [a === b] for numbers. *)
Definition same (a b : number) : bool := SFeqb a b.

Definition is_nan (x : number) : bool :=
  match x with S754_nan => true | _ => false end.

Definition is_zero (x : number) : bool :=
  match x with S754_zero _ => true | _ => false end.

Definition is_finite (x : number) : bool :=
  match x with S754_zero _ | S754_finite _ _ _ => true | _ => false end.

(** Truthiness of a number: 0, -0 and NaN are falsy. *)
Definition truthy_number (x : number) : bool :=
  negb (is_zero x || is_nan x).

(** [x || 0]. *)
Definition or_zero (x : number) : number :=
  if truthy_number x then x else zero.

(** [Math.min(a, b)]: NaN when either is NaN; -0 is below 0. *)
Definition math_min (a b : number) : number :=
  match SFcompare a b with
  | None => nan
  | Some Lt => a
  | Some Gt => b
  | Some Eq => match a with S754_zero true => a | _ => b end
  end.

(** ** A number in a JSON document

    [JSON.stringify] writes a finite number as the shortest decimal that
    reads back as the same number, -0 as [0], and NaN and the infinities
    as [null]. *)

(** What [Number(v)] is for the value [v] read back from a JSON column
    into which the number [x] was written: [x] itself, 0 for -0, and 0
    for the [null] of a NaN or an infinity. *)
Definition json_number (x : number) : number :=
  match x with
  | S754_finite _ _ _ => x
  | _ => zero
  end.

(** ** A number in a DECIMAL(12,2) column

    The store reads the decimal that [JSON.stringify] wrote, rounds it to
    two places, halves away from zero, and refuses it when twelve digits
    do not hold the result.  The decimal written differs from the number
    by less than the distance to the next number, so that both round to
    the same hundredth unless a half-way decimal [j.5 / 100] lies between
    them, and that happens only when the half-way decimal, the shortest
    one to do so, reads as the number itself. *)

(** [x * 100] as a fraction whose denominator is a power of two. *)
Definition hundredths (x : number) : option (Z * Z) :=
  match x with
  | S754_zero _ => Some (0, 1)
  | S754_finite s m e =>
      let v := if s then Z.neg m else Z.pos m in
      Some (if 0 <=? e then (100 * v * 2 ^ e, 1) else (100 * v, 2 ^ (- e)))
  | _ => None
  end.

(** [numeric_12_2 x] is the number a client reads from the column after
    writing [x], or [None] when the store refuses the write: a [null] in
    a NOT NULL column, or a numeric field overflow. *)
Definition numeric_12_2 (x : number) : option number :=
  match hundredths x with
  | None => None
  | Some (n, d) =>
      let j := n / d in
      let nearest := (2 * n + d) / (2 * d) in
      let half :=
        (Z.abs j <=? 10 ^ 12) && same (div (num (2 * j + 1)) (num 200)) x in
      let cents := if half then (if 0 <=? j then j + 1 else j) else nearest in
      if Z.abs cents <? 10 ^ 12 then Some (div (num cents) (num 100))
      else None
  end.

End Number.

(* ================================================================== *)
(** * The store *)

Module Store.
Import JsString Uuid Number.

(** ** Rows ([database/schema.sql], [types/index.ts]) *)

Record Category := mkCategory {
  cat_id : string;
  cat_name : string;
  cat_color : string;
  cat_icon : string;
  is_default : bool;
  cat_user_id : option string   (* NULL for the system defaults *)
}.

Record CategoryExpense := mkCategoryExpense {
  ce_category_id : string;
  ce_category_name : string;
  expected_amount : number
}.

Record MonthlyGoal := mkMonthlyGoal {
  goal_id : string;
  goal_user_id : string;
  goal_month : string;
  income : number;
  expenses : list CategoryExpense
}.

Record Transaction := mkTransaction {
  tx_id : string;
  tx_user_id : string;
  category_id : string;
  category_name : string;
  amount : number;
  description : string;
  date : string;
  month : string
}.

Record Db := mkDb {
  categories : list Category;
  monthly_goals : list MonthlyGoal;
  transactions : list Transaction
}.

Definition with_categories (db : Db) (cs : list Category) : Db :=
  mkDb cs (monthly_goals db) (transactions db).

Definition with_goals (db : Db) (gs : list MonthlyGoal) : Db :=
  mkDb (categories db) gs (transactions db).

(** ** Results of a query *)

(** [.maybeSingle()] and [.single()]: the row when exactly one row is
    selected.  No row is [data = null] for the former and an error for the
    latter, several rows are an error for both; every caller below treats
    the three alike. *)
Definition single {A : Type} (rows : list A) : option A :=
  match rows with
  | [r] => Some r
  | _ => None
  end.

Definition maybeSingle {A : Type} (rows : list A) : option A := single rows.

(** [.limit(n)]. *)
Definition limit {A : Type} (n : nat) (rows : list A) : list A := firstn n rows.

(** ** Filters *)

Definition opt_eqb (o : option string) (s : string) : bool :=
  match o with Some x => String.eqb x s | None => false end.

(** [.or(`user_id.eq.${userId},is_default.eq.true`)]: the categories an
    account may see. *)
Definition visible (userId : string) (c : Category) : bool :=
  opt_eqb (cat_user_id c) userId || is_default c.

(** [.eq('id', value)] on a [uuid] column whose value is [key]. *)
Definition id_is (key : string) (id : string) : bool := String.eqb id key.

(** ** Constraints *)

(** [PRIMARY KEY (id)] and [UNIQUE (name, user_id)] of [categories]; a row
    whose [user_id] is NULL conflicts with no other row on the latter. *)
Definition category_conflict (cs : list Category) (c : Category) : bool :=
  existsb (fun r => String.eqb (cat_id r) (cat_id c)) cs ||
  existsb (fun r =>
             String.eqb (cat_name r) (cat_name c) &&
             match cat_user_id r, cat_user_id c with
             | Some a, Some b => String.eqb a b
             | _, _ => false
             end) cs.

(** [INSERT INTO categories]: [None] when a constraint is violated. *)
Definition insert_category (db : Db) (c : Category) : option Db :=
  if category_conflict (categories db) c then None
  else Some (with_categories db (categories db ++ [c])).

End Store.

(* ================================================================== *)
(** * The budget service *)

Module BudgetService.
Import JsString Uuid Number Store.

(** Modelled from the spec: [createError] of [middleware/errorHandler],
    which is not among the sources.  An error carries a message and an
    attached status code. *)
Record ServiceError := createError { message : string; statusCode : nat }.

Inductive result (A : Type) :=
| Ok (value : A)
| Err (error : ServiceError).
Arguments Ok {A} value.
Arguments Err {A} error.

(** ** resolveCategoryId *)

(** The derived name of the creation step:
    [[
      let derivedName = categoryName;
      if ((!derivedName || derivedName.trim().length === 0)
          && categoryId && !this.isUuid(categoryId)) {
        const spaced = categoryId.replace(/-/g, ' ');
        derivedName = spaced.replace(/\b\w/g, (c) => c.toUpperCase());
      }
    ]] *)
Definition deriveName (categoryId categoryName : option string) : option string :=
  let blank :=
    match categoryName with
    | Some n => negb (truthy n) || (String.length (trim n) =? 0)%nat
    | None => true
    end in
  match categoryId with
  | Some cid =>
      if blank && truthy cid && negb (isUuid categoryId)
      then Some (capitalize_words (hyphens_to_spaces cid))
      else categoryName
  | None => categoryName
  end.

(** The lookup by identifier. *)
Definition findById (db : Db) (userId cid : string) : option Category :=
  match uuid_in cid with
  | Some key =>
      maybeSingle
        (filter (fun c => id_is key (cat_id c) && visible userId c)
                (categories db))
  | None => None
  end.

(** The lookup by name. *)
Definition findByName (db : Db) (userId name : string) : option Category :=
  maybeSingle
    (limit 1
       (filter (fun c => String.eqb (cat_name c) name && visible userId c)
               (categories db))).

(** The row the creation step inserts. *)
Definition newCategory (new_id userId name : string) : Category :=
  mkCategory new_id name "#6B7280" "more-horizontal" false (Some userId).

(** [new_id] is the identifier the store generates if a row is inserted. *)
Definition resolveCategoryId
    (db : Db) (userId : string) (categoryId categoryName : option string)
    (createIfMissing : bool) (new_id : string)
  : option (string * string) * Db :=
  let byId :=
    if isUuid (Some (match categoryId with Some s => s | None => EmptyString end))
    then match categoryId with
         | Some cid => findById db userId cid
         | None => None
         end
    else None in
  match byId with
  | Some data => (Some (cat_id data, cat_name data), db)
  | None =>
    let byName :=
      match categoryName with
      | Some name =>
          if truthy name && (0 <? String.length (trim name))%nat
          then findByName db userId name
          else None
      | None => None
      end in
    match byName with
    | Some data => (Some (cat_id data, cat_name data), db)
    | None =>
      if createIfMissing then
        match deriveName categoryId categoryName with
        | Some derivedName =>
            if truthy derivedName then
              let created := newCategory new_id userId derivedName in
              match insert_category db created with
              | Some db' => (Some (cat_id created, cat_name created), db')
              | None => (None, db)
              end
            else (None, db)
        | None => (None, db)
        end
      else (None, db)
    end
  end.

(** ** createMonthlyGoal *)

Record CreateMonthlyGoalRequest := mkGoalRequest {
  req_month : string;
  req_income : number;
  req_expenses : list CategoryExpense
}.

Definition goal_key (userId mon : string) (g : MonthlyGoal) : bool :=
  String.eqb (goal_user_id g) userId && String.eqb (goal_month g) mon.

(** An entry of the JSON column [expenses] as the service reads it back
    ([Number(exp.expected_amount)]). *)
Definition stored_expense (e : CategoryExpense) : CategoryExpense :=
  mkCategoryExpense (ce_category_id e) (ce_category_name e)
                    (json_number (expected_amount e)).

(** [.upsert({user_id, month, income, expenses, updated_at},
             {onConflict: 'user_id,month'}).select().single()]:
    the row in conflict on (user_id, month) takes the columns of the
    request and keeps its id; without a conflict a row is inserted under
    the generated id, which the primary key requires to be unused.  The
    column [income] is DECIMAL(12,2).  Any error of the store becomes the
    500 of the source. *)
Definition createMonthlyGoal
    (db : Db) (userId : string) (goalData : CreateMonthlyGoalRequest)
    (new_id : string)
  : result MonthlyGoal * Db :=
  match numeric_12_2 (req_income goalData) with
  | None => (Err (createError "Failed to create monthly goal" 500), db)
  | Some stored_income =>
    let key := goal_key userId (req_month goalData) in
    let put (g : MonthlyGoal) :=
      mkMonthlyGoal (goal_id g) userId (req_month goalData) stored_income
                    (map stored_expense (req_expenses goalData)) in
    if existsb key (monthly_goals db) then
      let gs := map (fun g => if key g then put g else g) (monthly_goals db) in
      match single (filter key gs) with
      | Some goal => (Ok goal, with_goals db gs)
      | None => (Err (createError "Failed to create monthly goal" 500), db)
      end
    else if existsb (fun g => String.eqb (goal_id g) new_id) (monthly_goals db)
    then (Err (createError "Failed to create monthly goal" 500), db)
    else
      let goal := mkMonthlyGoal new_id userId (req_month goalData) stored_income
                                (map stored_expense (req_expenses goalData)) in
      (Ok goal, with_goals db (monthly_goals db ++ [goal]))
  end.

(** ** updateTransaction *)

(** [Partial<CreateTransactionRequest>]. *)
Record TransactionUpdates := mkUpdates {
  upd_category_id : option string;
  upd_category_name : option string;
  upd_amount : option number;
  upd_description : option string;
  upd_date : option string
}.

(** [a ?? b]. *)
Definition nullish {A : Type} (a : option A) (b : A) : A :=
  match a with Some x => x | None => b end.

Section UpdateTransaction.

(** [new Date(d).toISOString().slice(0, 7)], [None] when [toISOString]
    throws a RangeError on an invalid date. *)
Variable isoMonth : string -> option string.

(** The column [date] is DATE: [date_in d] is the text a client reads
    from it after writing the text [d], the calendar day the store made
    of it, or [None] when the store refuses [d]. *)
Variable date_in : string -> option string.

(** [.eq('id', transactionId).eq('user_id', userId)] *)
Definition tx_selected (userId transactionId : string) (t : Transaction)
  : bool :=
  match uuid_in transactionId with
  | Some key => id_is key (tx_id t) && String.eqb (tx_user_id t) userId
  | None => false
  end.

(** The steps of the source in their order: the read of the row of the
    caller (404 when it is not found), the month of a new date (a
    RangeError ends in the catch-all 500), the resolution of a named
    category (400 when it is unknown), the write of all columns (500 when
    the store refuses the amount or the date of the request; a category
    the resolution has created stays).  A column for which the request
    has nothing is written with the value just read from it, which the
    store takes as it is. *)
Definition updateTransaction
    (db : Db) (userId transactionId : string) (updates : TransactionUpdates)
    (new_id : string)
  : result Transaction * Db :=
  match single (filter (tx_selected userId transactionId) (transactions db)) with
  | None => (Err (createError "Transaction not found" 404), db)
  | Some existing =>
    let dated :=
      match upd_date updates with
      | Some d =>
          if truthy d
          then match isoMonth d with
               | Some m => Some (date_in d, m)
               | None => None
               end
          else Some (Some (date existing), month existing)
      | None => Some (Some (date existing), month existing)
      end in
    match dated with
    | None => (Err (createError "Failed to update transaction" 500), db)
    | Some (newDate, mon) =>
      let resolved :=
        if truthy_opt (upd_category_id updates) ||
           truthy_opt (upd_category_name updates)
        then
          match resolveCategoryId db userId (upd_category_id updates)
                                  (upd_category_name updates) true new_id with
          | (Some r, db1) => Some (r, db1)
          | (None, _) => None
          end
        else Some ((category_id existing, category_name existing), db) in
      match resolved with
      | None =>
          (Err (createError
                  "Unknown category. Provide a valid category_id or category_name."
                  400), db)
      | Some ((categoryIdToUse, categoryNameToUse), db1) =>
          let newAmount :=
            match upd_amount updates with
            | Some a => numeric_12_2 a
            | None => Some (amount existing)
            end in
          match newAmount, newDate with
          | Some storedAmount, Some storedDate =>
              let updated :=
                mkTransaction (tx_id existing) (tx_user_id existing)
                              categoryIdToUse categoryNameToUse
                              storedAmount
                              (nullish (upd_description updates)
                                       (description existing))
                              storedDate mon in
              (Ok updated,
               mkDb (categories db1) (monthly_goals db1)
                    (map (fun t => if tx_selected userId transactionId t
                                   then updated else t)
                         (transactions db1)))
          | _, _ =>
              (Err (createError "Failed to update transaction" 500), db1)
          end
      end
    end
  end.

End UpdateTransaction.

(** ** deleteCategory *)

Definition delete_selected (userId key : string) (c : Category) : bool :=
  id_is key (cat_id c) && opt_eqb (cat_user_id c) userId &&
  Bool.eqb (is_default c) false.

(** [.delete().eq('id', categoryId).eq('user_id', userId)
       .eq('is_default', false)]; an id the uuid column cannot read is an
    error of the store, hence the 500 of the source.
    [transactions.category_id REFERENCES categories(id) ON DELETE CASCADE]
    removes the transactions of a deleted category with it. *)
Definition deleteCategory (db : Db) (userId categoryId : string)
  : result unit * Db :=
  match uuid_in categoryId with
  | None => (Err (createError "Failed to delete category" 500), db)
  | Some key =>
      let gone := filter (delete_selected userId key) (categories db) in
      (Ok tt,
       mkDb (filter (fun c => negb (delete_selected userId key c)) (categories db))
            (monthly_goals db)
            (filter (fun t =>
                       negb (existsb (fun c => String.eqb (cat_id c) (category_id t))
                                     gone))
                    (transactions db)))
  end.

End BudgetService.

(* ================================================================== *)
(** * Plain objects used as maps *)

Module JsObject.
Import Number.

(** The values the accumulator of the aggregation can hold or yield.
    [VString] is a non-empty string that does not read as a number (its
    text is not modelled); [VObject] is a function or object inherited
    from [Object.prototype]. *)
Inductive jsval :=
| VUndefined
| VNum (x : number)
| VString
| VObject.

(** The own properties of an object literal [{}], in creation order. *)
Definition obj := list (string * jsval).

(** The property names of [Object.prototype]. *)
Definition inherited_names : list string :=
  [ "constructor"; "__defineGetter__"; "__defineSetter__"; "hasOwnProperty";
    "__lookupGetter__"; "__lookupSetter__"; "isPrototypeOf";
    "propertyIsEnumerable"; "toString"; "valueOf"; "__proto__";
    "toLocaleString" ].

Definition inherited (k : string) : bool :=
  existsb (String.eqb k) inherited_names.

Fixpoint own (o : obj) (k : string) : option jsval :=
  match o with
  | [] => None
  | (k', v) :: r => if String.eqb k' k then Some v else own r k
  end.

(** [o[k]]: the own property, else the one of the prototype. *)
Definition get (o : obj) (k : string) : jsval :=
  match own o k with
  | Some v => v
  | None => if inherited k then VObject else VUndefined
  end.

Fixpoint put (o : obj) (k : string) (v : jsval) : obj :=
  match o with
  | [] => [(k, v)]
  | (k', v') :: r =>
      if String.eqb k' k then (k', v) :: r else (k', v') :: put r k v
  end.

(** [o[k] = v] for a primitive [v]: the setter of [__proto__] ignores a
    value that is neither an object nor null; any other name becomes or
    stays an own property. *)
Definition set (o : obj) (k : string) (v : jsval) : obj :=
  if String.eqb k "__proto__" then o else put o k v.

Definition toBoolean (v : jsval) : bool :=
  match v with
  | VUndefined => false
  | VNum x => truthy_number x
  | VString | VObject => true
  end.

(** [a || b]. *)
Definition or_else (a b : jsval) : jsval := if toBoolean a then a else b.

(** [a + n] for a number [n]: a sum of numbers, or the concatenation of
    the texts when [a] is a string or turns into one. *)
Definition plus (a : jsval) (n : number) : jsval :=
  match a with
  | VNum x => VNum (add x n)
  | VUndefined => VNum nan
  | VString | VObject => VString
  end.

(** [a - b], [a / n] and [a * n]; a string of unmodelled text reads as NaN. *)
Definition minus (a b : jsval) : jsval :=
  match a, b with
  | VNum x, VNum y => VNum (sub x y)
  | _, _ => VNum nan
  end.

Definition divide (a : jsval) (n : number) : jsval :=
  match a with VNum x => VNum (div x n) | _ => VNum nan end.

Definition times (a : jsval) (n : number) : jsval :=
  match a with VNum x => VNum (mul x n) | _ => VNum nan end.

(** A property name is an array index when it is the decimal text of an
    integer below 2^32 - 1. *)
Definition array_index (k : string) : option N :=
  match NilZero.uint_of_string k with
  | Some d =>
      let n := N.of_uint d in
      if (n <=? 4294967294)%N &&
         String.eqb (NilZero.string_of_uint (N.to_uint n)) k
      then Some n else None
  | None => None
  end.

Definition is_index (k : string) : bool :=
  match array_index k with Some _ => true | None => false end.

Definition index_of (k : string) : N :=
  match array_index k with Some n => n | None => 0%N end.

Fixpoint insert_index (e : string * jsval) (l : list (string * jsval))
  : list (string * jsval) :=
  match l with
  | [] => [e]
  | e' :: r =>
      if (index_of (fst e) <=? index_of (fst e'))%N then e :: l
      else e' :: insert_index e r
  end.

Definition sort_index (l : list (string * jsval)) : list (string * jsval) :=
  fold_right insert_index [] l.

(** [Object.entries(o)]: the array indices in ascending numeric order, then
    the other names in creation order. *)
Definition entries (o : obj) : list (string * jsval) :=
  sort_index (filter (fun e => is_index (fst e)) o) ++
  filter (fun e => negb (is_index (fst e))) o.

End JsObject.

(* ================================================================== *)
(** * Arrays *)

Module JsArray.
Import Number JsObject.

Section Sort.
Context {A : Type}.

(** The comparison function of the call. *)
Variable comparefn : A -> A -> jsval.

(** SortCompare: [a] is placed before [b] when [comparefn(a, b) < 0]; a NaN
    counts as 0. *)
Definition precedes (a b : A) : bool :=
  match comparefn a b with
  | VNum d => lt d zero
  | _ => false
  end.

(** [x], which came before the elements of [l], goes behind those that
    must precede it. *)
Fixpoint insert (x : A) (l : list A) : list A :=
  match l with
  | [] => [x]
  | y :: r => if precedes y x then y :: insert x r else x :: y :: r
  end.

(** [Array.prototype.sort(comparefn)], a stable sort.  For a consistent
    comparison function, which is all ECMAScript specifies the result for,
    the sorted array is the one a stable insertion yields. *)
Definition sort (l : list A) : list A := fold_right insert [] l.

End Sort.

(** [slice(0, n)]. *)
Definition slice0 {A : Type} (n : nat) (l : list A) : list A := firstn n l.

End JsArray.

(* ================================================================== *)
(** * The dashboard aggregation *)

Module Dashboard.
Import Number Store JsObject JsArray.

Record TopCategory := mkTop {
  top_category_name : string;
  top_amount : jsval;
  percentage : jsval
}.

Record DashboardSummary := mkSummary {
  sum_monthlyGoal : option MonthlyGoal;
  sum_transactions : list Transaction;
  sum_totalIncome : number;
  sum_totalExpenses : number;
  sum_actualSavings : number;
  sum_expectedSavings : number;
  sum_topCategories : list TopCategory;
  sum_monthlyProgress : number
}.

Section Summary.

(** The results of [getCurrentMonthlyGoal] and
    [getCurrentMonthTransactions]. *)
Variable monthlyGoal : option MonthlyGoal.
Variable transactions : list Transaction.

(** [monthlyGoal?.income || 0] *)
Definition totalIncome : number :=
  match monthlyGoal with
  | Some g => or_zero (income g)
  | None => zero
  end.

(** [transactions.reduce((sum, trans) => sum + Number(trans.amount), 0)] *)
Definition totalExpenses : number :=
  fold_left (fun sum trans => add sum (amount trans)) transactions zero.

Definition actualSavings : number := sub totalIncome totalExpenses.

(** [monthlyGoal?.expenses?.reduce(
       (sum, exp) => sum + Number(exp.expected_amount), 0) || 0] *)
Definition totalExpectedExpenses : number :=
  match monthlyGoal with
  | Some g =>
      or_zero (fold_left (fun sum exp => add sum (expected_amount exp))
                         (expenses g) zero)
  | None => zero
  end.

Definition expectedSavings : number := sub totalIncome totalExpectedExpenses.

(** [transactions.reduce((acc, trans) => {
       acc[trans.category_name] =
         (acc[trans.category_name] || 0) + Number(trans.amount);
       return acc; }, {})] *)
Definition categoryTotals : obj :=
  fold_left
    (fun acc trans =>
       set acc (category_name trans)
           (plus (or_else (get acc (category_name trans)) (VNum zero))
                 (amount trans)))
    transactions [].

(** [([category_name, amount]) => ({ category_name, amount,
       percentage: totalExpenses > 0 ? (amount / totalExpenses) * 100 : 0 })] *)
Definition toTop (e : string * jsval) : TopCategory :=
  mkTop (fst e) (snd e)
        (if gt totalExpenses zero
         then times (divide (snd e) totalExpenses) (num 100)
         else VNum zero).

(** [(a, b) => b.amount - a.amount] *)
Definition byAmountDesc (a b : TopCategory) : jsval :=
  minus (top_amount b) (top_amount a).

(** [Object.entries(categoryTotals).map(...).sort(...).slice(0, 5)] *)
Definition topCategories : list TopCategory :=
  slice0 5 (sort byAmountDesc (map toTop (entries categoryTotals))).

(** [totalExpectedExpenses > 0
       ? Math.min((totalExpenses / totalExpectedExpenses) * 100, 100) : 0] *)
Definition monthlyProgress : number :=
  if gt totalExpectedExpenses zero
  then math_min (mul (div totalExpenses totalExpectedExpenses) (num 100))
                (num 100)
  else zero.

Definition getDashboardSummary : DashboardSummary :=
  mkSummary monthlyGoal transactions totalIncome totalExpenses actualSavings
            expectedSavings topCategories monthlyProgress.

End Summary.

End Dashboard.

(* ================================================================== *)
(** * Vocabulary of the statements *)

Import JsString Uuid Number Store BudgetService JsObject JsArray Dashboard.

(** ** Numbers *)

(** The exact value of a finite number, as a fraction. *)
Definition value (x : number) : Q :=
  match x with
  | S754_finite s m e =>
      let v := inject_Z (if s then Z.neg m else Z.pos m) in
      if (0 <=? e)%Z then v * inject_Z (2 ^ e)
      else v / inject_Z (2 ^ (- e))
  | _ => 0
  end.

(** The number of an integer [v] of at most 53 bits under the sign [s]:
    53 bits of mantissa, the exponent that goes with them. *)
Definition canon (s : bool) (v : positive) : number :=
  S754_finite s (Z.to_pos (Z.pos v * 2 ^ (53 - Z.pos (digits2_pos v))))
              (Z.pos (digits2_pos v) - 53).

(** The integer of a sign and a magnitude. *)
Definition signed (s : bool) (v : positive) : Z :=
  if s then Z.neg v else Z.pos v.

(** The sum of a sequence of integers. *)
Definition Zsum (l : list Z) : Z := fold_right Z.add 0%Z l.

(** What a call of [resolveCategoryId] can be: found by identifier, found
    by name, created, or not found. *)
Inductive resolution (db : Db) (u : string) (new_id : string)
  : option (string * string) * Db -> Prop :=
| res_found (c : Category) :
    In c (categories db) -> visible u c = true ->
    resolution db u new_id (Some (cat_id c, cat_name c), db)
| res_created (name : string) (db' : Db) :
    insert_category db (newCategory new_id u name) = Some db' ->
    resolution db u new_id (Some (new_id, name), db')
| res_none :
    resolution db u new_id (None, db).

(** ** Goals *)

Definition goal_owner_month (g : MonthlyGoal) : string * string :=
  (goal_user_id g, goal_month g).

(** [UNIQUE (user_id, month)] of [monthly_goals]. *)
Definition goals_unique (db : Db) : Prop :=
  NoDup (map goal_owner_month (monthly_goals db)).


(** ** A small store used by the examples *)

Definition alice : string := "a11ce000-0000-4000-8000-000000000001".
Definition bob : string := "b0b00000-0000-4000-8000-000000000002".

Definition utilities : Category :=
  mkCategory "d0000000-0000-4000-8000-000000000001" "Utilities" "#45B7D1" "zap"
             true None.
Definition bobs_savings : Category :=
  mkCategory "c0000000-0000-4000-8000-00000000000b" "Savings" "#6B7280"
             "more-horizontal" false (Some bob).
Definition alices_pets : Category :=
  mkCategory "c0000000-0000-4000-8000-00000000000a" "Pets" "#6B7280"
             "more-horizontal" false (Some alice).

Definition alices_kibble : Transaction :=
  mkTransaction "70000000-0000-4000-8000-000000000001" alice
                (cat_id alices_pets) "Pets" (num 12) "kibble" "2024-05-03"
                "2024-05".

Definition alices_may : MonthlyGoal :=
  mkMonthlyGoal "90000000-0000-4000-8000-000000000001" alice "2024-05"
                (num 1000)
                [mkCategoryExpense (cat_id utilities) "Utilities" (num 100)].

Definition db0 : Db :=
  mkDb [utilities; bobs_savings; alices_pets] [alices_may] [alices_kibble].

Definition fresh_id : string := "f0000000-0000-4000-8000-00000000000f".

(** A goal of [alice] for May 2024 with the given income and expected
    amounts. *)
Definition goalOf (inc : number) (expected : list number) : MonthlyGoal :=
  mkMonthlyGoal (goal_id alices_may) alice "2024-05" inc
                (map (mkCategoryExpense (cat_id utilities) "Utilities") expected).

(** A transaction of [alice] of amount [a] recorded under the category
    name [n]. *)
Definition spend (n : string) (a : number) : Transaction :=
  mkTransaction (tx_id alices_kibble) alice (cat_id alices_pets) n a
                "spent" "2024-05-03" "2024-05".

Definition to_bobs_category : TransactionUpdates :=
  mkUpdates (Some (cat_id bobs_savings)) None (Some (num 99)) (Some "moved")
            None.


(** ** Order and groups of the aggregation *)

(** [a] occurs in [l] at a position before an occurrence of [b]. *)
Definition before {A : Type} (l : list A) (a b : A) : Prop :=
  exists l1 l2 l3, l = l1 ++ a :: l2 ++ b :: l3.

(** The category names of a sequence of transactions, in order. *)
Definition names (ts : list Transaction) : list string :=
  map category_name ts.

(** The first transaction under the name [a] comes before every
    transaction under the name [b]. *)
Definition first_seen_before (ts : list Transaction) (a b : string) : Prop :=
  exists ts1 ts2, ts = ts1 ++ ts2 /\ In a (names ts1) /\ ~ In b (names ts1).

(** The order of property names in [Object.entries]: array indices by
    value, then every other name, by first use. *)
Definition key_order (ts : list Transaction) (a b : string) : Prop :=
  match array_index a, array_index b with
  | Some i, Some j => (i < j)%N
  | Some _, None => True
  | None, Some _ => False
  | None, None => first_seen_before ts a b
  end.

(** No category name is a property name of [Object.prototype]. *)
Definition plain_names (ts : list Transaction) : Prop :=
  forall t, In t ts -> inherited (category_name t) = false.

(** The sum of the amounts recorded under the name [k], added in their
    order. *)
Definition group_sum (k : string) (ts : list Transaction) : number :=
  fold_left add
            (map amount (filter (fun t => String.eqb (category_name t) k) ts))
            zero.

(** The amounts the groups come to are finite numbers. *)
Definition finite_totals (ts : list Transaction) : Prop :=
  forall k v, In (k, v) (categoryTotals ts) ->
    exists x, v = VNum x /\ is_finite x = true.

(** One round of the reduction that builds [categoryTotals]. *)
Definition add_transaction (acc : obj) (trans : Transaction) : obj :=
  set acc (category_name trans)
      (plus (or_else (get acc (category_name trans)) (VNum zero))
            (amount trans)).

(** Ascending order of array indices. *)
Definition index_le (x y : string * jsval) : Prop :=
  (index_of (fst x) <= index_of (fst y))%N.

(** ** Example transaction sequences *)

Definition six_groups : list Transaction :=
  [spend "A" (num 30); spend "B" (num 50); spend "C" (num 20);
   spend "D" (num 10); spend "E" (num 5); spend "F" (num 40)].

Definition tied_names : list Transaction :=
  [spend "Rent" (num 10); spend "Food" (num 10)].

Definition tied_indices : list Transaction :=
  [spend "2" (num 10); spend "1" (num 10)].

Definition with_proto : list Transaction :=
  [spend "Food" (num 30); spend "__proto__" (num 50)].

(** Two groups of the same three amounts, met in different orders. *)
Definition rounded_groups : list Transaction :=
  [spend "B" (dec 3 1); spend "A" (dec 1 1); spend "B" (dec 2 1);
   spend "A" (dec 2 1); spend "B" (dec 1 1); spend "A" (dec 3 1)].

Definition no_entry : TopCategory := mkTop "none" VUndefined VUndefined.

(** ** Dates of the examples *)

(** The reading of the DATE column for a date written as YYYY-MM-DD, which
    it stores and returns as it is; the examples write no other text. *)
Definition plain_date (d : string) : option string :=
  match list_ascii_of_string d with
  | [y1; y2; y3; y4; h1; m1; m2; h2; d1; d2] =>
      if forallb is_digit [y1; y2; y3; y4; m1; m2; d1; d2] &&
         (code h1 =? 45)%nat && (code h2 =? 45)%nat
      then Some d else None
  | _ => None
  end.

(* ================================================================== *)
(** * The budget service: the other operations *)

Module BudgetServiceRest.
Import JsString Uuid Number Store BudgetService Dashboard.

(** ** Ordered reads *)

(** [.order(...)]: the rows in the order [first] asks for, [first a b]
    telling that [a] has to come before [b].  The order of rows that tie
    is the store's choice; here they keep their table order. *)
Fixpoint order_insert {A : Type} (first : A -> A -> bool) (x : A) (l : list A)
  : list A :=
  match l with
  | [] => [x]
  | y :: r => if first y x then y :: order_insert first x r else x :: y :: r
  end.

Definition order_by {A : Type} (first : A -> A -> bool) (l : list A) : list A :=
  fold_right (order_insert first) [] l.

(** ** createCategory *)

Record CategoryData := mkCategoryData {
  cd_name : string;
  cd_color : string;
  cd_icon : string
}.

(** [.insert({user_id, name, color, icon, is_default: false})
       .select().single()]; an error of the store is the 500 of the
    source. *)
Definition createCategory
    (db : Db) (userId : string) (categoryData : CategoryData) (new_id : string)
  : result Category * Db :=
  let row := mkCategory new_id (cd_name categoryData) (cd_color categoryData)
                        (cd_icon categoryData) false (Some userId) in
  match insert_category db row with
  | Some db' => (Ok row, db')
  | None => (Err (createError "Failed to create category" 500), db)
  end.

(** ** getUserCategories *)

Section GetUserCategories.

(** The order of the store's collation on names: [name_before a b] when
    [a] sorts strictly before [b]. *)
Variable name_before : string -> string -> bool.

(** [.order('is_default', { ascending: false })
       .order('name', { ascending: true })] *)
Definition defaults_then_name (a b : Category) : bool :=
  (is_default a && negb (is_default b)) ||
  (Bool.eqb (is_default a) (is_default b) &&
   name_before (cat_name a) (cat_name b)).

(** [.select('*').or(`user_id.eq.${userId},is_default.eq.true`)] in that
    order. *)
Definition getUserCategories (db : Db) (userId : string) : list Category :=
  order_by defaults_then_name (filter (visible userId) (categories db)).

End GetUserCategories.

(** ** The reads of the current month *)

Section CurrentMonth.

(** [new Date().toISOString().slice(0, 7)] at the time of the call. *)
Variable currentMonth : string.

(** The order of the store on its DATE column: [date_after a b] when the
    date [a] is later than [b]. *)
Variable date_after : string -> string -> bool.

(** [.eq('user_id', userId).eq('month', currentMonth).single()]; the error
    PGRST116 of no row, or of several, is answered with [null]. *)
Definition getCurrentMonthlyGoal (db : Db) (userId : string)
  : option MonthlyGoal :=
  single (filter (goal_key userId currentMonth) (monthly_goals db)).

Definition of_month (userId : string) (t : Transaction) : bool :=
  String.eqb (tx_user_id t) userId && String.eqb (month t) currentMonth.

(** [.eq('user_id', userId).eq('month', currentMonth)
       .order('date', { ascending: false })] *)
Definition getCurrentMonthTransactions (db : Db) (userId : string)
  : list Transaction :=
  order_by (fun a b => date_after (date a) (date b))
           (filter (of_month userId) (transactions db)).

(** [getDashboardSummary(userId)] as a whole: the two reads, then the
    aggregation. *)
Definition getDashboardSummaryOf (db : Db) (userId : string)
  : DashboardSummary :=
  getDashboardSummary (getCurrentMonthlyGoal db userId)
                      (getCurrentMonthTransactions db userId).

End CurrentMonth.

(** ** createTransaction *)

Record CreateTransactionRequest := mkTransactionRequest {
  ctr_category_id : string;
  ctr_category_name : option string;
  ctr_amount : number;
  ctr_description : string;
  ctr_date : string
}.

Section CreateTransaction.

(** [new Date(d).toISOString().slice(0, 7)], [None] when [toISOString]
    throws a RangeError on an invalid date. *)
Variable isoMonth : string -> option string.

(** The reading of the DATE column, as for [updateTransaction]. *)
Variable date_in : string -> option string.

(** The steps of the source in their order: the month of the date (a
    RangeError ends in the catch-all 500), the resolution of the category
    (400 when it is unknown), the insert (500 when the store refuses the
    amount, the date or the generated id; a category the resolution has
    created stays).  The row returned is the row the store wrote, with
    the amount and the date as their columns hold them.
    [new_category_id] and [new_id] are the identifiers the store
    generates for a category and for the transaction. *)
Definition createTransaction
    (db : Db) (userId : string) (transactionData : CreateTransactionRequest)
    (new_category_id new_id : string)
  : result Transaction * Db :=
  match isoMonth (ctr_date transactionData) with
  | None => (Err (createError "Failed to create transaction" 500), db)
  | Some mon =>
    match resolveCategoryId db userId
            (Some (ctr_category_id transactionData))
            (ctr_category_name transactionData) true new_category_id with
    | (None, db1) =>
        (Err (createError
                "Unknown category. Provide a valid category_id or category_name."
                400), db1)
    | (Some (resolved_id, resolved_name), db1) =>
        match numeric_12_2 (ctr_amount transactionData),
              date_in (ctr_date transactionData) with
        | Some storedAmount, Some storedDate =>
            let row :=
              mkTransaction new_id userId resolved_id resolved_name
                            storedAmount
                            (ctr_description transactionData)
                            storedDate mon in
            if existsb (fun t => String.eqb (tx_id t) new_id) (transactions db1)
            then (Err (createError "Failed to create transaction" 500), db1)
            else (Ok row,
                  mkDb (categories db1) (monthly_goals db1)
                       (transactions db1 ++ [row]))
        | _, _ => (Err (createError "Failed to create transaction" 500), db1)
        end
    end
  end.

End CreateTransaction.

End BudgetServiceRest.

(* ================================================================== *)
(** * The request handlers of the budget routes *)

Module BudgetController.
Import JsString Uuid Number Store BudgetService BudgetServiceRest.

(** What a handler does with a request: [res.status(status).json({success:
    true, data, message})], or [next(error)]. *)
Inductive reply (A : Type) :=
| Json (status : nat) (data : option A) (message : string)
| Next (error : ServiceError).
Arguments Json {A} status data message.
Arguments Next {A} error.

(** The answer to the result of a service call. *)
Definition respond {A : Type} (status : nat) (message : string)
    (r : result A) : reply A :=
  match r with
  | Ok value => Json status (Some value) message
  | Err error => Next error
  end.

Definition userNotFound : ServiceError := createError "User not found" 404.

(** [req.user] is the id of the account the authentication attached, if
    any. *)
Definition createMonthlyGoalHandler
    (db : Db) (user : option string) (goalData : CreateMonthlyGoalRequest)
    (new_id : string)
  : reply MonthlyGoal * Db :=
  match user with
  | None => (Next userNotFound, db)
  | Some id =>
      let '(r, db') := createMonthlyGoal db id goalData new_id in
      (respond 201 "Monthly goal created successfully" r, db')
  end.

Definition createTransactionHandler
    (isoMonth date_in : string -> option string)
    (db : Db) (user : option string) (transactionData : CreateTransactionRequest)
    (new_category_id new_id : string)
  : reply Transaction * Db :=
  match user with
  | None => (Next userNotFound, db)
  | Some id =>
      let '(r, db') :=
        createTransaction isoMonth date_in db id transactionData
                          new_category_id new_id in
      (respond 201 "Transaction created successfully" r, db')
  end.

Definition updateTransactionHandler
    (isoMonth date_in : string -> option string)
    (db : Db) (user : option string) (transactionId : string)
    (updates : TransactionUpdates) (new_id : string)
  : reply Transaction * Db :=
  match user with
  | None => (Next userNotFound, db)
  | Some id =>
      if negb (truthy transactionId)
      then (Next (createError "Transaction ID is required" 400), db)
      else
        let '(r, db') :=
          updateTransaction isoMonth date_in db id transactionId updates
                            new_id in
        (respond 200 "Transaction updated successfully" r, db')
  end.

(** The body of a request to create a category, any field of which may be
    missing. *)
Record CategoryBody := mkCategoryBody {
  body_name : option string;
  body_color : option string;
  body_icon : option string
}.

Definition createCategoryHandler
    (db : Db) (user : option string) (categoryData : CategoryBody)
    (new_id : string)
  : reply Category * Db :=
  match user with
  | None => (Next userNotFound, db)
  | Some id =>
      match body_name categoryData, body_color categoryData,
            body_icon categoryData with
      | Some name, Some color, Some icon =>
          if truthy name && truthy color && truthy icon then
            let '(r, db') :=
              createCategory db id (mkCategoryData name color icon) new_id in
            (respond 201 "Category created successfully" r, db')
          else (Next (createError "Name, color, and icon are required" 400), db)
      | _, _, _ =>
          (Next (createError "Name, color, and icon are required" 400), db)
      end
  end.

(** The answer carries no data. *)
Definition deleteCategoryHandler
    (db : Db) (user : option string) (categoryId : string)
  : reply unit * Db :=
  match user with
  | None => (Next userNotFound, db)
  | Some id =>
      if negb (truthy categoryId)
      then (Next (createError "Category ID is required" 400), db)
      else
        match deleteCategory db id categoryId with
        | (Ok _, db') => (Json 200 None "Category deleted successfully", db')
        | (Err error, db') => (Next error, db')
        end
  end.

End BudgetController.

(* ================================================================== *)
(** * Vocabulary of the further statements *)

Import BudgetServiceRest BudgetController.

(** [PRIMARY KEY (id)] and [UNIQUE (name, user_id)] of [categories]. *)
Definition categories_keyed (db : Db) : Prop :=
  NoDup (map cat_id (categories db)) /\
  forall a b, In a (categories db) -> In b (categories db) ->
    cat_name a = cat_name b -> cat_user_id a = cat_user_id b ->
    cat_user_id a <> None -> a = b.

(** Every transaction has its own id and is recorded under a category of
    the store that its owner may see. *)
Definition transactions_sound (db : Db) : Prop :=
  NoDup (map tx_id (transactions db)) /\
  forall t, In t (transactions db) ->
    exists c, In c (categories db) /\ cat_id c = category_id t /\
              visible (tx_user_id t) c = true.

(** The rows of an account. *)
Definition owned_by (u : string) (t : Transaction) : bool :=
  String.eqb (tx_user_id t) u.

(** The constraints of the schema that the service relies on. *)
Definition store_sound (db : Db) : Prop :=
  categories_keyed db /\ goals_unique db /\ transactions_sound db.

(** What the routes promise of a handler: a success is answered with the
    status [ok] and only to an authenticated account; an error carries
    one of the statuses 400, 404 and 500, and unless it is a 500 the store
    is as it was [before]. *)
Definition handler_contract {A : Type} (ok : nat) (user : option string)
    (before : Db) (r : reply A * Db) : Prop :=
  match fst r with
  | Json status _ _ => status = ok /\ user <> None
  | Next error =>
      In (statusCode error) [400; 404; 500]%nat /\
      (statusCode error <> 500%nat -> snd r = before)
  end.


(** ** Amounts that are whole numbers *)

(** [units t] is the amount of every transaction [t] of [ts], a whole
    number, and the absolute values of them all come to less than 2^52,
    so that no sum of amounts and no difference of two such sums is
    rounded. *)
Definition whole_amounts (units : Transaction -> Z) (ts : list Transaction)
  : Prop :=
  (forall t, In t ts -> amount t = num (units t)) /\
  (Zsum (map (fun t => Z.abs (units t)) ts) < 2 ^ 52)%Z.

(** The amounts recorded under the name [k], added up. *)
Definition group_units (units : Transaction -> Z) (k : string)
    (ts : list Transaction) : Z :=
  Zsum (map units (filter (fun t => String.eqb (category_name t) k) ts)).

(** The whole part of the amount of a transaction. *)
Definition units_of (t : Transaction) : Z :=
  match amount t with
  | S754_finite s m e =>
      let v := if s then Z.neg m else Z.pos m in
      if (0 <=? e)%Z then (v * 2 ^ e)%Z else Z.quot v (2 ^ (- e))
  | _ => 0%Z
  end.

(** ** Further example data *)

Definition kibble_moved : TransactionUpdates :=
  mkUpdates None (Some "Utilities") (Some (dec 12345 3)) None
            (Some "2024-06-01").

(** The amount an update writes: the amount of the request as the column
    takes it, or the amount read from the row. *)
Definition written_amount (upd : TransactionUpdates) (existing : Transaction)
  : option number :=
  match upd_amount upd with
  | Some a => numeric_12_2 a
  | None => Some (amount existing)
  end.
(* ================================================================== *)
(** * Numbers: sums of integers are exact *)

Section Integers.
Import Number.
Local Open Scope Z_scope.

Lemma digits_log2 (p : positive) : Z.pos (digits2_pos p) = Z.log2 (Z.pos p) + 1.
Proof.
  assert (S : digits2_pos p = Pos.size p) by (induction p; simpl; congruence).
  rewrite S. destruct p; simpl; try rewrite Pos2Z.inj_succ; lia.
Qed.

Lemma nat_iter_xO (m : positive) (n : nat) :
  Z.pos (nat_rect (fun _ => positive) m (fun _ => xO) n) = Z.pos m * 2 ^ Z.of_nat n.
Proof.
  induction n as [|n IH].
  - simpl. lia.
  - cbn [nat_rect]. rewrite Pos2Z.inj_xO, IH, Nat2Z.inj_succ, Z.pow_succ_r by lia. lia.
Qed.

Lemma iter_xO (m d : positive) : Z.pos (Pos.iter xO m d) = Z.pos m * 2 ^ Z.pos d.
Proof.
  rewrite Pos2Nat.inj_iter, nat_iter_xO, positive_nat_Z. reflexivity.
Qed.

Lemma iter_pos_nat {A : Type} (f : A -> A) (p : positive) (x : A) :
  SpecFloat.iter_pos f p x = nat_rect (fun _ => A) x (fun _ => f) (Pos.to_nat p).
Proof.
  assert (Comp : forall n m y, nat_rect (fun _ => A) (nat_rect (fun _ => A) y (fun _ => f) n) (fun _ => f) m
                         = nat_rect (fun _ => A) y (fun _ => f) (m + n)%nat).
  { intros n m y. induction m as [|m IH]; simpl; congruence. }
  assert (Shift : forall n y, nat_rect (fun _ => A) (f y) (fun _ => f) n
                         = f (nat_rect (fun _ => A) y (fun _ => f) n)).
  { intros n y. induction n as [|n IH]; simpl; congruence. }
  revert x. induction p as [p IH|p IH|]; intros x; cbn [SpecFloat.iter_pos].
  - rewrite !IH, Comp, Shift, Pos2Nat.inj_xI.
    replace (S (2 * Pos.to_nat p)) with (S (Pos.to_nat p + Pos.to_nat p)) by lia.
    reflexivity.
  - rewrite !IH, Comp, Pos2Nat.inj_xO.
    replace (2 * Pos.to_nat p)%nat with (Pos.to_nat p + Pos.to_nat p)%nat by lia.
    reflexivity.
  - reflexivity.
Qed.

Lemma nat_shr_exact (v : positive) (n : nat) :
  nat_rect (fun _ => shr_record)
    (Build_shr_record (Z.pos (nat_rect (fun _ => positive) v (fun _ => xO) n)) false false)
    (fun _ => shr_1) n =
  Build_shr_record (Z.pos v) false false.
Proof.
  assert (Shift : forall k y, nat_rect (fun _ => shr_record) (shr_1 y) (fun _ => shr_1) k
                         = shr_1 (nat_rect (fun _ => shr_record) y (fun _ => shr_1) k)).
  { intros k y. induction k as [|k IHk]; simpl; congruence. }
  induction n as [|n IH]; [reflexivity|].
  cbn [nat_rect]. rewrite <- Shift. simpl shr_1. exact IH.
Qed.

Lemma shr_exact (v p : positive) :
  SpecFloat.iter_pos shr_1 p (Build_shr_record (Z.pos (Pos.iter xO v p)) false false) =
  Build_shr_record (Z.pos v) false false.
Proof.
  rewrite iter_pos_nat, Pos2Nat.inj_iter. apply nat_shr_exact.
Qed.


Lemma digits_iter_xO (m d : positive) :
  Z.pos (digits2_pos (Pos.iter xO m d)) = Z.pos (digits2_pos m) + Z.pos d.
Proof.
  rewrite !digits_log2, iter_xO, Z.log2_mul_pow2 by lia. lia.
Qed.

(** A mantissa of 53 bits is kept as it is. *)
Lemma round_aux_kept (s : bool) (v : positive) (e : Z) :
  Z.pos (digits2_pos v) = 53 -> -1074 <= e <= 971 ->
  binary_round_aux prec emax s (Z.pos v) e loc_Exact = S754_finite s v e.
Proof.
  intros D R. unfold binary_round_aux, shr_fexp.
  assert (F : fexp prec emax (Zdigits2 (Z.pos v) + e) - e = 0).
  { simpl Zdigits2. rewrite D. unfold fexp, emin, prec, emax. lia. }
  rewrite F. simpl shr. simpl shr_record_of_loc. cbn [loc_of_shr_record shr_m round_nearest_even].
  rewrite F. simpl shr. cbn [shr_m].
  unfold emax, prec. destruct (Z.leb_spec e (1024 - 53)); [reflexivity | lia].
Qed.

(** Zeros shifted in are shifted out without loss. *)
Lemma round_aux_shifted (s : bool) (v p : positive) (e : Z) :
  Z.pos (digits2_pos v) = 53 -> -1074 <= e <= 971 ->
  binary_round_aux prec emax s (Z.pos (Pos.iter xO v p)) (e - Z.pos p) loc_Exact
  = S754_finite s v e.
Proof.
  intros D R. unfold binary_round_aux, shr_fexp.
  assert (F : fexp prec emax (Zdigits2 (Z.pos (Pos.iter xO v p)) + (e - Z.pos p))
              - (e - Z.pos p) = Z.pos p).
  { simpl Zdigits2. rewrite digits_iter_xO, D. unfold fexp, emin, prec, emax. lia. }
  rewrite F. cbn [shr shr_record_of_loc]. rewrite shr_exact.
  cbn [loc_of_shr_record shr_m round_nearest_even].
  replace (e - Z.pos p + Z.pos p) with e by lia.
  assert (F0 : fexp prec emax (Zdigits2 (Z.pos v) + e) - e = 0).
  { simpl Zdigits2. rewrite D. unfold fexp, emin, prec, emax. lia. }
  rewrite F0. simpl shr. cbn [shr_m].
  unfold emax, prec. destruct (Z.leb_spec e (1024 - 53)); [reflexivity | lia].
Qed.

Lemma round_exact (s : bool) (m v : positive) (K : Z) :
  0 <= K -> Z.pos m = Z.pos v * 2 ^ K -> Z.pos (digits2_pos v) <= 53 ->
  binary_round prec emax s m (- K) = canon s v.
Proof.
  intros HK Hm Hd.
  assert (Dm : Z.pos (digits2_pos m) = Z.pos (digits2_pos v) + K).
  { rewrite !digits_log2, Hm, Z.log2_mul_pow2 by lia. lia. }
  unfold canon.
  set (dv := Z.pos (digits2_pos v)) in *.
  assert (dv >= 1) by (unfold dv; lia).
  set (c := Z.to_pos (Z.pos v * 2 ^ (53 - dv))).
  assert (Pc : Z.pos c = Z.pos v * 2 ^ (53 - dv)).
  { unfold c. rewrite Z2Pos.id; [reflexivity|].
    apply Z.mul_pos_pos; [lia|]. apply Z.pow_pos_nonneg; lia. }
  assert (Dc : Z.pos (digits2_pos c) = 53).
  { rewrite digits_log2, Pc, Z.log2_mul_pow2 by lia.
    unfold dv. rewrite digits_log2. lia. }
  unfold binary_round.
  assert (Fx : fexp prec emax (Z.pos (digits2_pos m) + - K) = dv - 53).
  { rewrite Dm. unfold fexp, emin, prec, emax. lia. }
  rewrite Fx. unfold shl_align.
  destruct (dv - 53 - - K) as [|d|d] eqn:E.
  - assert (m = c) as ->.
    { apply Pos2Z.inj. rewrite Hm, Pc. f_equal. f_equal. lia. }
    replace (- K) with (dv - 53) by lia.
    apply round_aux_kept; [exact Dc | lia].
  - assert (m = Pos.iter xO c d) as ->.
    { apply Pos2Z.inj. rewrite iter_xO, Hm, Pc, <- Z.mul_assoc, <- Z.pow_add_r by lia.
      f_equal. f_equal. lia. }
    replace (- K) with (dv - 53 - Z.pos d) by lia.
    apply round_aux_shifted; [exact Dc | lia].
  - assert (Pos.iter xO m d = c) as ->.
    { apply Pos2Z.inj. rewrite iter_xO, Hm, Pc, <- Z.mul_assoc, <- Z.pow_add_r by lia.
      f_equal. f_equal. lia. }
    apply round_aux_kept; [exact Dc | lia].
Qed.

Lemma digits_bound (v : positive) : Z.pos v < 2 ^ 53 -> Z.pos (digits2_pos v) <= 53.
Proof.
  intros B. rewrite digits_log2.
  assert (Z.log2 (Z.pos v) < 53) by (apply Z.log2_lt_pow2; lia). lia.
Qed.

Lemma num_canon (z : Z) :
  Z.abs z < 2 ^ 53 ->
  num z = match z with
          | Z0 => S754_zero false
          | Z.pos v => canon false v
          | Z.neg v => canon true v
          end.
Proof.
  intros B. unfold num, binary_normalize. destruct z as [|v|v]; [reflexivity| |].
  - apply (round_exact false v v 0); [lia | lia | apply digits_bound; lia].
  - apply (round_exact true v v 0); [lia | lia | apply digits_bound; lia].
Qed.

Lemma canon_mantissa (v : positive) :
  Z.pos (digits2_pos v) <= 53 ->
  Z.pos (Z.to_pos (Z.pos v * 2 ^ (53 - Z.pos (digits2_pos v)))) =
  Z.pos v * 2 ^ (53 - Z.pos (digits2_pos v)).
Proof.
  intros D. rewrite Z2Pos.id; [reflexivity|].
  apply Z.mul_pos_pos; [lia|]. apply Z.pow_pos_nonneg; lia.
Qed.

Lemma shl_align_value (m : positive) (e e' : Z) :
  e' <= e ->
  Z.pos (fst (shl_align m e e')) = Z.pos m * 2 ^ (e - e').
Proof.
  intros L. unfold shl_align. destruct (e' - e) as [|d|d] eqn:E; simpl fst.
  - replace (e - e') with 0 by lia. lia.
  - lia.
  - rewrite iter_xO. f_equal. f_equal. lia.
Qed.

Lemma add_canon (sa sb : bool) (va vb : positive) :
  Z.pos (digits2_pos va) <= 53 -> Z.pos (digits2_pos vb) <= 53 ->
  Z.abs (signed sa va + signed sb vb) < 2 ^ 53 ->
  add (canon sa va) (canon sb vb) = num (signed sa va + signed sb vb).
Proof.
  intros Da Db B. unfold add, canon. cbn [SFadd].
  set (da := Z.pos (digits2_pos va)) in *.
  set (db := Z.pos (digits2_pos vb)) in *.
  set (ez := Z.min (da - 53) (db - 53)).
  assert (Ha : Z.pos (fst (shl_align (Z.to_pos (Z.pos va * 2 ^ (53 - da))) (da - 53) ez))
               = Z.pos va * 2 ^ (- ez)).
  { rewrite shl_align_value by (unfold ez; lia).
    unfold da. rewrite canon_mantissa by exact Da. fold da.
    rewrite <- Z.mul_assoc, <- Z.pow_add_r by (unfold ez; lia).
    f_equal. f_equal. lia. }
  assert (Hb : Z.pos (fst (shl_align (Z.to_pos (Z.pos vb * 2 ^ (53 - db))) (db - 53) ez))
               = Z.pos vb * 2 ^ (- ez)).
  { rewrite shl_align_value by (unfold ez; lia).
    unfold db. rewrite canon_mantissa by exact Db. fold db.
    rewrite <- Z.mul_assoc, <- Z.pow_add_r by (unfold ez; lia).
    f_equal. f_equal. lia. }
  rewrite Ha, Hb.
  assert (Sum : cond_Zopp sa (Z.pos va * 2 ^ (- ez)) + cond_Zopp sb (Z.pos vb * 2 ^ (- ez))
                = (signed sa va + signed sb vb) * 2 ^ (- ez)).
  { unfold cond_Zopp, signed. destruct sa, sb; lia. }
  rewrite Sum. clear Ha Hb Sum.
  set (z := signed sa va + signed sb vb) in *.
  assert (P : 0 < 2 ^ (- ez)) by (apply Z.pow_pos_nonneg; unfold ez; lia).
  rewrite (num_canon z B).
  unfold binary_normalize.
  destruct z as [|v|v] eqn:Ez.
  - reflexivity.
  - destruct (Z.pos v * 2 ^ (- ez)) as [|m|m] eqn:Em; [lia| |lia].
    rewrite <- (Z.opp_involutive ez) at 1.
    apply (round_exact false m v (- ez)); [unfold ez; lia | now symmetry |].
    apply digits_bound. simpl in B. lia.
  - destruct (Z.neg v * 2 ^ (- ez)) as [|m|m] eqn:Em; [lia|lia|].
    rewrite <- (Z.opp_involutive ez) at 1.
    apply (round_exact true m v (- ez)); [unfold ez; lia | lia |].
    apply digits_bound. simpl in B. lia.
Qed.

Lemma num_add (a b : Z) :
  Z.abs a < 2 ^ 53 -> Z.abs b < 2 ^ 53 -> Z.abs (a + b) < 2 ^ 53 ->
  add (num a) (num b) = num (a + b).
Proof.
  intros Ba Bb B. rewrite (num_canon a Ba), (num_canon b Bb).
  destruct a as [|va|va], b as [|vb|vb];
    try (rewrite (num_canon _ B); reflexivity).
  - apply (add_canon false false); try (apply digits_bound; simpl in *; lia). exact B.
  - apply (add_canon false true); try (apply digits_bound; simpl in *; lia). exact B.
  - apply (add_canon true false); try (apply digits_bound; simpl in *; lia). exact B.
  - apply (add_canon true true); try (apply digits_bound; simpl in *; lia). exact B.
Qed.

End Integers.

(* ================================================================== *)
(** * Numbers: order *)

Section Order.
Import Number.

Lemma SFcompare_antisym (x y : number) :
  SFcompare y x = option_map CompOpp (SFcompare x y).
Proof.
  destruct x as [sx|sx| |sx mx ex], y as [sy|sy| |sy my ey];
    try reflexivity;
    try (destruct sx; reflexivity); try (destruct sy; reflexivity);
    try (destruct sx, sy; reflexivity).
  cbn [SFcompare option_map].
  assert (P : Pos.compare_cont Eq my mx = CompOpp (Pos.compare_cont Eq mx my))
    by (symmetry; apply (Pos.compare_cont_antisym mx my Eq)).
  rewrite P, (Z.compare_antisym ex ey).
  destruct sx, sy, (ex ?= ey)%Z, (Pos.compare_cont Eq mx my); reflexivity.
Qed.

Lemma lt_irrefl (y : number) : lt y y = false.
Proof.
  unfold lt, SFltb. pose proof (SFcompare_antisym y y) as A.
  destruct (SFcompare y y) as [[| |]|]; try reflexivity; discriminate.
Qed.

(** [Math.min(x, y)] is never above [y]. *)
Lemma math_min_bound (x y : number) : gt (math_min x y) y = false.
Proof.
  unfold gt, math_min.
  destruct (SFcompare x y) as [[| |]|] eqn:C.
  - destruct x as [[|]|sx| |sx mx ex]; try apply lt_irrefl.
    unfold SFltb. now rewrite SFcompare_antisym, C.
  - unfold SFltb. now rewrite SFcompare_antisym, C.
  - apply lt_irrefl.
  - destruct y; reflexivity.
Qed.

(** Numbers that are equal have no difference below 0: both [b - a] and
    [a - b] are a zero or, for infinities, NaN. *)
Lemma sub_same (a b : number) :
  same a b = true -> lt (sub b a) zero = false.
Proof.
  unfold same, SFeqb. intros E.
  destruct a as [sa|sa| |sa ma ea], b as [sb|sb| |sb mb eb];
    try discriminate E;
    try (destruct sa, sb; reflexivity || discriminate E);
    try (destruct sa; discriminate E); try (destruct sb; discriminate E).
  cbn [SFcompare] in E.
  assert (S : sa = sb /\ ea = eb /\ ma = mb).
  { destruct sa, sb; try discriminate E;
      destruct (ea ?= eb)%Z eqn:Ce; try discriminate E;
      apply Z.compare_eq in Ce;
      destruct (Pos.compare_cont Eq ma mb) eqn:Cm; try discriminate E;
      apply Pos.compare_eq in Cm; auto. }
  destruct S as (-> & -> & ->).
  unfold sub. cbn [SFsub]. rewrite Z.sub_diag. reflexivity.
Qed.

End Order.
(* ================================================================== *)
(** * The model on small inputs *)

Example title_case_of_slug :
  capitalize_words (hyphens_to_spaces "food-groceries") = "Food Groceries".
Proof. reflexivity. Qed.

Example title_case_keeps_inner_capitals :
  capitalize_words (hyphens_to_spaces "a1-bC_d--e") = "A1 BC_d  E".
Proof. reflexivity. Qed.

Example trim_both_ends : trim "  a b  " = "a b".
Proof. reflexivity. Qed.

Example isUuid_any_case :
  isUuid (Some "A0EEBC99-9C0B-4EF8-BB6D-6BB9BD380A11") = true.
Proof. reflexivity. Qed.

Example isUuid_version_digit :
  isUuid (Some "a0eebc99-9c0b-0ef8-bb6d-6bb9bd380a11") = false.
Proof. reflexivity. Qed.

Example uuid_in_lower_case :
  uuid_in "A0EEBC99-9C0B-4EF8-BB6D-6BB9BD380A11" =
  Some "a0eebc99-9c0b-4ef8-bb6d-6bb9bd380a11".
Proof. reflexivity. Qed.

Example uuid_in_rejects_slug : uuid_in "food-groceries" = None.
Proof. reflexivity. Qed.

Example array_index_canonical :
  map array_index ["0"; "7"; "42"; "07"; "4294967294"; "4294967295"; "a"; EmptyString] =
  [Some 0%N; Some 7%N; Some 42%N; None; Some 4294967294%N; None; None; None].
Proof. reflexivity. Qed.

Example entries_order :
  map fst (entries [("b", VNum (num 1)); ("10", VNum (num 2)); ("a", VNum (num 3));
                    ("9", VNum (num 4))])
  = ["9"; "10"; "b"; "a"].
Proof. reflexivity. Qed.


(* ================================================================== *)
(** * Properties of the dashboard totals *)

Section Totals.
Import Number.
Local Open Scope Z_scope.

Lemma num_zero : num 0 = zero.
Proof. reflexivity. Qed.

Lemma num_finite (z : Z) :
  z <> 0 -> Z.abs z < 2 ^ 53 -> exists s m e, num z = S754_finite s m e.
Proof.
  intros N B. rewrite (num_canon z B).
  destruct z as [|v|v]; [contradiction| |]; unfold canon; eauto.
Qed.

Lemma or_zero_num (z : Z) : Z.abs z < 2 ^ 53 -> or_zero (num z) = num z.
Proof.
  intros B. destruct (Z.eq_dec z 0) as [->|N]; [reflexivity|].
  destruct (num_finite z N B) as (s & m & e & ->). reflexivity.
Qed.

Lemma sub_canon (sa sb : bool) (va vb : positive) :
  sub (canon sa va) (canon sb vb) = add (canon sa va) (canon (negb sb) vb).
Proof.
  unfold sub, add, canon. cbn [SFsub SFadd]. f_equal.
  unfold cond_Zopp. destruct sa, sb; cbn [negb]; lia.
Qed.

Lemma num_sub (a b : Z) :
  Z.abs a < 2 ^ 53 -> Z.abs b < 2 ^ 53 -> Z.abs (a - b) < 2 ^ 53 ->
  sub (num a) (num b) = num (a - b).
Proof.
  intros Ba Bb B.
  assert (Bn : Z.abs (- b) < 2 ^ 53) by lia.
  replace (a - b) with (a + - b) in * by lia.
  rewrite <- (num_add a (- b) Ba Bn B).
  rewrite (num_canon a Ba), (num_canon b Bb), (num_canon (- b) Bn).
  destruct a as [|va|va], b as [|vb|vb]; try reflexivity;
    cbn [Z.opp]; now rewrite sub_canon.
Qed.

Lemma Zsum_abs_nonneg (zs : list Z) : 0 <= Zsum (map Z.abs zs).
Proof. induction zs as [|z zs IH]; simpl; lia. Qed.


(** Whole numbers are added without rounding as long as they stay below
    2^53. *)
Lemma fold_add_whole {A : Type} (f : A -> number) (l : list A) :
  forall (zs : list Z) (a : Z),
    map f l = map num zs -> Z.abs a + Zsum (map Z.abs zs) < 2 ^ 53 ->
    fold_left (fun sum x => add sum (f x)) l (num a) = num (a + Zsum zs).
Proof.
  induction l as [|x l IH]; intros zs a E B.
  - destruct zs; [|discriminate]. simpl. f_equal. lia.
  - destruct zs as [|z zs]; [discriminate|]. simpl in E, B.
    inversion E as [[Ex El]]. cbn [fold_left]. rewrite Ex.
    pose proof (Zsum_abs_nonneg zs).
    rewrite num_add by lia.
    rewrite (IH zs (a + z) El) by lia.
    simpl. f_equal. lia.
Qed.

End Totals.


Lemma totalExpenses_whole (ts : list Transaction) (zs : list Z) :
  map amount ts = map num zs -> (Zsum (map Z.abs zs) < 2 ^ 53)%Z ->
  totalExpenses ts = num (Zsum zs).
Proof.
  intros E B. unfold totalExpenses. change zero with (num 0).
  rewrite (fold_add_whole amount ts zs 0%Z E); [reflexivity|].
  simpl. exact B.
Qed.






(** C2.  [monthlyProgress] is [min(totalExpenses / totalExpectedExpenses *
    100, 100)] when the expected expenses are above 0 and 0 when they are
    0; it is never above 100, and expected amounts that come to 100 with
    transactions that come to 250 give 100. *)
Theorem monthlyProgress_clamp
    (g : option MonthlyGoal) (ts : list Transaction) :
  (gt (totalExpectedExpenses g) zero = true ->
   monthlyProgress g ts =
   math_min (mul (div (totalExpenses ts) (totalExpectedExpenses g)) (num 100))
            (num 100)) /\
  (totalExpectedExpenses g = zero -> monthlyProgress g ts = zero) /\
  gt (monthlyProgress g ts) (num 100) = false /\
  (forall goal, g = Some goal ->
     totalExpectedExpenses g = num 100 -> totalExpenses ts = num 250 ->
     monthlyProgress g ts = num 100).
Proof.
  unfold monthlyProgress.
  split; [|split; [|split]].
  - now intros ->.
  - now intros ->.
  - destruct (gt (totalExpectedExpenses g) zero).
    + apply math_min_bound.
    + reflexivity.
  - intros goal -> He Ha. rewrite He, Ha. reflexivity.
Qed.

Lemma monthlyProgress_clamp_witness :
  monthlyProgress (Some (goalOf (num 1000) [num 60; num 40]))
                  [spend "Food" (num 200); spend "Rent" (num 50)]
  = num 100.
Proof.
  destruct (monthlyProgress_clamp (Some (goalOf (num 1000) [num 60; num 40]))
              [spend "Food" (num 200); spend "Rent" (num 50)])
    as (_ & _ & _ & H).
  apply (H (goalOf (num 1000) [num 60; num 40])); reflexivity.
Defined.

(** The test of the source is what makes the progress 0 without expected
    expenses: the quotient alone is an infinity or NaN. *)
Example monthlyProgress_unguarded :
  math_min (mul (div (num 250) zero) (num 100)) (num 100) = num 100 /\
  math_min (mul (div zero zero) (num 100)) (num 100) = nan.
Proof. split; reflexivity. Qed.
(* ================================================================== *)
(** * Properties of the store operations *)

Lemma single_inv {A : Type} (l : list A) (x : A) :
  single l = Some x -> l = [x].
Proof.
  destruct l as [|a [|b l]]; simpl; intros H; now inversion H.
Qed.

Lemma visible_iff (u : string) (c : Category) :
  visible u c = true <-> cat_user_id c = Some u \/ is_default c = true.
Proof.
  unfold visible, opt_eqb. rewrite orb_true_iff.
  destruct (cat_user_id c) as [o|].
  - rewrite String.eqb_eq. split; intros [H|H]; auto.
    + left; now subst.
    + left; now inversion H.
  - split; intros [H|H]; auto; discriminate.
Qed.

Lemma same_key_same_row {A : Type} (key : A -> string) (l : list A) (a b : A) :
  NoDup (map key l) -> In a l -> In b l -> key a = key b -> a = b.
Proof.
  induction l as [|x l IH]; simpl; [tauto|].
  intros N Ha Hb E. inversion N as [|? ? Hx N']; subst.
  destruct Ha as [->|Ha], Hb as [->|Hb]; auto.
  - exfalso. apply Hx. rewrite E. now apply in_map.
  - exfalso. apply Hx. rewrite <- E. now apply in_map.
Qed.

Lemma findById_sound (db : Db) (u cid : string) (c : Category) :
  findById db u cid = Some c ->
  In c (categories db) /\ visible u c = true /\ uuid_in cid = Some (cat_id c).
Proof.
  unfold findById, maybeSingle. destruct (uuid_in cid) as [key|]; [|discriminate].
  intros H. apply single_inv in H.
  assert (I : In c (filter (fun c => id_is key (cat_id c) && visible u c)
                           (categories db))) by (rewrite H; now left).
  apply filter_In in I. destruct I as (I & P).
  apply andb_true_iff in P. destruct P as (P1 & P2).
  unfold id_is in P1. apply String.eqb_eq in P1. now subst.
Qed.

Lemma findById_hidden (db : Db) (u cid : string) (c0 : Category) :
  NoDup (map cat_id (categories db)) ->
  In c0 (categories db) -> uuid_in cid = Some (cat_id c0) ->
  visible u c0 = false ->
  findById db u cid = None.
Proof.
  intros N I K V. destruct (findById db u cid) as [c|] eqn:F; [|reflexivity].
  apply findById_sound in F. destruct F as (Ic & Vc & Kc).
  rewrite K in Kc. inversion Kc as [E].
  assert (c0 = c) by (eapply same_key_same_row; eauto). subst.
  congruence.
Qed.

Lemma findByName_sound (db : Db) (u name : string) (c : Category) :
  findByName db u name = Some c ->
  In c (categories db) /\ visible u c = true /\ cat_name c = name.
Proof.
  unfold findByName, maybeSingle, limit. intros H. apply single_inv in H.
  set (p := fun c => String.eqb (cat_name c) name && visible u c) in *.
  assert (I : In c (filter p (categories db))).
  { destruct (filter p (categories db)) as [|x l]; simpl in H; [discriminate|].
    inversion H. now left. }
  apply filter_In in I. destruct I as (I & P). unfold p in P.
  apply andb_true_iff in P. destruct P as (P1 & P2).
  apply String.eqb_eq in P1. auto.
Qed.

Lemma insert_category_inv (db db' : Db) (c : Category) :
  insert_category db c = Some db' ->
  db' = with_categories db (categories db ++ [c]) /\
  (forall r, In r (categories db) -> cat_id r <> cat_id c).
Proof.
  unfold insert_category. destruct (category_conflict (categories db) c) eqn:E;
    [discriminate|].
  intros H; inversion H; subst; clear H. split; [reflexivity|].
  unfold category_conflict in E. apply orb_false_iff in E. destruct E as (E & _).
  intros r I Eq.
  assert (X : existsb (fun r => String.eqb (cat_id r) (cat_id c)) (categories db) = true).
  { apply existsb_exists. exists r. split; [assumption|]. now apply String.eqb_eq. }
  congruence.
Qed.

Lemma resolveCategoryId_cases
    (db : Db) (u : string) (ref nm : option string) (cr : bool) (new_id : string) :
  resolution db u new_id (resolveCategoryId db u ref nm cr new_id).
Proof.
  unfold resolveCategoryId.
  match goal with |- context [match ?b with Some _ => _ | None => _ end] =>
    destruct b as [c|] eqn:S1 end.
  { destruct (isUuid _); [|discriminate]. destruct ref as [cid|]; [|discriminate].
    apply findById_sound in S1. apply res_found; tauto. }
  clear S1.
  match goal with |- context [match ?b with Some _ => _ | None => _ end] =>
    destruct b as [c|] eqn:S2 end.
  { destruct nm as [name|]; [|discriminate].
    destruct (truthy name && _); [|discriminate].
    apply findByName_sound in S2. apply res_found; tauto. }
  clear S2.
  destruct cr; [|constructor].
  destruct (deriveName ref nm) as [d|]; [|constructor].
  destruct (truthy d); [|constructor].
  destruct (insert_category db (newCategory new_id u d)) as [db'|] eqn:I;
    [|constructor].
  now apply res_created.
Qed.

(** A call that finds nothing leaves the store as it was. *)
Lemma resolveCategoryId_none
    (db db1 : Db) (u : string) (ref nm : option string) (cr : bool)
    (new_id : string) :
  resolveCategoryId db u ref nm cr new_id = (None, db1) -> db1 = db.
Proof.
  intros H. pose proof (resolveCategoryId_cases db u ref nm cr new_id) as R.
  rewrite H in R. now inversion R.
Qed.

(** C3.  On a store whose category ids are unique, a category that
    [resolveCategoryId] returns is a row of the store, and every row under
    the returned id is owned by the caller or a system default.  A valid
    identifier of an existing category the caller may not see is not
    returned: the call behaves as the call without a reference, which
    resolves by name and then creates. *)
Theorem resolveCategoryId_ownership
    (db : Db) (u : string) (ref nm : option string) (cr : bool)
    (new_id : string) :
  NoDup (map cat_id (categories db)) ->
  (forall id name db',
     resolveCategoryId db u ref nm cr new_id = (Some (id, name), db') ->
     (exists c, In c (categories db') /\ cat_id c = id /\ cat_name c = name) /\
     (forall c, In c (categories db') -> cat_id c = id ->
                cat_user_id c = Some u \/ is_default c = true)) /\
  (forall cid c0,
     ref = Some cid -> isUuid ref = true ->
     In c0 (categories db) -> uuid_in cid = Some (cat_id c0) ->
     visible u c0 = false ->
     resolveCategoryId db u ref nm cr new_id =
       resolveCategoryId db u None nm cr new_id /\
     (forall id name db',
        resolveCategoryId db u ref nm cr new_id = (Some (id, name), db') ->
        id <> cat_id c0)).
Proof.
  intros N.
  assert (P1 : forall id name db',
     resolveCategoryId db u ref nm cr new_id = (Some (id, name), db') ->
     (exists c, In c (categories db') /\ cat_id c = id /\ cat_name c = name) /\
     (forall c, In c (categories db') -> cat_id c = id ->
                cat_user_id c = Some u \/ is_default c = true)).
  { intros id name db' H.
    pose proof (resolveCategoryId_cases db u ref nm cr new_id) as R.
    rewrite H in R. inversion R as [c I V | name' db'' Ins | ]; subst.
    - split; [now exists c|].
      intros c' I' E. apply visible_iff.
      now rewrite (same_key_same_row cat_id (categories db') c' c N I' I E).
    - apply insert_category_inv in Ins. destruct Ins as (-> & Fresh).
      simpl. split.
      + exists (newCategory id u name). split; [|now split].
        apply in_or_app. right. now left.
      + intros c I E. apply in_app_or in I. destruct I as [I|[<-|[]]].
        * now apply Fresh in I.
        * now left. }
  split; [exact P1|].
  intros cid c0 -> U I K V.
  assert (F : findById db u cid = None) by (eapply findById_hidden; eauto).
  assert (E : resolveCategoryId db u (Some cid) nm cr new_id =
              resolveCategoryId db u None nm cr new_id).
  { assert (D : deriveName (Some cid) nm = deriveName None nm).
    { unfold deriveName. rewrite U. now rewrite !andb_false_r. }
    unfold resolveCategoryId. rewrite F, U, D.
    now replace (isUuid (Some EmptyString)) with false by reflexivity. }
  split; [exact E|].
  intros id name db' H Eq. subst id.
  destruct (P1 _ _ _ H) as ((c & Ic & Idc & _) & Vis).
  pose proof (resolveCategoryId_cases db u (Some cid) nm cr new_id) as R.
  rewrite H in R. inversion R as [c1 I1 V1 | name' db'' Ins | ]; subst.
  - assert (c1 = c0) by (eapply same_key_same_row; eauto). subst. congruence.
  - apply insert_category_inv in Ins. destruct Ins as (_ & Fresh).
    now apply Fresh in I.
Qed.

Lemma db0_ids_unique : NoDup (map cat_id (categories db0)).
Proof.
  repeat constructor; simpl; intuition discriminate.
Defined.

Lemma resolveCategoryId_ownership_witness :
  resolveCategoryId db0 alice (Some (cat_id bobs_savings)) (Some "Savings") true fresh_id =
    resolveCategoryId db0 alice None (Some "Savings") true fresh_id /\
  (forall id name db',
     resolveCategoryId db0 alice (Some (cat_id bobs_savings)) (Some "Savings")
                       true fresh_id = (Some (id, name), db') ->
     id <> cat_id bobs_savings).
Proof.
  destruct (resolveCategoryId_ownership db0 alice (Some (cat_id bobs_savings))
              (Some "Savings") true fresh_id db0_ids_unique) as (_ & H).
  apply (H (cat_id bobs_savings) bobs_savings eq_refl eq_refl).
  - simpl. right. left. reflexivity.
  - reflexivity.
  - reflexivity.
Defined.

(** C4.  For an owner who owns no category named "Food Groceries", and an
    unused identifier generated by the store, resolving the reference
    "food-groceries" without a name and with creation allowed inserts the
    category "Food Groceries" owned by that owner, not a default, and
    returns its id and name. *)
Theorem resolveCategoryId_slug
    (db : Db) (u : string) (new_id : string) :
  (forall c, In c (categories db) -> cat_id c <> new_id) ->
  (forall c, In c (categories db) -> cat_user_id c = Some u ->
             cat_name c <> "Food Groceries") ->
  capitalize_words (hyphens_to_spaces "food-groceries") = "Food Groceries" /\
  resolveCategoryId db u (Some "food-groceries") None true new_id =
    (Some (new_id, "Food Groceries"),
     with_categories db
       (categories db ++
        [mkCategory new_id "Food Groceries" "#6B7280" "more-horizontal"
                    false (Some u)])).
Proof.
  intros Fresh Own. split; [reflexivity|].
  unfold resolveCategoryId.
  replace (isUuid (Some "food-groceries")) with false by reflexivity.
  replace (deriveName (Some "food-groceries") None)
    with (Some "Food Groceries") by reflexivity.
  cbv iota. change (truthy "Food Groceries") with true. cbv iota.
  unfold insert_category.
  assert (C : category_conflict (categories db)
                (newCategory new_id u "Food Groceries") = false).
  { unfold category_conflict. apply orb_false_iff. split.
    - apply not_true_iff_false. intros E. apply existsb_exists in E.
      destruct E as (r & I & E). apply String.eqb_eq in E.
      now apply (Fresh r I).
    - apply not_true_iff_false. intros E. apply existsb_exists in E.
      destruct E as (r & I & E). apply andb_true_iff in E.
      destruct E as (E1 & E2). apply String.eqb_eq in E1.
      simpl in E2. destruct (cat_user_id r) as [o|] eqn:O; [|discriminate].
      apply String.eqb_eq in E2. subst o.
      now apply (Own r I O). }
  rewrite C. reflexivity.
Qed.

Lemma resolveCategoryId_slug_witness :
  resolveCategoryId db0 alice (Some "food-groceries") None true fresh_id =
    (Some (fresh_id, "Food Groceries"),
     with_categories db0
       (categories db0 ++
        [mkCategory fresh_id "Food Groceries" "#6B7280" "more-horizontal"
                    false (Some alice)])).
Proof.
  apply (resolveCategoryId_slug db0 alice fresh_id).
  - simpl. intros c [<-|[<-|[<-|[]]]]; discriminate.
  - simpl. intros c [<-|[<-|[<-|[]]]] _; discriminate.
Defined.

(** The hypothesis on the owner's categories is needed: a second call with
    the same slug finds the name taken and resolves to nothing. *)
Example resolveCategoryId_slug_twice :
  let db1 := snd (resolveCategoryId db0 alice (Some "food-groceries") None true
                                    fresh_id) in
  resolveCategoryId db1 alice (Some "food-groceries") None true
                    "f0000000-0000-4000-8000-0000000000f2" = (None, db1).
Proof. reflexivity. Qed.

(** C5.  On a store without categories, resolving the whitespace-only name
    "   " without a reference and with creation allowed inserts a category
    named "   " and returns it, although the name is blank once trimmed and
    the lookup by name was skipped for that reason. *)
Theorem resolveCategoryId_blank_name_created :
  trim "   " = EmptyString /\
  deriveName None (Some "   ") = Some "   " /\
  resolveCategoryId (mkDb [] [] []) alice None (Some "   ") true fresh_id =
    (Some (fresh_id, "   "),
     mkDb [mkCategory fresh_id "   " "#6B7280" "more-horizontal" false
                      (Some alice)] [] []).
Proof.
  repeat split.
Qed.

(** The empty and the absent name are not created. *)
Lemma resolveCategoryId_empty_name
    (db : Db) (u : string) (ref nm : option string) (new_id : string) :
  isUuid (Some (match ref with Some s => s | None => EmptyString end)) = false ->
  match deriveName ref nm with Some d => truthy d = false | None => True end ->
  resolveCategoryId db u ref nm true new_id = (None, db).
Proof.
  intros U D. unfold resolveCategoryId. rewrite U.
  assert (N : match nm with
              | Some name =>
                  if truthy name && (0 <? String.length (trim name))%nat
                  then findByName db u name else None
              | None => None
              end = None).
  { destruct nm as [n|]; [|reflexivity].
    destruct (truthy n && (0 <? String.length (trim n))%nat) eqn:T; [|reflexivity].
    exfalso. apply andb_true_iff in T. destruct T as (T1 & T2).
    unfold deriveName in D. rewrite T1 in D.
    apply Nat.ltb_lt in T2.
    destruct (String.length (trim n)) eqn:L; [lia|].
    simpl in D. destruct ref as [cid|]; simpl in D; congruence. }
  rewrite N. destruct (deriveName ref nm) as [d|]; [|reflexivity].
  now rewrite D.
Qed.

(** C6.  When an update names a category and the resolution of that
    reference finds and creates nothing, [updateTransaction] fails and the
    store, hence every stored field of every transaction, is as before. *)
Theorem updateTransaction_unresolved
    (isoMonth date_in : string -> option string)
    (db : Db) (u tid : string) (updates : TransactionUpdates) (new_id : string) :
  truthy_opt (upd_category_id updates) || truthy_opt (upd_category_name updates)
    = true ->
  fst (resolveCategoryId db u (upd_category_id updates)
                         (upd_category_name updates) true new_id) = None ->
  exists e,
    updateTransaction isoMonth date_in db u tid updates new_id = (Err e, db) /\
    (statusCode e = 404 \/ statusCode e = 500 \/ statusCode e = 400)%nat.
Proof.
  intros Given Unres. unfold updateTransaction.
  destruct (single (filter (tx_selected u tid) (transactions db))) as [existing|].
  2:{ eexists; split; [reflexivity|]. now left. }
  match goal with |- context [match ?d with Some _ => _ | None => _ end] =>
    destruct d as [[newDate mon]|] end.
  2:{ eexists; split; [reflexivity|]. right; now left. }
  rewrite Given.
  destruct (resolveCategoryId db u (upd_category_id updates)
              (upd_category_name updates) true new_id) as [[r|] db1];
    simpl in Unres; [discriminate|].
  eexists; split; [reflexivity|]. right; now right.
Qed.

Lemma updateTransaction_unresolved_witness :
  exists e,
    updateTransaction (fun d => Some (substring 0 7 d)) plain_date db0 alice
                      (tx_id alices_kibble) to_bobs_category fresh_id
    = (Err e, db0) /\
    (statusCode e = 404 \/ statusCode e = 500 \/ statusCode e = 400)%nat.
Proof.
  apply (updateTransaction_unresolved (fun d => Some (substring 0 7 d))
           plain_date db0 alice (tx_id alices_kibble) to_bobs_category
           fresh_id).
  - reflexivity.
  - reflexivity.
Defined.

Example updateTransaction_rejected :
  updateTransaction (fun d => Some (substring 0 7 d)) plain_date db0 alice
                    (tx_id alices_kibble) to_bobs_category fresh_id
  = (Err (createError
            "Unknown category. Provide a valid category_id or category_name."
            400), db0).
Proof. reflexivity. Qed.

Lemma goal_key_iff (u m : string) (g : MonthlyGoal) :
  goal_key u m g = true <-> goal_owner_month g = (u, m).
Proof.
  unfold goal_key, goal_owner_month.
  rewrite andb_true_iff, !String.eqb_eq. split.
  - now intros (-> & ->).
  - intros H; now inversion H.
Qed.

Section Replace.
Variables (u m : string) (put : MonthlyGoal -> MonthlyGoal).
Hypothesis put_key : forall g, goal_owner_month (put g) = (u, m).

Lemma upd_owner_month (l : list MonthlyGoal) :
  map goal_owner_month
      (map (fun g => if goal_key u m g then put g else g) l) =
  map goal_owner_month l.
Proof.
  induction l as [|g l IH]; simpl; [reflexivity|]. rewrite IH. f_equal.
  destruct (goal_key u m g) eqn:K; [|reflexivity].
  apply goal_key_iff in K. now rewrite put_key.
Qed.



End Replace.




Lemma db0_goals_unique : goals_unique db0.
Proof.
  repeat constructor; simpl; intuition discriminate.
Defined.



(** C10, as the code has it.  [deleteCategory] removes categories only
    among the rows that carry the supplied id, are owned by the caller and
    are not defaults; defaults and the categories of other accounts stay,
    whatever the id.  When the store can read the id as a uuid the call
    succeeds, also when no row is selected; when it cannot, the call fails
    with status 500 and the store is as before.  A transaction goes only
    with its category. *)
Theorem deleteCategory_scope (db : Db) (u categoryId : string) :
  let after := snd (deleteCategory db u categoryId) in
  (forall c, In c (categories after) -> In c (categories db)) /\
  (forall c, In c (categories db) -> ~ In c (categories after) ->
     uuid_in categoryId = Some (cat_id c) /\
     cat_user_id c = Some u /\ is_default c = false) /\
  (forall c, In c (categories db) ->
     is_default c = true \/ cat_user_id c <> Some u ->
     In c (categories after)) /\
  (forall t, In t (transactions db) -> ~ In t (transactions after) ->
     exists c, In c (categories db) /\ ~ In c (categories after) /\
               cat_id c = category_id t) /\
  (forall key, uuid_in categoryId = Some key ->
     fst (deleteCategory db u categoryId) = Ok tt) /\
  (uuid_in categoryId = None ->
     deleteCategory db u categoryId =
       (Err (createError "Failed to delete category" 500), db)).
Proof.
  unfold deleteCategory. destruct (uuid_in categoryId) as [key|]; cbn [snd fst].
  - assert (Sel : forall c, delete_selected u key c = true <->
                    key = cat_id c /\ cat_user_id c = Some u /\ is_default c = false).
    { intros c. unfold delete_selected, id_is, opt_eqb.
      rewrite !andb_true_iff, String.eqb_eq, Bool.eqb_true_iff.
      destruct (cat_user_id c) as [o|].
      - rewrite String.eqb_eq. split.
        + intros ((-> & ->) & ->). auto.
        + intros (-> & E & ->). inversion E. auto.
      - split; [intros ((_ & E) & _); discriminate | intros (_ & E & _); discriminate]. }
    simpl. split; [|split; [|split; [|split; [|split]]]].
    + intros c I. now apply filter_In in I.
    + intros c I N. destruct (delete_selected u key c) eqn:D.
      * apply Sel in D. destruct D as (-> & D). now split.
      * exfalso. apply N. apply filter_In. now rewrite D.
    + intros c I H. apply filter_In. split; [assumption|].
      destruct (delete_selected u key c) eqn:D; [|reflexivity].
      apply Sel in D. destruct D as (_ & O & F).
      destruct H as [H|H]; congruence.
    + intros t I N.
      destruct (existsb (fun c => String.eqb (cat_id c) (category_id t))
                  (filter (delete_selected u key) (categories db))) eqn:X.
      * apply existsb_exists in X. destruct X as (c & Ic & E).
        apply String.eqb_eq in E. apply filter_In in Ic.
        destruct Ic as (Ic & D). exists c. split; [assumption|].
        split; [|assumption]. intros I'. apply filter_In in I'.
        destruct I' as (_ & D'). rewrite D in D'. discriminate.
      * exfalso. apply N. apply filter_In. now rewrite X.
    + reflexivity.
    + intros; discriminate.
  - simpl. split; [|split; [|split; [|split; [|split]]]]; auto.
    + intros c I N. contradiction.
    + intros t I N. contradiction.
    + intros; discriminate.
Qed.

Lemma deleteCategory_scope_witness :
  In utilities (categories (snd (deleteCategory db0 alice (cat_id utilities)))) /\
  In bobs_savings
     (categories (snd (deleteCategory db0 alice (cat_id bobs_savings)))) /\
  fst (deleteCategory db0 alice fresh_id) = Ok tt.
Proof.
  split; [|split].
  - apply (deleteCategory_scope db0 alice (cat_id utilities)).
    + simpl. now left.
    + now left.
  - apply (deleteCategory_scope db0 alice (cat_id bobs_savings)).
    + simpl. right. now left.
    + right. discriminate.
  - apply (deleteCategory_scope db0 alice fresh_id) with (key := fresh_id).
    reflexivity.
Defined.

(** C10 as stated fails: the slug "food-groceries" is the id of no row,
    and the delete does not report success. *)
Lemma deleteCategory_reports_failure :
  (forall c, In c (categories db0) -> cat_id c <> "food-groceries") /\
  deleteCategory db0 alice "food-groceries" =
    (Err (createError "Failed to delete category" 500), db0) /\
  fst (deleteCategory db0 alice "food-groceries") <> Ok tt.
Proof.
  split; [|split].
  - simpl. intros c [<-|[<-|[<-|[]]]]; discriminate.
  - reflexivity.
  - discriminate.
Qed.

(* ================================================================== *)
(** * Order of the entries of the aggregation *)

Section Before.
Context {A : Type}.
Implicit Types (l : list A) (a b x : A).

Lemma before_short l a b : (List.length l < 2)%nat -> ~ before l a b.
Proof.
  intros L (l1 & l2 & l3 & E). apply (f_equal (@List.length _)) in E.
  rewrite length_app in E. simpl in E. rewrite length_app in E. simpl in E.
  lia.
Qed.

Lemma before_cons l a b x : before l a b -> before (x :: l) a b.
Proof.
  intros (l1 & l2 & l3 & ->). now exists (x :: l1), l2, l3.
Qed.

Lemma before_head l a b : In b l -> before (a :: l) a b.
Proof.
  intros I. apply in_split in I. destruct I as (l2 & l3 & ->).
  now exists [], l2, l3.
Qed.

Lemma before_cons_inv l a b x :
  before (x :: l) a b -> (a = x /\ In b l) \/ before l a b.
Proof.
  intros (l1 & l2 & l3 & E). destruct l1 as [|y l1]; simpl in E.
  - inversion E; subst. left. split; [reflexivity|].
    apply in_or_app. right. now left.
  - inversion E; subst. right. now exists l1, l2, l3.
Qed.

Lemma before_In l a b : before l a b -> In a l /\ In b l.
Proof.
  intros (l1 & l2 & l3 & ->). split.
  - apply in_or_app. right. now left.
  - apply in_or_app. right. right. apply in_or_app. right. now left.
Qed.

Lemma before_app_inv l l' a b :
  before (l ++ l') a b ->
  before l a b \/ (In a l /\ In b l') \/ before l' a b.
Proof.
  induction l as [|x l IH]; simpl; intros H.
  - now right; right.
  - apply before_cons_inv in H. destruct H as [(-> & I)|H].
    + apply in_app_or in I. destruct I as [I|I].
      * left. now apply before_head.
      * right; left. split; [now left | assumption].
    + destruct (IH H) as [B|[(I1 & I2)|B]].
      * left. now apply before_cons.
      * right; left. split; [now right | assumption].
      * now right; right.
Qed.

Lemma before_app_r l l' a b : before l a b -> before (l ++ l') a b.
Proof.
  intros (l1 & l2 & l3 & ->). exists l1, l2, (l3 ++ l').
  now rewrite <- !app_assoc, <- !app_comm_cons, <- app_assoc.
Qed.

Lemma before_firstn n l a b : before (firstn n l) a b -> before l a b.
Proof.
  intros H. rewrite <- (firstn_skipn n l). now apply before_app_r.
Qed.

Lemma before_filter (p : A -> bool) l a b :
  before (filter p l) a b -> before l a b.
Proof.
  induction l as [|x l IH]; simpl; intros H.
  - apply before_short in H; [contradiction | simpl; lia].
  - destruct (p x).
    + apply before_cons_inv in H. destruct H as [(-> & I)|H].
      * apply before_head. now apply filter_In in I.
      * apply before_cons. auto.
    + apply before_cons. auto.
Qed.

Lemma before_nth l i j a b :
  (i < j)%nat -> nth_error l i = Some a -> nth_error l j = Some b ->
  before l a b.
Proof.
  revert i j. induction l as [|x l IH]; intros i j L Ha Hb.
  - destruct i; discriminate.
  - destruct j as [|j]; [lia|]. simpl in Hb. destruct i as [|i]; simpl in Ha.
    + inversion Ha; subst. apply before_head. eapply nth_error_In; eauto.
    + apply before_cons. apply (IH i j); auto. lia.
Qed.

Lemma before_NoDup l a b : NoDup l -> before l a b -> a <> b.
Proof.
  intros N (l1 & l2 & l3 & ->) ->.
  apply NoDup_remove_2 in N. apply N.
  apply in_or_app. right. apply in_or_app. right. now left.
Qed.

End Before.

Lemma before_map {A B : Type} (f : A -> B) (l : list A) (a b : A) :
  before l a b -> before (map f l) (f a) (f b).
Proof.
  intros (l1 & l2 & l3 & ->). exists (map f l1), (map f l2), (map f l3).
  now rewrite map_app, map_cons, map_app, map_cons.
Qed.

Lemma before_map_inv {A B : Type} (f : A -> B) (l : list A) (x y : B) :
  before (map f l) x y ->
  exists a b, x = f a /\ y = f b /\ before l a b.
Proof.
  induction l as [|c l IH]; simpl; intros H.
  - apply before_short in H; [contradiction | simpl; lia].
  - apply before_cons_inv in H. destruct H as [(-> & I)|H].
    + apply in_map_iff in I. destruct I as (b & <- & I).
      exists c, b. repeat split. now apply before_head.
    + destruct (IH H) as (a & b & -> & -> & Hab).
      exists a, b. repeat split. now apply before_cons.
Qed.

(** ** The stable sort *)

Section Stable.
Context {A : Type} (comparefn : A -> A -> jsval).

Lemma insert_In (x : A) (l : list A) (a : A) :
  In a (insert comparefn x l) <-> a = x \/ In a l.
Proof.
  induction l as [|y l IH]; simpl.
  - intuition.
  - destruct (precedes comparefn y x); simpl; rewrite ?IH; intuition.
Qed.

Lemma sort_In (l : list A) (a : A) : In a (sort comparefn l) <-> In a l.
Proof.
  induction l as [|x l IH]; simpl; [tauto|].
  rewrite insert_In, IH. intuition.
Qed.

Lemma sort_length (l : list A) :
  List.length (sort comparefn l) = List.length l.
Proof.
  induction l as [|x l IH]; simpl; [reflexivity|]. rewrite <- IH.
  generalize (sort comparefn l). intros s.
  induction s as [|y s IHs]; simpl; [reflexivity|].
  destruct (precedes comparefn y x); simpl; auto.
Qed.

(** An element inserted lands behind those that must precede it and in
    front of all others. *)
Lemma insert_before (x : A) (l : list A) (a b : A) :
  before (insert comparefn x l) a b ->
  (a = x /\ In b l) \/
  (b = x /\ In a l /\ precedes comparefn a x = true) \/
  before l a b.
Proof.
  induction l as [|y l IH]; simpl; intros H.
  - apply before_short in H; [contradiction | simpl; lia].
  - destruct (precedes comparefn y x) eqn:P.
    + apply before_cons_inv in H. destruct H as [(-> & I)|H].
      * apply insert_In in I. destruct I as [->|I].
        -- right; left. repeat split; simpl; auto.
        -- right; right. now apply before_head.
      * destruct (IH H) as [(-> & I)|[(-> & I & Q)|B]].
        -- left. split; [reflexivity | now right].
        -- right; left. repeat split; simpl; auto.
        -- right; right. now apply before_cons.
    + apply before_cons_inv in H. destruct H as [(-> & I)|H].
      * now left.
      * now right; right.
Qed.

(** Stability: two elements neither of which must precede the other keep
    their order. *)
Lemma sort_stable (l : list A) (a b : A) :
  precedes comparefn a b = false ->
  before (sort comparefn l) a b -> before l a b.
Proof.
  intros P. induction l as [|x l IH]; simpl; intros H.
  - apply before_short in H; [contradiction | simpl; lia].
  - apply insert_before in H. destruct H as [(-> & I)|[(-> & I & Q)|B]].
    + apply before_head. now apply (proj1 (sort_In _ _)) in I.
    + congruence.
    + apply before_cons. auto.
Qed.

End Stable.


(** ** Own properties *)

Lemma own_None (o : obj) (k : string) :
  own o k = None <-> ~ In k (map fst o).
Proof.
  induction o as [|[k' v] o IH]; simpl; [tauto|].
  destruct (String.eqb k' k) eqn:E.
  - apply String.eqb_eq in E. split; [discriminate | tauto].
  - apply String.eqb_neq in E. rewrite IH. tauto.
Qed.

Lemma own_In (o : obj) (k : string) (v : jsval) :
  own o k = Some v -> In (k, v) o.
Proof.
  induction o as [|[k' v'] o IH]; simpl; [discriminate|].
  destruct (String.eqb k' k) eqn:E.
  - apply String.eqb_eq in E. intros H; inversion H; subst. now left.
  - auto.
Qed.

Lemma In_own (o : obj) (k : string) (v : jsval) :
  NoDup (map fst o) -> In (k, v) o -> own o k = Some v.
Proof.
  induction o as [|[k' v'] o IH]; simpl; [tauto|].
  intros N I. inversion N as [|? ? Hk N']; subst.
  destruct I as [I|I].
  - inversion I; subst. now rewrite String.eqb_refl.
  - destruct (String.eqb k' k) eqn:E; auto.
    apply String.eqb_eq in E. subst. exfalso. apply Hk.
    change k with (fst (k, v)). now apply in_map.
Qed.

Lemma put_absent (o : obj) (k : string) (v : jsval) :
  own o k = None -> put o k v = o ++ [(k, v)].
Proof.
  induction o as [|[k' v'] o IH]; simpl; [reflexivity|].
  destruct (String.eqb k' k); [discriminate|]. intros H. now rewrite IH.
Qed.

Lemma put_present_keys (o : obj) (k : string) (v v0 : jsval) :
  own o k = Some v0 -> map fst (put o k v) = map fst o.
Proof.
  induction o as [|[k' v'] o IH]; simpl; [discriminate|].
  destruct (String.eqb k' k); simpl; [reflexivity|].
  intros H. now rewrite IH.
Qed.

Lemma own_put (o : obj) (k k' : string) (v : jsval) :
  own (put o k v) k' = if String.eqb k k' then Some v else own o k'.
Proof.
  induction o as [|[k0 v0] o IH]; simpl.
  - reflexivity.
  - destruct (String.eqb k0 k) eqn:E; simpl.
    + apply String.eqb_eq in E. subst. now destruct (String.eqb k k').
    + rewrite IH. destruct (String.eqb k0 k') eqn:E'; [|reflexivity].
      apply String.eqb_eq in E'. subst. now rewrite String.eqb_sym, E.
Qed.

(** ** Groups *)

Lemma first_seen_before_snoc (ts : list Transaction) (t : Transaction)
    (a b : string) :
  first_seen_before ts a b -> first_seen_before (ts ++ [t]) a b.
Proof.
  intros (ts1 & ts2 & -> & Ha & Hb). exists ts1, (ts2 ++ [t]).
  now rewrite app_assoc.
Qed.

(** ** The accumulator *)

Lemma categoryTotals_snoc (ts : list Transaction) (t : Transaction) :
  categoryTotals (ts ++ [t]) = add_transaction (categoryTotals ts) t.
Proof.
  unfold categoryTotals. now rewrite fold_left_app.
Qed.

(** With plain names the accumulator holds one entry per name, a number,
    in the order of first use. *)
Lemma categoryTotals_plain (ts : list Transaction) :
  plain_names ts ->
  NoDup (map fst (categoryTotals ts)) /\
  (forall k, In k (map fst (categoryTotals ts)) <-> In k (names ts)) /\
  (forall k v, own (categoryTotals ts) k = Some v -> exists x, v = VNum x) /\
  (forall a b, before (map fst (categoryTotals ts)) a b ->
     first_seen_before ts a b).
Proof.
  induction ts as [|t ts IH] using rev_ind; intros P.
  - simpl. split; [constructor|]. split; [tauto|]. split.
    + discriminate.
    + intros a b H. apply before_short in H; [contradiction | simpl; lia].
  - assert (P' : plain_names ts).
    { intros x I. apply P. apply in_or_app. now left. }
    destruct (IH P') as (N & M & V & O). clear IH.
    assert (Pt : inherited (category_name t) = false).
    { apply P. apply in_or_app. right. now left. }
    rewrite categoryTotals_snoc. unfold add_transaction, set.
    set (acc := categoryTotals ts) in *. set (k := category_name t) in *.
    assert (Kp : String.eqb k "__proto__" = false).
    { destruct (String.eqb k "__proto__") eqn:E; [|reflexivity].
      apply String.eqb_eq in E. rewrite E in Pt. discriminate. }
    rewrite Kp. unfold names. rewrite map_app. simpl. fold (names ts). fold k.
    unfold get. destruct (own acc k) as [v|] eqn:Ow.
    + destruct (V k v Ow) as (q & ->).
      set (q' := plus (or_else (VNum q) (VNum zero)) (amount t)).
      assert (Q' : exists r, q' = VNum r).
      { unfold q', or_else, toBoolean.
        destruct (truthy_number q); simpl; eauto. }
      destruct Q' as (r & ->).
      rewrite (put_present_keys acc k (VNum r) (VNum q) Ow).
      assert (Ik : In k (names ts)).
      { apply M. change k with (fst (k, VNum q)). apply in_map.
        now apply own_In. }
      split; [exact N|]. split; [|split].
      * intros k'. rewrite M, in_app_iff. simpl. intuition. now subst.
      * intros k' v'. rewrite own_put.
        destruct (String.eqb k k') eqn:E.
        -- intros H; inversion H; subst. eauto.
        -- intros H. exact (V k' v' H).
      * intros a b B. apply first_seen_before_snoc. auto.
    + rewrite Pt. unfold or_else, toBoolean, plus.
      rewrite (put_absent acc k _ Ow).
      assert (Nk : ~ In k (names ts)).
      { rewrite <- M. now apply own_None. }
      rewrite map_app. simpl.
      split; [|split; [|split]].
      * apply (Permutation_NoDup (Permutation_cons_append _ _)).
        constructor; [now apply own_None | exact N].
      * intros k'. rewrite !in_app_iff, M. tauto.
      * intros k' v'. rewrite <- (put_absent acc k _ Ow), own_put.
        destruct (String.eqb k k') eqn:E.
        -- intros H; inversion H; subst. eauto.
        -- intros H. exact (V k' v' H).
      * intros a b B. apply before_app_inv in B.
        destruct B as [B|[(Ia & Ib)|B]].
        -- apply first_seen_before_snoc. auto.
        -- destruct Ib as [<-|[]]. exists ts, [t]. repeat split.
           ++ now apply M.
           ++ exact Nk.
        -- apply before_short in B; [contradiction | simpl; lia].
Qed.

(** ** [Object.entries] *)

Lemma array_index_text (k : string) (n : N) :
  array_index k = Some n -> k = NilZero.string_of_uint (N.to_uint n).
Proof.
  unfold array_index. destruct (NilZero.uint_of_string k) as [d|]; [|discriminate].
  destruct ((N.of_uint d <=? 4294967294)%N &&
            String.eqb (NilZero.string_of_uint (N.to_uint (N.of_uint d))) k)
    eqn:E; [|discriminate].
  intros H; inversion H; subst. apply andb_true_iff in E.
  destruct E as (_ & E). apply String.eqb_eq in E. now symmetry.
Qed.

Lemma is_index_true (k : string) :
  is_index k = true -> array_index k = Some (index_of k).
Proof.
  unfold is_index, index_of. now destruct (array_index k).
Qed.

Lemma is_index_false (k : string) :
  is_index k = false -> array_index k = None.
Proof.
  unfold is_index. now destruct (array_index k).
Qed.

Lemma insert_index_perm (e : string * jsval) (l : list (string * jsval)) :
  Permutation (insert_index e l) (e :: l).
Proof.
  induction l as [|x l IH]; simpl; [reflexivity|].
  destruct (index_of (fst e) <=? index_of (fst x))%N; [reflexivity|].
  rewrite IH. apply perm_swap.
Qed.

Lemma sort_index_perm (l : list (string * jsval)) :
  Permutation (sort_index l) l.
Proof.
  induction l as [|x l IH]; simpl; [reflexivity|].
  rewrite insert_index_perm. now constructor.
Qed.

Lemma insert_index_sorted (e : string * jsval) (l : list (string * jsval)) :
  StronglySorted index_le l -> StronglySorted index_le (insert_index e l).
Proof.
  induction l as [|x l IH]; simpl; intros S.
  - repeat constructor.
  - destruct (index_of (fst e) <=? index_of (fst x))%N eqn:E.
    + apply N.leb_le in E. constructor; [assumption|].
      constructor; [exact E|].
      inversion S as [|? ? S' F]; subst.
      eapply Forall_impl; [|exact F]. unfold index_le. intros; lia.
    + apply N.leb_gt in E. inversion S as [|? ? S' F]; subst.
      constructor; [auto|].
      eapply Permutation_Forall; [apply Permutation_sym, insert_index_perm|].
      constructor; [unfold index_le; lia | assumption].
Qed.

Lemma sort_index_sorted (l : list (string * jsval)) :
  StronglySorted index_le (sort_index l).
Proof.
  induction l as [|x l IH]; simpl; [constructor|].
  now apply insert_index_sorted.
Qed.

Lemma sorted_before {A : Type} (R : A -> A -> Prop) (l : list A) (a b : A) :
  StronglySorted R l -> before l a b -> R a b.
Proof.
  induction l as [|x l IH]; intros S B.
  - apply before_short in B; [contradiction | simpl; lia].
  - inversion S as [|? ? S' F]; subst.
    apply before_cons_inv in B. destruct B as [(-> & I)|B]; auto.
    rewrite Forall_forall in F. auto.
Qed.

Lemma NoDup_keys_filter (p : string * jsval -> bool) (o : obj) :
  NoDup (map fst o) -> NoDup (map fst (filter p o)).
Proof.
  induction o as [|x o IH]; simpl; intros N; [constructor|].
  inversion N as [|? ? H N']; subst.
  destruct (p x); simpl; auto. constructor; auto.
  intros I. apply H. apply in_map_iff in I. destruct I as (y & E & I).
  apply filter_In in I. rewrite <- E. apply in_map. tauto.
Qed.

Lemma entries_perm (o : obj) : Permutation (entries o) o.
Proof.
  unfold entries. rewrite sort_index_perm.
  induction o as [|x o IH]; simpl; [reflexivity|].
  destruct (is_index (fst x)); simpl.
  - now constructor.
  - rewrite <- Permutation_middle. now constructor.
Qed.

(** The entries of an object with distinct own names come in [key_order]
    when the other names were created in order of first use. *)
Lemma entries_key_order (ts : list Transaction) (o : obj)
    (x y : string * jsval) :
  NoDup (map fst o) ->
  (forall a b, before (map fst o) a b -> first_seen_before ts a b) ->
  before (entries o) x y -> key_order ts (fst x) (fst y).
Proof.
  intros N O B. unfold entries in B. apply before_app_inv in B.
  unfold key_order.
  assert (Idx : forall e, In e (sort_index (filter (fun e => is_index (fst e)) o)) ->
                          array_index (fst e) = Some (index_of (fst e))).
  { intros e I. apply (Permutation_in _ (sort_index_perm _)) in I.
    apply filter_In in I. now apply is_index_true. }
  assert (Oth : forall e, In e (filter (fun e => negb (is_index (fst e))) o) ->
                          array_index (fst e) = None).
  { intros e I. apply filter_In in I. destruct I as (_ & I).
    apply negb_true_iff in I. now apply is_index_false. }
  destruct B as [B|[(Ix & Iy)|B]].
  - pose proof (before_In _ _ _ B) as (Ix & Iy).
    rewrite (Idx x Ix), (Idx y Iy).
    pose proof (sorted_before index_le _ x y (sort_index_sorted _) B) as L.
    unfold index_le in L.
    assert (D : fst x <> fst y).
    { apply (before_NoDup (map fst (sort_index
                 (filter (fun e => is_index (fst e)) o)))).
      - apply (Permutation_NoDup
                 (Permutation_map fst (Permutation_sym (sort_index_perm _)))).
        now apply NoDup_keys_filter.
      - now apply before_map. }
    assert (index_of (fst x) <> index_of (fst y)).
    { intros E. apply D.
      rewrite (array_index_text _ _ (Idx x Ix)),
              (array_index_text _ _ (Idx y Iy)).
      now rewrite E. }
    lia.
  - now rewrite (Idx x Ix), (Oth y Iy).
  - pose proof (before_In _ _ _ B) as (Ix & Iy).
    rewrite (Oth x Ix), (Oth y Iy).
    apply O. apply before_map. eapply before_filter; eauto.
Qed.

(** ** Entries of the dashboard *)

Lemma byAmountDesc_ties (a b : TopCategory) (q1 q2 : number) :
  top_amount a = VNum q1 -> top_amount b = VNum q2 -> same q1 q2 = true ->
  precedes byAmountDesc a b = false.
Proof.
  intros A B E. unfold precedes, byAmountDesc, minus. rewrite A, B.
  now apply sub_same.
Qed.
(* ================================================================== *)
(** * The top categories *)

Lemma sort_perm {A : Type} (comparefn : A -> A -> jsval) (l : list A) :
  Permutation (sort comparefn l) l.
Proof.
  induction l as [|x l IH]; simpl; [reflexivity|].
  transitivity (x :: sort comparefn l); [|now constructor].
  generalize (sort comparefn l). intros s.
  induction s as [|y s IHs]; simpl; [reflexivity|].
  destruct (precedes comparefn y x); [|reflexivity].
  rewrite IHs. apply perm_swap.
Qed.

(** The entries the dashboard sorts, for plain names: one per category
    name, carrying a number and its share of the total. *)
Lemma toTop_entries_plain (ts : list Transaction) :
  plain_names ts ->
  NoDup (map top_category_name (map (toTop ts) (entries (categoryTotals ts)))) /\
  (forall k, In k (names ts) <->
     exists e, In e (map (toTop ts) (entries (categoryTotals ts))) /\
               top_category_name e = k) /\
  (forall e, In e (map (toTop ts) (entries (categoryTotals ts))) ->
     exists x,
       top_amount e = VNum x /\
       percentage e =
         VNum (if gt (totalExpenses ts) zero
               then mul (div x (totalExpenses ts)) (num 100) else zero)).
Proof.
  intros P. destruct (categoryTotals_plain ts P) as (N & M & V & _).
  pose proof (entries_perm (categoryTotals ts)) as Pe.
  assert (Keys : map top_category_name
                   (map (toTop ts) (entries (categoryTotals ts))) =
                 map fst (entries (categoryTotals ts))).
  { rewrite map_map. apply map_ext. reflexivity. }
  split; [|split].
  - rewrite Keys.
    apply (Permutation_NoDup (Permutation_map fst (Permutation_sym Pe)) N).
  - intros k. rewrite <- M. split.
    + intros I. apply in_map_iff in I. destruct I as (x & <- & I).
      exists (toTop ts x). split; [|reflexivity].
      apply in_map. now apply (Permutation_in _ (Permutation_sym Pe)).
    + intros (e & I & <-). apply in_map_iff in I. destruct I as (x & <- & I).
      simpl. apply in_map. now apply (Permutation_in _ Pe).
  - intros e I. apply in_map_iff in I. destruct I as ((k & v) & <- & I).
    apply (Permutation_in _ Pe) in I. apply (In_own _ _ _ N) in I.
    destruct (V k v I) as (x & ->).
    unfold toTop. simpl. exists x. split; [reflexivity|].
    now destruct (gt (totalExpenses ts) zero).
Qed.

(** For plain names [topCategories] has at most five entries, no name
    twice, every entry a category name of the transactions with a number
    and its share of the total, and every category name has its entry
    unless five others have theirs. *)
Lemma topCategories_plain (ts : list Transaction) :
  plain_names ts ->
  (forall e, In e (topCategories ts) ->
     In (top_category_name e) (names ts) /\
     exists x,
       top_amount e = VNum x /\
       percentage e =
         VNum (if gt (totalExpenses ts) zero
               then mul (div x (totalExpenses ts)) (num 100) else zero)) /\
  NoDup (map top_category_name (topCategories ts)) /\
  (List.length (topCategories ts) <= 5)%nat /\
  (forall k, In k (names ts) ->
     (exists e, In e (topCategories ts) /\ top_category_name e = k) \/
     List.length (topCategories ts) = 5%nat).
Proof.
  intros P. destruct (toTop_entries_plain ts P) as (N & M & V).
  unfold topCategories, slice0.
  set (L := map (toTop ts) (entries (categoryTotals ts))) in *.
  set (S := sort byAmountDesc L).
  assert (InS : forall e, In e S <-> In e L) by (intros e; apply sort_In).
  assert (Sub : forall e, In e (firstn 5 S) -> In e L).
  { intros e I. apply InS. rewrite <- (firstn_skipn 5 S).
    apply in_or_app. now left. }
  split; [|split; [|split]].
  - intros e I. split; [|now apply V, Sub].
    apply M. exists e. split; [now apply Sub | reflexivity].
  - assert (NS : NoDup (map top_category_name S)).
    { apply (Permutation_NoDup
               (Permutation_map _ (Permutation_sym (sort_perm byAmountDesc L)))).
      exact N. }
    rewrite <- (firstn_skipn 5 S), map_app in NS.
    now apply NoDup_app_remove_r in NS.
  - apply firstn_le_length.
  - intros k I. apply M in I. destruct I as (e & I & <-).
    apply InS in I. rewrite <- (firstn_skipn 5 S) in I.
    apply in_app_or in I. destruct I as [I|I]; [left; eauto|].
    right. rewrite length_firstn. apply Nat.min_l.
    destruct (Nat.le_gt_cases 5 (List.length S)) as [H|H]; [exact H|].
    rewrite skipn_all2 in I by lia. contradiction.
Qed.
(** The example of the specification: sums A:30, B:50, C:20, D:10, E:5 and
    F:40 give B, F, A, C, D. *)
Example topCategories_six_groups :
  map (fun e => (top_category_name e, top_amount e)) (topCategories six_groups) =
  [("B", VNum (num 50)); ("F", VNum (num 40)); ("A", VNum (num 30));
   ("C", VNum (num 20)); ("D", VNum (num 10))].
Proof. vm_compute. reflexivity. Qed.

(** C1 fails on the code for a category named "__proto__": the assignment
    to that property of the accumulator is ignored, so the group of 50, the
    largest, is in neither [categoryTotals] nor [topCategories] although its
    amount is part of [totalExpenses]. *)
Theorem topCategories_drops_proto_group :
  totalExpenses with_proto = num 80 /\
  group_sum "__proto__" with_proto = num 50 /\
  categoryTotals with_proto = [("Food", VNum (num 30))] /\
  map top_category_name (topCategories with_proto) = ["Food"] /\
  map top_category_name
      (sum_topCategories (getDashboardSummary None with_proto)) = ["Food"] /\
  sum_totalExpenses (getDashboardSummary None with_proto) = num 80 /\
  categoryTotals [spend "__proto__" (num 50)] = [] /\
  topCategories [spend "__proto__" (num 50)] = [].
Proof.
  repeat split; vm_compute; reflexivity.
Qed.

(** The order is by the sums as the code computes them: the amounts 0.3,
    0.2, 0.1 of B add up to 0.6 and the amounts 0.1, 0.2, 0.3 of A to
    0.6000000000000001, so A stands first although B is met first. *)
Example topCategories_rounded_sums :
  map top_category_name (topCategories rounded_groups) = ["A"; "B"] /\
  group_sum "A" rounded_groups = S754_finite false 5404319552844596 (-53) /\
  group_sum "B" rounded_groups = S754_finite false 5404319552844595 (-53) /\
  first_seen_before rounded_groups "B" "A".
Proof.
  split; [vm_compute; reflexivity|].
  split; [vm_compute; reflexivity|].
  split; [vm_compute; reflexivity|].
  exists [spend "B" (dec 3 1)], (tl rounded_groups). repeat split.
  - now left.
  - intros [H|[]]. vm_compute in H. discriminate.
Qed.

(** C9, as the code has it.  [topCategories] is a function of the
    transaction sequence.  For category names that are not property names
    of [Object.prototype] and finite sums, two groups whose sums, as the
    code adds them up, are equal numbers stand in the order of
    [Object.entries]: names that are array indices first, by ascending
    value, then the other names in the order of their first occurrence in
    the sequence. *)
Theorem topCategories_tie_order
    (g1 g2 : option MonthlyGoal) (ts : list Transaction) :
  sum_topCategories (getDashboardSummary g1 ts) =
  sum_topCategories (getDashboardSummary g2 ts) /\
  (plain_names ts -> finite_totals ts ->
   forall i j e1 e2 q1 q2,
     (i < j)%nat ->
     nth_error (sum_topCategories (getDashboardSummary g1 ts)) i = Some e1 ->
     nth_error (sum_topCategories (getDashboardSummary g1 ts)) j = Some e2 ->
     top_amount e1 = VNum q1 -> top_amount e2 = VNum q2 ->
     same q1 q2 = true ->
     key_order ts (top_category_name e1) (top_category_name e2)).
Proof.
  split; [reflexivity|].
  intros P _ i j e1 e2 q1 q2 L H1 H2 A1 A2 E. simpl in H1, H2.
  destruct (categoryTotals_plain ts P) as (N & _ & _ & O).
  pose proof (before_nth _ _ _ _ _ L H1 H2) as B.
  unfold topCategories, slice0 in B. apply before_firstn in B.
  apply (sort_stable byAmountDesc) in B;
    [|exact (byAmountDesc_ties e1 e2 q1 q2 A1 A2 E)].
  apply before_map_inv in B. destruct B as (x & y & -> & -> & B).
  simpl. exact (entries_key_order ts _ x y N O B).
Qed.

Lemma topCategories_tie_order_witness :
  key_order tied_names "Rent" "Food" /\ key_order tied_indices "1" "2".
Proof.
  split.
  - assert (P : plain_names tied_names).
    { intros t [<-|[<-|[]]]; reflexivity. }
    assert (F : finite_totals tied_names).
    { intros k v [H|[H|[]]]; inversion H; eexists; split; reflexivity. }
    destruct (topCategories_tie_order None None tied_names) as (_ & H).
    exact (H P F 0%nat 1%nat
             (nth 0 (topCategories tied_names) no_entry)
             (nth 1 (topCategories tied_names) no_entry)
             (num 10) (num 10) (Nat.lt_0_succ 0) eq_refl eq_refl eq_refl
             eq_refl eq_refl).
  - assert (P : plain_names tied_indices).
    { intros t [<-|[<-|[]]]; reflexivity. }
    assert (F : finite_totals tied_indices).
    { intros k v [H|[H|[]]]; inversion H; eexists; split; reflexivity. }
    destruct (topCategories_tie_order None None tied_indices) as (_ & H).
    exact (H P F 0%nat 1%nat
             (nth 0 (topCategories tied_indices) no_entry)
             (nth 1 (topCategories tied_indices) no_entry)
             (num 10) (num 10) (Nat.lt_0_succ 0) eq_refl eq_refl eq_refl
             eq_refl eq_refl).
Defined.

(** C9 as stated fails: "2" is met first and "1" second, their sums are
    equal, and "1" stands first in [topCategories]. *)
Lemma topCategories_tie_not_first_seen :
  map (fun e => (top_category_name e, top_amount e)) (topCategories tied_indices)
    = [("1", VNum (num 10)); ("2", VNum (num 10))] /\
  first_seen_before tied_indices "2" "1" /\
  ~ first_seen_before tied_indices "1" "2".
Proof.
  split; [vm_compute; reflexivity|]. split.
  - exists [spend "2" (num 10)], [spend "1" (num 10)]. repeat split.
    + now left.
    + intros [H|[]]. discriminate.
  - intros (ts1 & ts2 & E & I & N).
    destruct ts1 as [|a ts1]; [destruct I|].
    simpl in E. inversion E; subst. apply N. now left.
Qed.

(* ================================================================== *)
(** * Identifiers accepted by [isUuid] *)

Lemma hex_facts (c : ascii) :
  is_hex c = true ->
  (code c =? 45)%nat = false /\ (code c =? 123)%nat = false.
Proof.
  destruct c as [[] [] [] [] [] [] [] []]; vm_compute; intros H;
    try discriminate H; split; reflexivity.
Qed.

Lemma version_is_hex (c : ascii) : in_cls Version c = true -> is_hex c = true.
Proof.
  destruct c as [[] [] [] [] [] [] [] []]; vm_compute; intros H;
    try discriminate H; reflexivity.
Qed.

Lemma variant_is_hex (c : ascii) : in_cls Variant c = true -> is_hex c = true.
Proof.
  destruct c as [[] [] [] [] [] [] [] []]; vm_compute; intros H;
    try discriminate H; reflexivity.
Qed.

Lemma dash_char (c : ascii) : in_cls Dash c = true -> c = "-"%char.
Proof.
  destruct c as [[] [] [] [] [] [] [] []]; vm_compute; intros H;
    try discriminate H; reflexivity.
Qed.

(** One byte followed by the end of the text or by a digit. *)
Lemma read_byte_plain (n i : nat) (a b : ascii) (r : list ascii) :
  is_hex a = true -> is_hex b = true ->
  match r with d :: _ => (code d =? 45)%nat = false | [] => True end ->
  read_bytes (S n) i (a :: b :: r) =
  match read_bytes n (S i) r with
  | Some (ds, rest) => Some (toLowerChar a :: toLowerChar b :: ds, rest)
  | None => None
  end.
Proof.
  intros Ha Hb Hr. simpl. rewrite Ha, Hb. simpl.
  destruct r as [|d r]; [reflexivity|]. now rewrite Hr.
Qed.

(** One byte followed by a hyphen where one is allowed. *)
Lemma read_byte_hyphen (n i : nat) (a b : ascii) (r : list ascii) :
  is_hex a = true -> is_hex b = true ->
  Nat.odd i = true -> (i <? 15)%nat = true ->
  read_bytes (S n) i (a :: b :: "-"%char :: r) =
  match read_bytes n (S i) r with
  | Some (ds, rest) => Some (toLowerChar a :: toLowerChar b :: ds, rest)
  | None => None
  end.
Proof.
  intros Ha Hb Ho Hi. simpl. rewrite Ha, Hb, Ho, Hi. reflexivity.
Qed.

Lemma isUuid_uuid_in (s : string) :
  isUuid (Some s) = true -> uuid_in s = Some (map_chars toLowerChar s).
Proof.
  unfold isUuid. intros H. apply andb_true_iff in H. destruct H as (_ & H).
  let p := eval vm_compute in pattern in change pattern with p in H.
  do 36 (destruct s as [|?c s]; [discriminate H|];
         simpl in H; apply andb_true_iff in H; destruct H as (?C & H)).
  destruct s; [clear H | discriminate H].
  repeat match goal with
         | C : (code _ =? 45)%nat = true |- _ =>
             apply (dash_char _ : _ -> _) in C; subst
         | C : between 49 53 _ = true |- _ => apply version_is_hex in C
         | C : _ || _ || _ = true |- _ => apply variant_is_hex in C
         end.
  unfold uuid_in. cbn [list_ascii_of_string].
  match goal with C : is_hex ?x = true |- context [(code ?x =? 123)%nat] =>
    rewrite (proj2 (hex_facts x C)) end.
  repeat first
    [ rewrite read_byte_hyphen by (assumption || reflexivity)
    | rewrite read_byte_plain
        by (assumption || exact I || (apply hex_facts; assumption)) ].
  reflexivity.
Qed.

(** X1.  A reference that passes [isUuid] is text the store's uuid column
    reads, and it denotes the identifier written in lower case: the lookup
    by identifier never fails on syntax and matches whatever the case of
    the reference. *)
Theorem isUuid_accepted_by_store (s : string) :
  isUuid (Some s) = true -> uuid_in s = Some (map_chars toLowerChar s).
Proof.
  exact (isUuid_uuid_in s).
Qed.

Lemma isUuid_accepted_by_store_witness :
  uuid_in "C0000000-0000-4000-8000-00000000000A" = Some (cat_id alices_pets).
Proof.
  apply (isUuid_accepted_by_store "C0000000-0000-4000-8000-00000000000A").
  reflexivity.
Defined.

(* ================================================================== *)
(** * Further properties of the category resolver *)

Lemma filter_none {A : Type} (p : A -> bool) (l : list A) :
  (forall x, In x l -> p x = false) -> filter p l = [].
Proof.
  induction l as [|x l IH]; simpl; intros H; [reflexivity|].
  rewrite (H x (or_introl eq_refl)). apply IH. auto.
Qed.

Lemma filter_all {A : Type} (p : A -> bool) (l : list A) :
  (forall x, In x l -> p x = true) -> filter p l = l.
Proof.
  induction l as [|x l IH]; simpl; intros H; [reflexivity|].
  rewrite (H x (or_introl eq_refl)). f_equal. apply IH. auto.
Qed.


Lemma filter_unique_key {A : Type} (key : A -> string) (p : A -> bool)
    (l : list A) (c : A) :
  NoDup (map key l) -> In c l -> p c = true ->
  filter (fun x => String.eqb (key x) (key c) && p x) l = [c].
Proof.
  induction l as [|x l IH]; simpl; [tauto|].
  intros N I P. inversion N as [|? ? Hx N']; subst.
  destruct I as [->|I].
  - rewrite String.eqb_refl, P. simpl. f_equal.
    apply filter_none. intros y Iy.
    destruct (String.eqb (key y) (key c)) eqn:Q; [|reflexivity].
    apply String.eqb_eq in Q. exfalso. apply Hx. rewrite <- Q. now apply in_map.
  - destruct (String.eqb (key x) (key c)) eqn:E.
    + apply String.eqb_eq in E. exfalso. apply Hx. rewrite E. now apply in_map.
    + simpl. now apply IH.
Qed.

(** A key that is unique among the rows is unique among the rows a
    query selects. *)
Lemma selected_rows_keyed {Row Key : Type} (key : Row -> Key)
    (selects : Row -> bool) (rows : list Row) :
  NoDup (map key rows) -> NoDup (map key (filter selects rows)).
Proof.
  intros Unique. induction rows as [|r rows IH]; [constructor|].
  simpl in Unique. apply NoDup_cons_iff in Unique.
  destruct Unique as (Fresh & Unique). simpl.
  destruct (selects r); [|now apply IH]. simpl.
  apply NoDup_cons; [|now apply IH].
  intros I. apply Fresh. apply in_map_iff in I. destruct I as (y & E & I).
  apply filter_In in I. rewrite <- E. apply in_map. tauto.
Qed.

Lemma findById_found (db : Db) (u cid : string) (c : Category) :
  NoDup (map cat_id (categories db)) -> In c (categories db) ->
  uuid_in cid = Some (cat_id c) -> visible u c = true ->
  findById db u cid = Some c.
Proof.
  intros N I K V. unfold findById. rewrite K. unfold id_is.
  now rewrite (filter_unique_key cat_id (visible u) _ c N I V).
Qed.


Lemma deriveName_named (ref : option string) (name : string) :
  truthy name = true -> (0 <? String.length (trim name))%nat = true ->
  deriveName ref (Some name) = Some name.
Proof.
  intros T L. unfold deriveName. rewrite T.
  apply Nat.ltb_lt in L.
  destruct (String.length (trim name)) eqn:E; [lia|]. simpl.
  now destruct ref.
Qed.


Lemma conflict_inv (cs : list Category) (c : Category) :
  category_conflict cs c = false ->
  (forall r, In r cs -> cat_id r <> cat_id c) /\
  (forall r, In r cs -> cat_name r = cat_name c ->
             cat_user_id r = cat_user_id c -> cat_user_id c = None).
Proof.
  unfold category_conflict. intros E. apply orb_false_iff in E.
  destruct E as (E1 & E2). split.
  - intros r I Eq.
    assert (X : existsb (fun r => String.eqb (cat_id r) (cat_id c)) cs = true).
    { apply existsb_exists. exists r. split; [assumption|].
      now apply String.eqb_eq. }
    congruence.
  - intros r I En Eu. destruct (cat_user_id c) as [o|] eqn:O; [|reflexivity].
    exfalso. apply not_true_iff_false in E2. apply E2.
    apply existsb_exists. exists r. split; [assumption|].
    rewrite En, String.eqb_refl, Eu. simpl. apply String.eqb_refl.
Qed.

(** An insert the store accepts keeps the keys of [categories]. *)
Lemma insert_category_keyed (db db' : Db) (c : Category) :
  categories_keyed db -> insert_category db c = Some db' ->
  categories_keyed db'.
Proof.
  intros (N & U) H. unfold insert_category in H.
  destruct (category_conflict (categories db) c) eqn:E; [discriminate|].
  inversion H; subst; clear H. apply conflict_inv in E.
  destruct E as (Fresh & Name). unfold categories_keyed. simpl. split.
  - rewrite map_app. simpl.
    apply (Permutation_NoDup (Permutation_cons_append _ _)).
    constructor; [|exact N]. intros I. apply in_map_iff in I.
    destruct I as (r & E & I). now apply (Fresh r I).
  - intros a b Ia Ib En Eu Nn.
    apply in_app_or in Ia. apply in_app_or in Ib.
    destruct Ia as [Ia|[<-|[]]], Ib as [Ib|[<-|[]]].
    + now apply U.
    + exfalso. apply Nn. rewrite Eu. now apply (Name a Ia).
    + exfalso. apply Nn. symmetry in En, Eu. now apply (Name b Ib).
    + reflexivity.
Qed.

Lemma resolveCategoryId_by_visible_id_aux
    (db : Db) (u cid : string) (c : Category)
    (nm : option string) (cr : bool) (new_id : string) :
  NoDup (map cat_id (categories db)) ->
  In c (categories db) -> isUuid (Some cid) = true ->
  uuid_in cid = Some (cat_id c) -> visible u c = true ->
  resolveCategoryId db u (Some cid) nm cr new_id =
    (Some (cat_id c, cat_name c), db).
Proof.
  intros N I U K V. unfold resolveCategoryId.
  now rewrite U, (findById_found db u cid c N I K V).
Qed.

(** X2.  On a store whose category ids are unique, a reference that
    passes [isUuid] and denotes a category the caller may see resolves to
    that category's id and current name, whatever name is passed along and
    whether or not creation is allowed, and the store is not written. *)
Theorem resolveCategoryId_by_visible_id
    (db : Db) (u cid : string) (c : Category)
    (nm : option string) (cr : bool) (new_id : string) :
  NoDup (map cat_id (categories db)) ->
  In c (categories db) -> isUuid (Some cid) = true ->
  uuid_in cid = Some (cat_id c) -> visible u c = true ->
  resolveCategoryId db u (Some cid) nm cr new_id =
    (Some (cat_id c, cat_name c), db).
Proof.
  exact (resolveCategoryId_by_visible_id_aux db u cid c nm cr new_id).
Qed.

Lemma resolveCategoryId_by_visible_id_witness :
  resolveCategoryId db0 alice (Some "D0000000-0000-4000-8000-000000000001")
                    (Some "Pets") false fresh_id =
    (Some (cat_id utilities, "Utilities"), db0).
Proof.
  apply (resolveCategoryId_by_visible_id db0 alice
           "D0000000-0000-4000-8000-000000000001" utilities).
  - exact db0_ids_unique.
  - simpl. now left.
  - reflexivity.
  - reflexivity.
  - reflexivity.
Defined.

(** X3.  [resolveCategoryId] never touches goals or transactions and never
    changes or removes a category: it leaves the store as it is, or, when
    creation is allowed, appends one category that has the generated id, a
    non-empty name, the neutral colour and icon, is no default and is
    owned by the caller.  Without a result the store is as before. *)
Theorem resolveCategoryId_appends
    (db : Db) (u : string) (ref nm : option string) (cr : bool)
    (new_id : string) :
  let r := resolveCategoryId db u ref nm cr new_id in
  monthly_goals (snd r) = monthly_goals db /\
  transactions (snd r) = transactions db /\
  (snd r = db \/
   exists name,
     cr = true /\ truthy name = true /\ fst r = Some (new_id, name) /\
     categories (snd r) =
       categories db ++
       [mkCategory new_id name "#6B7280" "more-horizontal" false (Some u)]) /\
  (fst r = None -> snd r = db) /\
  (cr = false -> snd r = db).
Proof.
  cbv zeta. unfold resolveCategoryId.
  match goal with |- context [match ?b with Some _ => _ | None => _ end] =>
    destruct b as [c|] end; [simpl; intuition|].
  match goal with |- context [match ?b with Some _ => _ | None => _ end] =>
    destruct b as [c|] end; [simpl; intuition|].
  destruct cr; [|simpl; intuition].
  destruct (deriveName ref nm) as [d|]; [|simpl; intuition].
  destruct (truthy d) eqn:T; [|simpl; intuition].
  unfold insert_category.
  destruct (category_conflict (categories db) (newCategory new_id u d));
    [simpl; intuition|].
  simpl. split; [reflexivity|]. split; [reflexivity|]. split.
  - right. exists d. auto.
  - split; intros; discriminate.
Qed.

Lemma db0_categories_keyed : categories_keyed db0.
Proof.
  split; [exact db0_ids_unique|].
  simpl. intros a b [<-|[<-|[<-|[]]]] [<-|[<-|[<-|[]]]] En Eu Nn;
    try reflexivity; try discriminate; now elim Nn.
Defined.



Lemma resolveCategoryId_appends_witness :
  snd (resolveCategoryId db0 alice (Some (cat_id bobs_savings)) None true
                         fresh_id) = db0.
Proof.
  pose proof (resolveCategoryId_appends db0 alice (Some (cat_id bobs_savings))
                None true fresh_id) as P.
  cbv zeta in P. destruct P as (_ & _ & _ & H & _).
  apply H. reflexivity.
Defined.

Lemma single_snoc_none {A : Type} (l : list A) (x : A) :
  single l = None -> single (l ++ [x]) = Some x \/ single (l ++ [x]) = None.
Proof.
  destruct l as [|a [|b l]]; simpl; intros H.
  - now left.
  - discriminate.
  - right. now destruct l.
Qed.

Lemma visible_newCategory (u new_id name : string) :
  visible u (newCategory new_id u name) = true.
Proof.
  unfold visible, newCategory. simpl. now rewrite String.eqb_refl.
Qed.

Lemma findById_after_insert (db : Db) (u cid : string) (c : Category) :
  findById db u cid = None ->
  findById (with_categories db (categories db ++ [c])) u cid = None \/
  findById (with_categories db (categories db ++ [c])) u cid = Some c.
Proof.
  unfold findById, maybeSingle. destruct (uuid_in cid) as [key|]; [|now left].
  simpl. rewrite filter_app. simpl. intros H.
  destruct (id_is key (cat_id c) && visible u c).
  - destruct (single_snoc_none _ c H); auto.
  - rewrite app_nil_r. now left.
Qed.

Lemma findByName_after_insert (db : Db) (u new_id name : string) :
  findByName db u name = None ->
  findByName (with_categories db (categories db ++ [newCategory new_id u name]))
             u name = Some (newCategory new_id u name).
Proof.
  unfold findByName, maybeSingle, limit. simpl. rewrite filter_app. simpl.
  rewrite String.eqb_refl, visible_newCategory. simpl.
  destruct (filter (fun c => String.eqb (cat_name c) name && visible u c)
              (categories db)) as [|x l]; [reflexivity | discriminate].
Qed.

(** X5.  Finding or creating by a name that is not blank is idempotent: a
    call that yielded a category yields the same category when repeated on
    the store it left, and the repeated call writes nothing. *)
Theorem resolveCategoryId_again
    (db db1 : Db) (u : string) (ref : option string) (name : string)
    (id1 id2 : string) (r : string * string) :
  truthy name = true -> (0 <? String.length (trim name))%nat = true ->
  resolveCategoryId db u ref (Some name) true id1 = (Some r, db1) ->
  resolveCategoryId db1 u ref (Some name) true id2 = (Some r, db1).
Proof.
  intros T L H. unfold resolveCategoryId in H |- *.
  set (viaId := fun d : Db =>
         if isUuid (Some (match ref with Some s => s | None => EmptyString end))
         then match ref with
              | Some cid => findById d u cid
              | None => None
              end
         else None) in *.
  change (match viaId db1 with
          | Some data => (Some (cat_id data, cat_name data), db1)
          | None =>
              match (if truthy name && (0 <? String.length (trim name))%nat
                     then findByName db1 u name else None) with
              | Some data => (Some (cat_id data, cat_name data), db1)
              | None =>
                  match deriveName ref (Some name) with
                  | Some derivedName =>
                      if truthy derivedName then
                        match insert_category db1 (newCategory id2 u derivedName) with
                        | Some db' =>
                            (Some (cat_id (newCategory id2 u derivedName),
                                   cat_name (newCategory id2 u derivedName)), db')
                        | None => (None, db1)
                        end
                      else (None, db1)
                  | None => (None, db1)
                  end
              end
          end = (Some r, db1)).
  change (match viaId db with
          | Some data => (Some (cat_id data, cat_name data), db)
          | None =>
              match (if truthy name && (0 <? String.length (trim name))%nat
                     then findByName db u name else None) with
              | Some data => (Some (cat_id data, cat_name data), db)
              | None =>
                  match deriveName ref (Some name) with
                  | Some derivedName =>
                      if truthy derivedName then
                        match insert_category db (newCategory id1 u derivedName) with
                        | Some db' =>
                            (Some (cat_id (newCategory id1 u derivedName),
                                   cat_name (newCategory id1 u derivedName)), db')
                        | None => (None, db)
                        end
                      else (None, db)
                  | None => (None, db)
                  end
              end
          end = (Some r, db1)) in H.
  rewrite T, L in *. simpl andb in *. cbv iota in *.
  destruct (viaId db) as [c|] eqn:S1.
  { inversion H; subst. now rewrite S1. }
  destruct (findByName db u name) as [c|] eqn:F.
  { inversion H; subst. now rewrite S1, F. }
  rewrite (deriveName_named ref name T L), T in H.
  unfold insert_category in H.
  destruct (category_conflict (categories db) (newCategory id1 u name));
    [discriminate|].
  inversion H; subst; clear H.
  assert (S2 : viaId (with_categories db
                        (categories db ++ [newCategory id1 u name])) = None \/
               viaId (with_categories db
                        (categories db ++ [newCategory id1 u name])) =
               Some (newCategory id1 u name)).
  { unfold viaId in *. destruct (isUuid _); [|now left].
    destruct ref as [cid|]; [|now left].
    now apply findById_after_insert. }
  destruct S2 as [S2|S2]; rewrite S2.
  - now rewrite (findByName_after_insert db u id1 name F).
  - reflexivity.
Qed.

Lemma resolveCategoryId_again_witness :
  let db1 := snd (resolveCategoryId db0 alice (Some "coffee-shops")
                                    (Some "Coffee") true fresh_id) in
  resolveCategoryId db1 alice (Some "coffee-shops") (Some "Coffee") true
                    "f0000000-0000-4000-8000-0000000000f2" =
    (Some (fresh_id, "Coffee"), db1).
Proof.
  apply (resolveCategoryId_again db0 _ alice (Some "coffee-shops") "Coffee"
           fresh_id "f0000000-0000-4000-8000-0000000000f2").
  - reflexivity.
  - reflexivity.
  - reflexivity.
Defined.

(* ================================================================== *)
(** * Categories: creation, deletion, listing *)

Lemma Db_eta (db : Db) :
  mkDb (categories db) (monthly_goals db) (transactions db) = db.
Proof. now destruct db. Qed.

Lemma order_insert_perm {A : Type} (first : A -> A -> bool) (x : A)
    (l : list A) :
  Permutation (order_insert first x l) (x :: l).
Proof.
  induction l as [|y l IH]; simpl; [reflexivity|].
  destruct (first y x); [|reflexivity].
  rewrite IH. apply perm_swap.
Qed.

Lemma order_by_perm {A : Type} (first : A -> A -> bool) (l : list A) :
  Permutation (order_by first l) l.
Proof.
  induction l as [|x l IH]; simpl; [reflexivity|].
  rewrite order_insert_perm. now constructor.
Qed.

Lemma order_by_In {A : Type} (first : A -> A -> bool) (l : list A) (a : A) :
  In a (order_by first l) <-> In a l.
Proof.
  split; apply Permutation_in;
    [apply order_by_perm | apply Permutation_sym, order_by_perm].
Qed.

(** Rows of the class [p] stay in front when [first] places them before
    all others and never places another before them. *)
Section ClassFirst.
Context {A : Type} (first : A -> A -> bool) (p : A -> bool).
Hypothesis class_first :
  forall a b, p a = true -> p b = false -> first a b = true.
Hypothesis others_behind :
  forall a b, p a = false -> p b = true -> first a b = false.

Lemma order_insert_class_first (x : A) (s : list A) :
  (forall a b, before s a b -> p b = true -> p a = true) ->
  forall a b, before (order_insert first x s) a b -> p b = true -> p a = true.
Proof.
  induction s as [|y s IH]; simpl; intros Hs a b B Pb.
  - apply before_short in B; [contradiction | simpl; lia].
  - destruct (first y x) eqn:F.
    + apply before_cons_inv in B. destruct B as [(Ea & I)|B].
      * subst a. destruct (p y) eqn:Py; [reflexivity|].
        apply (Permutation_in _ (order_insert_perm first x s)) in I.
        destruct I as [Eb|I].
        -- subst b. rewrite (others_behind y x Py Pb) in F. discriminate.
        -- rewrite <- Py. apply (Hs y b); [|exact Pb].
           now apply before_head.
      * refine (IH _ a b B Pb). intros a' b' B' Pb'.
        apply (Hs a' b'); [|exact Pb']. now apply before_cons.
    + apply before_cons_inv in B. destruct B as [(Ea & I)|B].
      * subst a. destruct (p x) eqn:Px; [reflexivity|].
        assert (Py : p y = true).
        { destruct I as [Eb|I]; [now subst b|].
          apply (Hs y b); [|exact Pb]. now apply before_head. }
        rewrite (class_first y x Py Px) in F. discriminate.
      * now apply (Hs a b).
Qed.

Lemma order_by_class_first (l : list A) :
  forall a b, before (order_by first l) a b -> p b = true -> p a = true.
Proof.
  induction l as [|x l IH]; simpl.
  - intros a b B. apply before_short in B; [contradiction | simpl; lia].
  - now apply order_insert_class_first.
Qed.

End ClassFirst.



(** X7.  A category created by [createCategory] is resolved by its id for
    its owner, to the id and the name of the row returned, whatever name
    is passed along, and is not resolved by its id for any other
    account. *)
Theorem createCategory_then_resolve
    (db db' : Db) (u : string) (d : CategoryData) (new_id : string)
    (row : Category) :
  NoDup (map cat_id (categories db)) ->
  isUuid (Some new_id) = true -> uuid_in new_id = Some new_id ->
  createCategory db u d new_id = (Ok row, db') ->
  (forall nm cr id2,
     resolveCategoryId db' u (Some new_id) nm cr id2 =
       (Some (cat_id row, cat_name row), db')) /\
  (forall v id2, v <> u ->
     resolveCategoryId db' v (Some new_id) None false id2 = (None, db')).
Proof.
  intros N U K H. unfold createCategory in H.
  destruct (insert_category db _) as [db1|] eqn:Ins; [|discriminate].
  inversion H; subst; clear H.
  pose proof (insert_category_inv _ _ _ Ins) as (-> & Fresh).
  set (row := mkCategory new_id (cd_name d) (cd_color d) (cd_icon d) false
                         (Some u)) in *.
  assert (N' : NoDup (map cat_id (categories db ++ [row]))).
  { rewrite map_app. simpl.
    apply (Permutation_NoDup (Permutation_cons_append _ _)).
    constructor; [|exact N]. intros I. apply in_map_iff in I.
    destruct I as (r & E & I). now apply (Fresh r I). }
  assert (Ir : In row (categories db ++ [row]))
    by (apply in_or_app; right; now left).
  split.
  - intros nm cr id2.
    apply (resolveCategoryId_by_visible_id_aux
             (with_categories db (categories db ++ [row])) u new_id row);
      auto.
    unfold visible. simpl. now rewrite String.eqb_refl.
  - intros v id2 Hv. unfold resolveCategoryId. rewrite U.
    rewrite (findById_hidden (with_categories db (categories db ++ [row]))
               v new_id row N' Ir K).
    + reflexivity.
    + unfold visible. simpl. rewrite orb_false_r.
      apply String.eqb_neq. congruence.
Qed.

Lemma createCategory_then_resolve_witness :
  let db' := snd (createCategory db0 alice
                    (mkCategoryData "Savings" "#000000" "bank") fresh_id) in
  resolveCategoryId db' alice (Some fresh_id) (Some "Pets") false
                    "f0000000-0000-4000-8000-0000000000f2" =
    (Some (fresh_id, "Savings"), db') /\
  resolveCategoryId db' bob (Some fresh_id) None false
                    "f0000000-0000-4000-8000-0000000000f2" = (None, db').
Proof.
  destruct (createCategory_then_resolve db0
              (snd (createCategory db0 alice
                      (mkCategoryData "Savings" "#000000" "bank") fresh_id))
              alice (mkCategoryData "Savings" "#000000" "bank") fresh_id
              (mkCategory fresh_id "Savings" "#000000" "bank" false (Some alice))
              db0_ids_unique eq_refl eq_refl eq_refl) as (H1 & H2).
  split.
  - apply H1.
  - apply H2. discriminate.
Defined.

Lemma delete_selected_iff (u key : string) (c : Category) :
  delete_selected u key c = true <->
  cat_id c = key /\ cat_user_id c = Some u /\ is_default c = false.
Proof.
  unfold delete_selected, id_is, opt_eqb.
  rewrite !andb_true_iff, String.eqb_eq, Bool.eqb_true_iff.
  destruct (cat_user_id c) as [o|].
  - rewrite String.eqb_eq. split.
    + intros ((-> & ->) & ->). auto.
    + intros (-> & E & ->). inversion E. auto.
  - split; [intros ((_ & E) & _); discriminate
           | intros (_ & E & _); discriminate].
Qed.

(** X8.  Creating a category and then deleting it by its id gives back the
    store as it was, when the transactions of the store are recorded under
    categories of the store. *)
Theorem createCategory_then_delete
    (db db' : Db) (u : string) (d : CategoryData) (new_id : string)
    (row : Category) :
  (forall t, In t (transactions db) ->
     exists c, In c (categories db) /\ cat_id c = category_id t) ->
  uuid_in new_id = Some new_id ->
  createCategory db u d new_id = (Ok row, db') ->
  deleteCategory db' u new_id = (Ok tt, db).
Proof.
  intros Ref K H. unfold createCategory in H.
  destruct (insert_category db _) as [db1|] eqn:Ins; [|discriminate].
  inversion H; subst; clear H.
  pose proof (insert_category_inv _ _ _ Ins) as (-> & Fresh).
  set (row := mkCategory new_id (cd_name d) (cd_color d) (cd_icon d) false
                         (Some u)) in *.
  assert (Sel : delete_selected u new_id row = true).
  { apply delete_selected_iff. auto. }
  assert (Old : forall c, In c (categories db) ->
                          delete_selected u new_id c = false).
  { intros c I. apply not_true_iff_false. intros S.
    apply delete_selected_iff in S. destruct S as (E & _).
    now apply (Fresh c I). }
  unfold deleteCategory. rewrite K. simpl. f_equal.
  rewrite !filter_app. simpl. rewrite Sel. simpl.
  rewrite (filter_none _ _ Old), app_nil_r. simpl.
  rewrite (filter_all (fun c => negb (delete_selected u new_id c))).
  2:{ intros c I. now rewrite (Old c I). }
  rewrite filter_all.
  - apply Db_eta.
  - intros t I. rewrite orb_false_r. apply negb_true_iff.
    apply String.eqb_neq. intros E.
    destruct (Ref t I) as (c & Ic & Ec). apply (Fresh c Ic). simpl. congruence.
Qed.

Lemma createCategory_then_delete_witness :
  deleteCategory
    (snd (createCategory db0 alice (mkCategoryData "Savings" "#000000" "bank")
                         fresh_id))
    alice fresh_id = (Ok tt, db0).
Proof.
  apply (createCategory_then_delete db0 _ alice
           (mkCategoryData "Savings" "#000000" "bank") fresh_id
           (mkCategory fresh_id "Savings" "#000000" "bank" false (Some alice))).
  - simpl. intros t [<-|[]]. exists alices_pets. simpl. auto.
  - reflexivity.
  - reflexivity.
Defined.

(** X9.  Deleting is idempotent: a second [deleteCategory] with the same
    arguments gives the same answer and leaves the store of the first. *)
Theorem deleteCategory_twice (db : Db) (u categoryId : string) :
  deleteCategory (snd (deleteCategory db u categoryId)) u categoryId =
  deleteCategory db u categoryId.
Proof.
  unfold deleteCategory. destruct (uuid_in categoryId) as [key|] eqn:K.
  - simpl.
    assert (G : filter (delete_selected u key)
                  (filter (fun c => negb (delete_selected u key c))
                          (categories db)) = []).
    { apply filter_none. intros c I. apply filter_In in I.
      destruct I as (_ & I). now apply negb_true_iff in I. }
    rewrite G. simpl. f_equal. f_equal.
    + apply filter_all. intros c I. apply filter_In in I. tauto.
    + apply filter_all. reflexivity.
  - reflexivity.
Qed.

Lemma deleteCategory_keeps_sound (db : Db) (u categoryId : string) :
  categories_keyed db -> transactions_sound db ->
  categories_keyed (snd (deleteCategory db u categoryId)) /\
  transactions_sound (snd (deleteCategory db u categoryId)).
Proof.
  intros (N & U) (Nt & S). unfold deleteCategory.
  destruct (uuid_in categoryId) as [key|]; simpl; [|repeat split; auto].
  split; split; simpl.
  - now apply selected_rows_keyed.
  - intros a b Ia Ib. apply filter_In in Ia, Ib. apply U; tauto.
  - now apply selected_rows_keyed.
  - intros t I. apply filter_In in I. destruct I as (I & G).
    destruct (S t I) as (c & Ic & Ec & V). exists c.
    split; [|auto]. apply filter_In. split; [assumption|].
    destruct (delete_selected u key c) eqn:D; [|reflexivity].
    exfalso. apply negb_true_iff in G.
    apply not_true_iff_false in G. apply G.
    apply existsb_exists. exists c. split.
    + apply filter_In. auto.
    + now apply String.eqb_eq.
Qed.

Lemma db0_transactions_sound : transactions_sound db0.
Proof.
  split.
  - repeat constructor; simpl; intuition discriminate.
  - simpl. intros t [<-|[]]. exists alices_pets. simpl. auto.
Defined.

Lemma owned_by_iff (u : string) (t : Transaction) :
  owned_by u t = true <-> tx_user_id t = u.
Proof. unfold owned_by. apply String.eqb_eq. Qed.

Lemma deleteCategory_other_accounts_aux
    (db : Db) (u v categoryId : string) :
  NoDup (map cat_id (categories db)) -> transactions_sound db -> v <> u ->
  filter (owned_by v) (transactions (snd (deleteCategory db u categoryId))) =
    filter (owned_by v) (transactions db) /\
  filter (visible v) (categories (snd (deleteCategory db u categoryId))) =
    filter (visible v) (categories db).
Proof.
  intros N (_ & S) Hv. unfold deleteCategory.
  destruct (uuid_in categoryId) as [key|]; simpl; [|split; reflexivity].
  assert (Hidden : forall c, delete_selected u key c = true ->
                             visible v c = false).
  { intros c D. apply delete_selected_iff in D. destruct D as (_ & O & F).
    unfold visible. rewrite O, F. simpl. rewrite orb_false_r.
    apply String.eqb_neq. congruence. }
  split.
  - induction (transactions db) as [|t l IH] in S |- *; simpl; [reflexivity|].
    assert (IH' : filter (owned_by v)
                    (filter (fun t => negb (existsb
                       (fun c => String.eqb (cat_id c) (category_id t))
                       (filter (delete_selected u key) (categories db)))) l) =
                  filter (owned_by v) l).
    { apply IH. intros x I. apply S. now right. }
    destruct (existsb (fun c => String.eqb (cat_id c) (category_id t))
                (filter (delete_selected u key) (categories db))) eqn:X; simpl.
    + destruct (owned_by v t) eqn:O; [|exact IH'].
      exfalso. apply existsb_exists in X. destruct X as (g & Ig & Eg).
      apply String.eqb_eq in Eg. apply filter_In in Ig. destruct Ig as (Ig & D).
      destruct (S t (or_introl eq_refl)) as (c & Ic & Ec & V).
      assert (g = c).
      { apply (same_key_same_row cat_id (categories db)); auto. congruence. }
      subst g. apply owned_by_iff in O. rewrite O in V.
      rewrite (Hidden c D) in V. discriminate.
    + destruct (owned_by v t); [now rewrite IH' | exact IH'].
  - clear N S.
    induction (categories db) as [|c l IH]; simpl; [reflexivity|].
    destruct (delete_selected u key c) eqn:D; simpl.
    + rewrite (Hidden c D). exact IH.
    + destruct (visible v c); [now rewrite IH | exact IH].
Qed.

(** X10.  On a sound store, a [deleteCategory] of one account leaves the
    other accounts alone: the transactions of every other account and the
    categories every other account may see are the same rows in the same
    order afterwards. *)
Theorem deleteCategory_other_accounts
    (db : Db) (u v categoryId : string) :
  NoDup (map cat_id (categories db)) -> transactions_sound db -> v <> u ->
  filter (owned_by v) (transactions (snd (deleteCategory db u categoryId))) =
    filter (owned_by v) (transactions db) /\
  filter (visible v) (categories (snd (deleteCategory db u categoryId))) =
    filter (visible v) (categories db).
Proof.
  exact (deleteCategory_other_accounts_aux db u v categoryId).
Qed.

Lemma deleteCategory_other_accounts_witness :
  filter (owned_by alice)
         (transactions (snd (deleteCategory db0 bob (cat_id alices_pets)))) =
    filter (owned_by alice) (transactions db0) /\
  filter (visible alice)
         (categories (snd (deleteCategory db0 bob (cat_id alices_pets)))) =
    filter (visible alice) (categories db0).
Proof.
  apply (deleteCategory_other_accounts db0 bob alice (cat_id alices_pets)).
  - exact db0_ids_unique.
  - exact db0_transactions_sound.
  - discriminate.
Defined.

(** X11.  [getUserCategories] lists exactly the categories of the store
    that are system defaults or owned by the caller, each as often as it is
    stored, and every default before every category of the caller,
    whatever the collation of names. *)
Theorem getUserCategories_lists_visible
    (name_before : string -> string -> bool) (db : Db) (u : string) :
  Permutation (getUserCategories name_before db u)
              (filter (visible u) (categories db)) /\
  (forall c, In c (getUserCategories name_before db u) <->
             In c (categories db) /\
             (cat_user_id c = Some u \/ is_default c = true)) /\
  (forall a b, before (getUserCategories name_before db u) a b ->
               is_default b = true -> is_default a = true).
Proof.
  unfold getUserCategories. split; [apply order_by_perm|]. split.
  - intros c. rewrite order_by_In, filter_In, visible_iff. tauto.
  - apply order_by_class_first.
    + intros a b Pa Pb. unfold defaults_then_name. now rewrite Pa, Pb.
    + intros a b Pa Pb. unfold defaults_then_name. now rewrite Pa, Pb.
Qed.

Lemma getUserCategories_lists_visible_witness :
  getUserCategories String.ltb db0 alice = [utilities; alices_pets] /\
  (In bobs_savings (getUserCategories String.ltb db0 alice) -> False).
Proof.
  split; [reflexivity|].
  intros I.
  apply (getUserCategories_lists_visible String.ltb db0 alice) in I.
  destruct I as (_ & [E|E]); discriminate E.
Defined.

(** X12.  A category that [resolveCategoryId] returns for an account is in
    the list [getUserCategories] gives that account afterwards, under the
    id and the name returned. *)
Theorem resolved_category_is_listed
    (name_before : string -> string -> bool)
    (db db' : Db) (u : string) (ref nm : option string) (cr : bool)
    (new_id id name : string) :
  resolveCategoryId db u ref nm cr new_id = (Some (id, name), db') ->
  exists c, In c (getUserCategories name_before db' u) /\
            cat_id c = id /\ cat_name c = name.
Proof.
  intros H. pose proof (resolveCategoryId_cases db u ref nm cr new_id) as R.
  rewrite H in R. inversion R as [c I V | name' db'' Ins | ]; subst.
  - exists c. split; [|auto]. unfold getUserCategories.
    apply order_by_In, filter_In. auto.
  - apply insert_category_inv in Ins. destruct Ins as (-> & _).
    exists (newCategory id u name). split; [|auto].
    unfold getUserCategories. apply order_by_In, filter_In. simpl. split.
    + apply in_or_app. right. now left.
    + apply visible_newCategory.
Qed.

Lemma resolved_category_is_listed_witness :
  exists c,
    In c (getUserCategories String.ltb
            (snd (resolveCategoryId db0 alice (Some "food-groceries") None true
                                    fresh_id)) alice) /\
    cat_id c = fresh_id /\ cat_name c = "Food Groceries".
Proof.
  apply (resolved_category_is_listed String.ltb db0 _ alice
           (Some "food-groceries") None true fresh_id).
  reflexivity.
Defined.

(* ================================================================== *)
(** * Transactions: creation, update, reads *)

Lemma resolve_frame (db db' : Db) (u : string) (ref nm : option string)
    (cr : bool) (new_id : string) (r : option (string * string)) :
  resolveCategoryId db u ref nm cr new_id = (r, db') ->
  monthly_goals db' = monthly_goals db /\
  transactions db' = transactions db /\
  (forall c, In c (categories db) -> In c (categories db')).
Proof.
  intros H. pose proof (resolveCategoryId_cases db u ref nm cr new_id) as R.
  rewrite H in R. inversion R as [c I V | name db'' Ins | ]; subst; auto.
  apply insert_category_inv in Ins. destruct Ins as (-> & _). simpl.
  repeat split; auto. intros c I. apply in_or_app. now left.
Qed.

Lemma resolve_result_visible (db db' : Db) (u : string)
    (ref nm : option string) (cr : bool) (new_id id name : string) :
  resolveCategoryId db u ref nm cr new_id = (Some (id, name), db') ->
  exists c, In c (categories db') /\ cat_id c = id /\ cat_name c = name /\
            visible u c = true.
Proof.
  intros H. pose proof (resolveCategoryId_cases db u ref nm cr new_id) as R.
  rewrite H in R. inversion R as [c I V | name' db'' Ins | ]; subst.
  - exists c. auto.
  - apply insert_category_inv in Ins. destruct Ins as (-> & _).
    exists (newCategory id u name). simpl. repeat split.
    + apply in_or_app. right. now left.
    + apply visible_newCategory.
Qed.

Lemma resolve_keeps_keys (db db' : Db) (u : string) (ref nm : option string)
    (cr : bool) (new_id : string) (r : option (string * string)) :
  categories_keyed db ->
  resolveCategoryId db u ref nm cr new_id = (r, db') ->
  categories_keyed db'.
Proof.
  intros K H. pose proof (resolveCategoryId_cases db u ref nm cr new_id) as R.
  rewrite H in R. inversion R; subst; try assumption.
  eapply insert_category_keyed; eauto.
Qed.

Lemma NoDup_snoc {A : Type} (l : list A) (x : A) :
  NoDup l -> ~ In x l -> NoDup (l ++ [x]).
Proof.
  intros N I. apply (Permutation_NoDup (Permutation_cons_append _ _)).
  now constructor.
Qed.

(** What a call of [createTransaction] can be. *)
Lemma createTransaction_cases
    (isoMonth date_in : string -> option string) (db : Db) (u : string)
    (data : CreateTransactionRequest) (cid nid : string) :
  (isoMonth (ctr_date data) = None /\
   createTransaction isoMonth date_in db u data cid nid =
     (Err (createError "Failed to create transaction" 500), db)) \/
  (exists mon, isoMonth (ctr_date data) = Some mon /\
   ((resolveCategoryId db u (Some (ctr_category_id data))
                       (ctr_category_name data) true cid = (None, db) /\
     createTransaction isoMonth date_in db u data cid nid =
       (Err (createError
               "Unknown category. Provide a valid category_id or category_name."
               400), db)) \/
    (exists id name db1,
       resolveCategoryId db u (Some (ctr_category_id data))
                         (ctr_category_name data) true cid =
         (Some (id, name), db1) /\
       (((numeric_12_2 (ctr_amount data) = None \/
          date_in (ctr_date data) = None \/
          In nid (map tx_id (transactions db))) /\
         createTransaction isoMonth date_in db u data cid nid =
           (Err (createError "Failed to create transaction" 500), db1)) \/
        (exists a d,
           numeric_12_2 (ctr_amount data) = Some a /\
           date_in (ctr_date data) = Some d /\
           ~ In nid (map tx_id (transactions db)) /\
           createTransaction isoMonth date_in db u data cid nid =
             (Ok (mkTransaction nid u id name a (ctr_description data) d mon),
              mkDb (categories db1) (monthly_goals db)
                   (transactions db ++
                    [mkTransaction nid u id name a (ctr_description data) d
                                   mon]))))))).
Proof.
  unfold createTransaction.
  destruct (isoMonth (ctr_date data)) as [mon|]; [right | now left].
  exists mon. split; [reflexivity|].
  destruct (resolveCategoryId db u (Some (ctr_category_id data))
              (ctr_category_name data) true cid) as [[[id name]|] db1] eqn:R.
  - right. exists id, name, db1. split; [reflexivity|].
    destruct (resolve_frame _ _ _ _ _ _ _ _ R) as (G & T & _).
    rewrite G, T.
    destruct (numeric_12_2 (ctr_amount data)) as [a|]; [|left; auto].
    destruct (date_in (ctr_date data)) as [d|]; [|left; auto].
    destruct (existsb (fun t => String.eqb (tx_id t) nid) (transactions db))
      eqn:X.
    + left. split; [|reflexivity]. right. right. apply existsb_exists in X.
      destruct X as (t & I & E). apply String.eqb_eq in E. rewrite <- E.
      now apply in_map.
    + right. exists a, d. repeat split. intros I. apply in_map_iff in I.
      destruct I as (t & E & I).
      assert (existsb (fun t => String.eqb (tx_id t) nid) (transactions db)
              = true).
      { apply existsb_exists. exists t. split; [assumption|].
        now apply String.eqb_eq. }
      congruence.
  - left. rewrite (resolveCategoryId_none _ _ _ _ _ _ _ R). auto.
Qed.

(** X13.  A transaction that [createTransaction] stores is appended to the
    table under the generated id; it belongs to the caller and carries the
    description of the request, its amount as the DECIMAL(12,2) column
    holds it, the calendar day the DATE column made of its date, the month
    derived from the date as the request wrote it, and the id and name of
    a category of the resulting store that the caller may see.  Goals and
    earlier transactions are as before. *)
Theorem createTransaction_stores
    (isoMonth date_in : string -> option string) (db db' : Db) (u : string)
    (data : CreateTransactionRequest) (cid nid : string) (row : Transaction) :
  createTransaction isoMonth date_in db u data cid nid = (Ok row, db') ->
  tx_id row = nid /\ tx_user_id row = u /\
  numeric_12_2 (ctr_amount data) = Some (amount row) /\
  description row = ctr_description data /\
  date_in (ctr_date data) = Some (date row) /\
  isoMonth (ctr_date data) = Some (month row) /\
  transactions db' = transactions db ++ [row] /\
  monthly_goals db' = monthly_goals db /\
  (forall c, In c (categories db) -> In c (categories db')) /\
  exists c, In c (categories db') /\ cat_id c = category_id row /\
            cat_name c = category_name row /\ visible u c = true.
Proof.
  intros H.
  destruct (createTransaction_cases isoMonth date_in db u data cid nid)
    as [(_ & E)|(mon & M & [(_ & E)|(id & name & db1 & R &
         [(_ & E)|(a & d & A & D & _ & E)])])];
    rewrite E in H; try discriminate.
  inversion H; subst; clear H. simpl.
  destruct (resolve_frame _ _ _ _ _ _ _ _ R) as (_ & _ & Keep).
  repeat split; auto.
  apply (resolve_result_visible _ _ _ _ _ _ _ _ _ R).
Qed.

Lemma createTransaction_stores_witness :
  exists row db',
    createTransaction (fun d => Some (substring 0 7 d)) plain_date db0 alice
      (mkTransactionRequest "coffee-shops" None (dec 12345 3) "latte"
                            "2024-05-09")
      fresh_id "70000000-0000-4000-8000-000000000002" = (Ok row, db') /\
    transactions db' = transactions db0 ++ [row] /\
    category_name row = "Coffee Shops" /\ month row = "2024-05" /\
    amount row = dec 1235 2.
Proof.
  eexists. eexists. split; [vm_compute; reflexivity|].
  pose proof (createTransaction_stores (fun d => Some (substring 0 7 d))
                plain_date db0 _ alice
                (mkTransactionRequest "coffee-shops" None (dec 12345 3) "latte"
                                      "2024-05-09")
                fresh_id "70000000-0000-4000-8000-000000000002" _ eq_refl) as P.
  destruct P as (_ & _ & _ & _ & _ & _ & T & _).
  split; [exact T|]. repeat split; vm_compute; reflexivity.
Defined.

(** An amount of 12 digits before the point, or a date the store does not
    take, ends in the failure of the insert; the category the resolution
    created stays. *)
Example createTransaction_refused :
  createTransaction (fun d => Some (substring 0 7 d)) plain_date db0 alice
    (mkTransactionRequest "coffee-shops" None (num (10 ^ 10)) "latte"
                          "2024-05-09")
    fresh_id "70000000-0000-4000-8000-000000000002" =
  (Err (createError "Failed to create transaction" 500),
   mkDb (categories db0 ++ [newCategory fresh_id alice "Coffee Shops"])
        (monthly_goals db0) (transactions db0)).
Proof. vm_compute. reflexivity. Qed.

(** X14.  [createTransaction] fails with status 500 or 400 only.  A date
    that has no month fails with 500 before the category is looked at, so
    that nothing is written, not even a category the request would create;
    an unknown category fails with 400 and writes nothing; no failure adds
    a transaction. *)
Theorem createTransaction_failures
    (isoMonth date_in : string -> option string) (db : Db) (u : string)
    (data : CreateTransactionRequest) (cid nid : string) :
  (isoMonth (ctr_date data) = None ->
   createTransaction isoMonth date_in db u data cid nid =
     (Err (createError "Failed to create transaction" 500), db)) /\
  (forall e db',
     createTransaction isoMonth date_in db u data cid nid = (Err e, db') ->
     (statusCode e = 500 \/ statusCode e = 400)%nat /\
     (statusCode e = 400%nat -> db' = db) /\
     transactions db' = transactions db /\
     monthly_goals db' = monthly_goals db).
Proof.
  destruct (createTransaction_cases isoMonth date_in db u data cid nid)
    as [(M & E)|(mon & M & [(_ & E)|(id & name & db1 & R &
         [(_ & E)|(a & d & _ & _ & _ & E)])])];
    rewrite E; (split; [intros M'; congruence|]); intros e db' H;
    inversion H; subst; clear H; simpl.
  - split; [now left|]. split; [reflexivity|]. now split.
  - split; [now right|]. split; [reflexivity|]. now split.
  - destruct (resolve_frame _ _ _ _ _ _ _ _ R) as (G & T & _).
    split; [now left|]. split; [discriminate|]. now split.
Qed.

Lemma createTransaction_failures_witness :
  createTransaction (fun _ => None) plain_date db0 alice
    (mkTransactionRequest "coffee-shops" None (num 4) "latte" "someday")
    fresh_id "70000000-0000-4000-8000-000000000002" =
  (Err (createError "Failed to create transaction" 500), db0).
Proof.
  apply (createTransaction_failures (fun _ => None) plain_date db0 alice
           (mkTransactionRequest "coffee-shops" None (num 4) "latte" "someday")
           fresh_id "70000000-0000-4000-8000-000000000002").
  reflexivity.
Defined.

Lemma createTransaction_keeps_sound
    (isoMonth date_in : string -> option string) (db : Db) (u : string)
    (data : CreateTransactionRequest) (cid nid : string) :
  categories_keyed db -> transactions_sound db ->
  let db' := snd (createTransaction isoMonth date_in db u data cid nid) in
  categories_keyed db' /\ transactions_sound db'.
Proof.
  intros K (Nt & S). cbv zeta.
  destruct (createTransaction_cases isoMonth date_in db u data cid nid)
    as [(_ & E)|(mon & M & [(_ & E)|(id & name & db1 & R &
         [(_ & E)|(a & d & _ & _ & F & E)])])];
    rewrite E; simpl.
  - split; [exact K | split; assumption].
  - split; [exact K | split; assumption].
  - destruct (resolve_frame _ _ _ _ _ _ _ _ R) as (G & T & Keep).
    split; [eapply resolve_keeps_keys; eauto|]. split.
    + now rewrite T.
    + rewrite T. intros t I. destruct (S t I) as (c & Ic & Ec & V).
      exists c. auto.
  - destruct (resolve_frame _ _ _ _ _ _ _ _ R) as (G & T & Keep).
    pose proof (resolve_keeps_keys _ _ _ _ _ _ _ _ K R) as (N1 & U1).
    split; [split; assumption|]. split; simpl.
    + rewrite map_app. simpl. now apply NoDup_snoc.
    + intros t I. apply in_app_or in I. destruct I as [I|[<-|[]]].
      * destruct (S t I) as (c & Ic & Ec & V). exists c. auto.
      * simpl. destruct (resolve_result_visible _ _ _ _ _ _ _ _ _ R)
          as (c & Ic & Ec & _ & V). exists c. auto.
Qed.

(** What a call of [updateTransaction] can be. *)
Lemma updateTransaction_cases
    (isoMonth date_in : string -> option string) (db : Db) (u tid : string)
    (upd : TransactionUpdates) (nid : string) :
  (single (filter (tx_selected u tid) (transactions db)) = None /\
   updateTransaction isoMonth date_in db u tid upd nid =
     (Err (createError "Transaction not found" 404), db)) \/
  (exists existing,
     single (filter (tx_selected u tid) (transactions db)) = Some existing /\
     ((exists d, upd_date upd = Some d /\ truthy d = true /\
                 isoMonth d = None /\
                 updateTransaction isoMonth date_in db u tid upd nid =
                   (Err (createError "Failed to update transaction" 500), db)) \/
      (exists newDate mon,
         ((truthy_opt (upd_date upd) = false /\
           newDate = Some (date existing) /\ mon = month existing) \/
          (exists d, upd_date upd = Some d /\ truthy d = true /\
                     newDate = date_in d /\ isoMonth d = Some mon)) /\
         ((truthy_opt (upd_category_id upd) ||
           truthy_opt (upd_category_name upd) = true /\
           updateTransaction isoMonth date_in db u tid upd nid =
             (Err (createError
                     "Unknown category. Provide a valid category_id or category_name."
                     400), db)) \/
          (exists cid cname db1,
             ((truthy_opt (upd_category_id upd) ||
               truthy_opt (upd_category_name upd) = true /\
               resolveCategoryId db u (upd_category_id upd)
                                 (upd_category_name upd) true nid =
                 (Some (cid, cname), db1)) \/
              (truthy_opt (upd_category_id upd) ||
               truthy_opt (upd_category_name upd) = false /\
               cid = category_id existing /\ cname = category_name existing /\
               db1 = db)) /\
             (((written_amount upd existing = None \/ newDate = None) /\
               updateTransaction isoMonth date_in db u tid upd nid =
                 (Err (createError "Failed to update transaction" 500), db1)) \/
              (exists a d,
                 written_amount upd existing = Some a /\ newDate = Some d /\
                 updateTransaction isoMonth date_in db u tid upd nid =
                   (Ok (mkTransaction (tx_id existing) (tx_user_id existing)
                                      cid cname a
                                      (nullish (upd_description upd)
                                               (description existing))
                                      d mon),
                    mkDb (categories db1) (monthly_goals db)
                         (map (fun t =>
                                 if tx_selected u tid t
                                 then mkTransaction (tx_id existing)
                                        (tx_user_id existing) cid cname a
                                        (nullish (upd_description upd)
                                                 (description existing))
                                        d mon
                                 else t)
                              (transactions db)))))))))).
Proof.
  unfold updateTransaction.
  destruct (single (filter (tx_selected u tid) (transactions db)))
    as [existing|]; [right | now left].
  exists existing. split; [reflexivity|].
  assert (Dated :
    (exists d, upd_date upd = Some d /\ truthy d = true /\ isoMonth d = None) \/
    exists newDate mon,
      match upd_date upd with
      | Some d => if truthy d
                  then match isoMonth d with
                       | Some m => Some (date_in d, m)
                       | None => None
                       end
                  else Some (Some (date existing), month existing)
      | None => Some (Some (date existing), month existing)
      end = Some (newDate, mon) /\
      ((truthy_opt (upd_date upd) = false /\
        newDate = Some (date existing) /\ mon = month existing) \/
       (exists d, upd_date upd = Some d /\ truthy d = true /\
                  newDate = date_in d /\ isoMonth d = Some mon))).
  { destruct (upd_date upd) as [d|]; simpl.
    - destruct (truthy d) eqn:T.
      + destruct (isoMonth d) as [m|] eqn:M.
        * right. exists (date_in d), m. split; [reflexivity|]. right.
          exists d. auto.
        * left. exists d. auto.
      + right. exists (Some (date existing)), (month existing). auto.
    - right. exists (Some (date existing)), (month existing). auto. }
  destruct Dated as [(d & D & T & M)|(newDate & mon & E & Dated)].
  { left. exists d. rewrite D, T, M. auto. }
  right. exists newDate, mon. split; [exact Dated|]. rewrite E.
  fold (written_amount upd existing).
  destruct (truthy_opt (upd_category_id upd) ||
            truthy_opt (upd_category_name upd)) eqn:Named.
  - destruct (resolveCategoryId db u (upd_category_id upd)
                (upd_category_name upd) true nid) as [[[cid cname]|] db1] eqn:R.
    + right. exists cid, cname, db1. split; [left; auto|].
      destruct (resolve_frame _ _ _ _ _ _ _ _ R) as (G & Tx & _).
      rewrite G, Tx.
      destruct (written_amount upd existing) as [a|]; [|left; auto].
      destruct newDate as [d|]; [|left; auto].
      right. exists a, d. auto.
    + now left.
  - right. exists (category_id existing), (category_name existing), db.
    split; [right; auto|].
    destruct (written_amount upd existing) as [a|]; [|left; auto].
    destruct newDate as [d|]; [|left; auto].
    right. exists a, d. auto.
Qed.

Lemma selected_inv (u tid : string) (t : Transaction) :
  tx_selected u tid t = true ->
  uuid_in tid = Some (tx_id t) /\ tx_user_id t = u.
Proof.
  unfold tx_selected, id_is. destruct (uuid_in tid) as [key|]; [|discriminate].
  rewrite andb_true_iff, !String.eqb_eq. intros (-> & ->). auto.
Qed.

Lemma single_selected (u tid : string) (l : list Transaction)
    (existing : Transaction) :
  single (filter (tx_selected u tid) l) = Some existing ->
  In existing l /\ tx_selected u tid existing = true.
Proof.
  intros H. apply single_inv in H.
  assert (I : In existing (filter (tx_selected u tid) l))
    by (rewrite H; now left).
  now apply filter_In in I.
Qed.

Lemma updateTransaction_frame_aux
    (isoMonth date_in : string -> option string) (db : Db) (u tid : string)
    (upd : TransactionUpdates) (nid : string) :
  let db' := snd (updateTransaction isoMonth date_in db u tid upd nid) in
  monthly_goals db' = monthly_goals db /\
  map tx_id (transactions db') = map tx_id (transactions db) /\
  map tx_user_id (transactions db') = map tx_user_id (transactions db) /\
  (forall c, In c (categories db) -> In c (categories db')) /\
  (forall v, v <> u ->
     filter (owned_by v) (transactions db') =
     filter (owned_by v) (transactions db)).
Proof.
  cbv zeta.
  destruct (updateTransaction_cases isoMonth date_in db u tid upd nid)
    as [(_ & E)|(existing & Sg & [(d & _ & _ & _ & E)|
         (newDate & mon & _ & [(_ & E)|(cid & cname & db1 & R &
           [(_ & E)|(a & d & _ & _ & E)])])])];
    rewrite E; simpl; try (repeat split; auto; fail).
  { destruct R as [(_ & R)|(_ & _ & _ & ->)]; [|repeat split; auto].
    destruct (resolve_frame _ _ _ _ _ _ _ _ R) as (G & Tx & Keep).
    rewrite G, Tx. repeat split; auto. }
  apply single_selected in Sg. destruct Sg as (_ & Sel).
  apply selected_inv in Sel. destruct Sel as (K & O).
  set (updated := mkTransaction _ _ _ _ _ _ _ _).
  assert (Keep : forall c, In c (categories db) -> In c (categories db1)).
  { destruct R as [(_ & R)|(_ & _ & _ & ->)]; [|auto].
    now destruct (resolve_frame _ _ _ _ _ _ _ _ R) as (_ & _ & Keep). }
  split; [reflexivity|]. split; [|split; [|split; [exact Keep|]]].
  - rewrite map_map. apply map_ext_in. intros t _.
    destruct (tx_selected u tid t) eqn:S; [|reflexivity].
    apply selected_inv in S. simpl. destruct S as (S & _). congruence.
  - rewrite map_map. apply map_ext_in. intros t _.
    destruct (tx_selected u tid t) eqn:S; [|reflexivity].
    apply selected_inv in S. simpl. destruct S as (_ & S). congruence.
  - intros v Hv. clear E.
    induction (transactions db) as [|t l IH]; simpl; [reflexivity|].
    destruct (tx_selected u tid t) eqn:S.
    + apply selected_inv in S. destruct S as (_ & S).
      assert (Ou : owned_by v updated = false).
      { apply not_true_iff_false. intros X. apply owned_by_iff in X.
        simpl in X. congruence. }
      assert (Ot : owned_by v t = false).
      { apply not_true_iff_false. intros X. apply owned_by_iff in X.
        congruence. }
      rewrite Ou, Ot. exact IH.
    + destruct (owned_by v t); [now rewrite IH | exact IH].
Qed.

(** X15.  Whatever its outcome, [updateTransaction] leaves goals as they
    are, keeps the number, the order, the ids and the owners of the
    transactions, removes no category, and does not change a transaction
    of another account. *)
Theorem updateTransaction_frame
    (isoMonth date_in : string -> option string) (db : Db) (u tid : string)
    (upd : TransactionUpdates) (nid : string) :
  let db' := snd (updateTransaction isoMonth date_in db u tid upd nid) in
  monthly_goals db' = monthly_goals db /\
  map tx_id (transactions db') = map tx_id (transactions db) /\
  map tx_user_id (transactions db') = map tx_user_id (transactions db) /\
  (forall c, In c (categories db) -> In c (categories db')) /\
  (forall v, v <> u ->
     filter (owned_by v) (transactions db') =
     filter (owned_by v) (transactions db)).
Proof.
  exact (updateTransaction_frame_aux isoMonth date_in db u tid upd nid).
Qed.

Lemma updateTransaction_frame_witness :
  filter (owned_by alice)
    (transactions
       (snd (updateTransaction (fun d => Some (substring 0 7 d)) plain_date db0 bob
               (tx_id alices_kibble)
               (mkUpdates None None (Some zero) None None) fresh_id))) =
  filter (owned_by alice) (transactions db0).
Proof.
  apply (updateTransaction_frame (fun d => Some (substring 0 7 d)) plain_date db0 bob
           (tx_id alices_kibble) (mkUpdates None None (Some zero) None None)
           fresh_id).
  discriminate.
Defined.

(** X16.  An id under which the caller has no transaction gives the
    failure "Transaction not found" with status 404 and no write, whether
    the id is the id of no transaction, of a transaction of another
    account, or no uuid at all: the three are answered alike. *)
Theorem updateTransaction_not_found
    (isoMonth date_in : string -> option string) (db : Db) (u tid : string)
    (upd : TransactionUpdates) (nid : string) :
  (forall t, In t (transactions db) -> uuid_in tid = Some (tx_id t) ->
             tx_user_id t <> u) ->
  updateTransaction isoMonth date_in db u tid upd nid =
    (Err (createError "Transaction not found" 404), db).
Proof.
  intros H. unfold updateTransaction.
  rewrite filter_none; [reflexivity|].
  intros t I. apply not_true_iff_false. intros S.
  apply selected_inv in S. destruct S as (K & O). now apply (H t I K).
Qed.

Lemma updateTransaction_not_found_witness :
  updateTransaction (fun d => Some (substring 0 7 d)) plain_date db0 bob
    (tx_id alices_kibble) (mkUpdates None None (Some zero) None None) fresh_id =
    (Err (createError "Transaction not found" 404), db0) /\
  updateTransaction (fun d => Some (substring 0 7 d)) plain_date db0 bob
    "70000000-0000-4000-8000-00000000ffff"
    (mkUpdates None None (Some zero) None None) fresh_id =
    (Err (createError "Transaction not found" 404), db0).
Proof.
  split.
  - apply (updateTransaction_not_found (fun d => Some (substring 0 7 d)) plain_date db0 bob
             (tx_id alices_kibble)).
    simpl. intros t [<-|[]] _. discriminate.
  - apply (updateTransaction_not_found (fun d => Some (substring 0 7 d)) plain_date db0 bob
             "70000000-0000-4000-8000-00000000ffff").
    simpl. intros t [<-|[]] E; discriminate E.
Defined.

(** X17.  A successful [updateTransaction] acts on a transaction of the
    caller: id and owner stay; the amount is the amount of the request as
    the DECIMAL(12,2) column holds it where the request gives one and the
    stored amount otherwise; the description is that of the request where
    it gives one and the stored one otherwise; without a date both date
    and month stay, with a date the date is the calendar day the DATE
    column made of it and the month is the month of the date as the
    request wrote it; without a category the category stays and the
    categories table is untouched, with one the transaction is recorded
    under a category of the resulting store that the caller may see.  An
    amount or a date that the store refuses gives no success. *)
Theorem updateTransaction_fields
    (isoMonth date_in : string -> option string) (db db' : Db) (u tid : string)
    (upd : TransactionUpdates) (nid : string) (updated : Transaction) :
  updateTransaction isoMonth date_in db u tid upd nid = (Ok updated, db') ->
  exists existing,
    In existing (transactions db) /\
    uuid_in tid = Some (tx_id existing) /\ tx_user_id existing = u /\
    tx_id updated = tx_id existing /\ tx_user_id updated = u /\
    match upd_amount upd with
    | Some a => numeric_12_2 a = Some (amount updated)
    | None => amount updated = amount existing
    end /\
    description updated =
      nullish (upd_description upd) (description existing) /\
    ((truthy_opt (upd_date upd) = false /\
      date updated = date existing /\ month updated = month existing) \/
     (exists d, upd_date upd = Some d /\ truthy d = true /\
                date_in d = Some (date updated) /\
                isoMonth d = Some (month updated))) /\
    ((truthy_opt (upd_category_id upd) ||
      truthy_opt (upd_category_name upd) = false /\
      category_id updated = category_id existing /\
      category_name updated = category_name existing /\
      categories db' = categories db) \/
     (truthy_opt (upd_category_id upd) ||
      truthy_opt (upd_category_name upd) = true /\
      exists c, In c (categories db') /\ cat_id c = category_id updated /\
                cat_name c = category_name updated /\ visible u c = true)) /\
    In updated (transactions db').
Proof.
  intros H.
  destruct (updateTransaction_cases isoMonth date_in db u tid upd nid)
    as [(_ & E)|(existing & Sg & [(d & _ & _ & _ & E)|
         (newDate & mon & Dated & [(_ & E)|(cid & cname & db1 & R &
           [(_ & E)|(a & d & A & D & E)])])])];
    rewrite E in H; try discriminate.
  inversion H; subst; clear H. simpl.
  apply single_selected in Sg. destruct Sg as (I & Sel).
  pose proof (selected_inv _ _ _ Sel) as (K & O).
  exists existing. repeat (split; [assumption || reflexivity|]).
  split; [|split; [reflexivity|split; [|split]]].
  - unfold written_amount in A. destruct (upd_amount upd); congruence.
  - destruct Dated as [(Dn & Dd & ->)|(d0 & Dn & T & Dd & M)].
    + left. inversion Dd. auto.
    + right. exists d0. auto.
  - destruct R as [(Named & R)|(Named & -> & -> & ->)]; [right | left; auto].
    split; [assumption|].
    apply (resolve_result_visible _ _ _ _ _ _ _ _ _ R).
  - apply in_map_iff. exists existing. now rewrite Sel.
Qed.

Lemma updateTransaction_fields_witness :
  In (mkTransaction (tx_id alices_kibble) alice (cat_id utilities) "Utilities"
                    (dec 1235 2) "kibble" "2024-06-01" "2024-06")
     (transactions
        (snd (updateTransaction (fun d => Some (substring 0 7 d)) plain_date
                db0 alice (tx_id alices_kibble) kibble_moved fresh_id))).
Proof.
  destruct (updateTransaction_fields (fun d => Some (substring 0 7 d))
              plain_date db0
              (snd (updateTransaction (fun d => Some (substring 0 7 d))
                      plain_date db0 alice (tx_id alices_kibble) kibble_moved
                      fresh_id))
              alice (tx_id alices_kibble) kibble_moved fresh_id
              (mkTransaction (tx_id alices_kibble) alice (cat_id utilities)
                             "Utilities" (dec 1235 2) "kibble" "2024-06-01"
                             "2024-06"))
    as (existing & _ & _ & _ & _ & _ & _ & _ & _ & _ & I).
  - vm_compute. reflexivity.
  - exact I.
Defined.

(** An amount of 12 digits before the point ends in the failure of the
    update, and the row stays as it was. *)
Example updateTransaction_refused :
  updateTransaction (fun d => Some (substring 0 7 d)) plain_date db0 alice
    (tx_id alices_kibble)
    (mkUpdates None None (Some (num (10 ^ 10))) None None) fresh_id =
  (Err (createError "Failed to update transaction" 500), db0).
Proof. vm_compute. reflexivity. Qed.

Lemma filter_selected_unique (u tid : string) (l : list Transaction)
    (t0 : Transaction) :
  NoDup (map tx_id l) -> In t0 l ->
  uuid_in tid = Some (tx_id t0) -> tx_user_id t0 = u ->
  filter (tx_selected u tid) l = [t0] /\
  forall t, In t l -> tx_selected u tid t = true -> t = t0.
Proof.
  intros N I K O.
  assert (Eq : forall t, tx_selected u tid t =
                 String.eqb (tx_id t) (tx_id t0) &&
                 String.eqb (tx_user_id t) u).
  { intros t. unfold tx_selected, id_is. now rewrite K. }
  split.
  - rewrite (filter_ext _ _ Eq).
    apply (filter_unique_key tx_id (fun t => String.eqb (tx_user_id t) u)
             l t0 N I).
    now apply String.eqb_eq.
  - intros t It S. rewrite Eq in S. apply andb_true_iff in S.
    destruct S as (S & _). apply String.eqb_eq in S.
    apply (same_key_same_row tx_id l t t0 N It I S).
Qed.

(** X18.  An update that gives no field (or gives empty texts for
    category and date) succeeds on a transaction of the caller, returns
    the stored row and leaves the store exactly as it was. *)
Theorem updateTransaction_nothing_given
    (isoMonth date_in : string -> option string) (db : Db) (u tid : string)
    (upd : TransactionUpdates) (nid : string) (t0 : Transaction) :
  NoDup (map tx_id (transactions db)) -> In t0 (transactions db) ->
  uuid_in tid = Some (tx_id t0) -> tx_user_id t0 = u ->
  truthy_opt (upd_category_id upd) = false ->
  truthy_opt (upd_category_name upd) = false ->
  truthy_opt (upd_date upd) = false ->
  upd_amount upd = None -> upd_description upd = None ->
  updateTransaction isoMonth date_in db u tid upd nid = (Ok t0, db).
Proof.
  intros N I K O Ci Cn D A Ds.
  destruct (filter_selected_unique u tid _ t0 N I K O) as (F & Uq).
  unfold updateTransaction. rewrite F. simpl.
  assert (Dt : match upd_date upd with
               | Some d => if truthy d
                           then match isoMonth d with
                                | Some m => Some (date_in d, m)
                                | None => None
                                end
                           else Some (Some (date t0), month t0)
               | None => Some (Some (date t0), month t0)
               end = Some (Some (date t0), month t0)).
  { destruct (upd_date upd) as [d|]; [|reflexivity]. simpl in D. now rewrite D. }
  rewrite Dt, Ci, Cn, A, Ds. simpl.
  assert (E : mkTransaction (tx_id t0) (tx_user_id t0) (category_id t0)
                (category_name t0) (amount t0) (description t0) (date t0)
                (month t0) = t0) by now destruct t0.
  rewrite E. f_equal. rewrite <- (Db_eta db) at 4. f_equal.
  rewrite <- (map_id (transactions db)) at 2. apply map_ext_in.
  intros t It. destruct (tx_selected u tid t) eqn:S; [|reflexivity].
  symmetry. now apply Uq.
Qed.

Lemma updateTransaction_nothing_given_witness :
  updateTransaction (fun d => Some (substring 0 7 d)) plain_date db0 alice
    "70000000-0000-4000-8000-000000000001"
    (mkUpdates (Some EmptyString) None None None None) fresh_id =
    (Ok alices_kibble, db0).
Proof.
  apply (updateTransaction_nothing_given (fun d => Some (substring 0 7 d)) plain_date db0
           alice "70000000-0000-4000-8000-000000000001"
           (mkUpdates (Some EmptyString) None None None None) fresh_id
           alices_kibble).
  - repeat constructor; simpl; intuition discriminate.
  - simpl. now left.
  - reflexivity.
  - reflexivity.
  - reflexivity.
  - reflexivity.
  - reflexivity.
  - reflexivity.
  - reflexivity.
Defined.

Lemma updateTransaction_keeps_sound
    (isoMonth date_in : string -> option string) (db : Db) (u tid : string)
    (upd : TransactionUpdates) (nid : string) :
  categories_keyed db -> transactions_sound db ->
  let db' := snd (updateTransaction isoMonth date_in db u tid upd nid) in
  categories_keyed db' /\ transactions_sound db'.
Proof.
  intros Kc (Nt & S). cbv zeta.
  destruct (updateTransaction_cases isoMonth date_in db u tid upd nid)
    as [(_ & E)|(existing & Sg & [(d & _ & _ & _ & E)|
         (newDate & mon & Dated & [(_ & E)|(cid & cname & db1 & R &
           [(_ & E)|(a & d & _ & _ & E)])])])];
    rewrite E; simpl;
    try (split; [exact Kc | split; assumption]).
  { destruct R as [(_ & R)|(_ & _ & _ & ->)];
      [|split; [exact Kc | split; assumption]].
    destruct (resolve_frame _ _ _ _ _ _ _ _ R) as (G & Tx & Keep).
    split; [eapply resolve_keeps_keys; eauto|]. split.
    - now rewrite Tx.
    - rewrite Tx. intros t I. destruct (S t I) as (c & Ic & Ec & V).
      exists c. auto. }
  apply single_selected in Sg. destruct Sg as (Ie & Sel).
  pose proof (selected_inv _ _ _ Sel) as (K & O).
  set (updated := mkTransaction _ _ _ _ _ _ _ _).
  assert (Keep : forall c, In c (categories db) -> In c (categories db1)).
  { destruct R as [(_ & R)|(_ & _ & _ & ->)]; [|auto].
    now destruct (resolve_frame _ _ _ _ _ _ _ _ R) as (_ & _ & Keep). }
  assert (Kc1 : categories_keyed db1).
  { destruct R as [(_ & R)|(_ & _ & _ & ->)]; [|auto].
    eapply resolve_keeps_keys; eauto. }
  split; [exact Kc1|]. split; simpl.
  - replace (map tx_id (map (fun t => if tx_selected u tid t then updated else t)
                            (transactions db)))
      with (map tx_id (transactions db)); [exact Nt|].
    rewrite map_map. apply map_ext_in. intros t _.
    destruct (tx_selected u tid t) eqn:St; [|reflexivity].
    apply selected_inv in St. simpl. destruct St as (St & _). congruence.
  - intros t I. apply in_map_iff in I. destruct I as (t1 & Et & I1).
    destruct (tx_selected u tid t1) eqn:St.
    + subst t. simpl.
      destruct R as [(_ & R)|(_ & -> & -> & ->)].
      * destruct (resolve_result_visible _ _ _ _ _ _ _ _ _ R)
          as (c & Ic & Ec & _ & V). exists c. rewrite O. auto.
      * destruct (S existing Ie) as (c & Ic & Ec & V). exists c. auto.
    + subst t1. destruct (S t I1) as (c & Ic & Ec & V). exists c. auto.
Qed.

(* ================================================================== *)
(** * The writes and the constraints of the store *)

Lemma createMonthlyGoal_frame
    (db : Db) (u : string) (d : CreateMonthlyGoalRequest) (new_id : string) :
  categories (snd (createMonthlyGoal db u d new_id)) = categories db /\
  transactions (snd (createMonthlyGoal db u d new_id)) = transactions db.
Proof.
  unfold createMonthlyGoal.
  destruct (numeric_12_2 (req_income d)) as [inc|]; [|simpl; auto].
  destruct (existsb _ (monthly_goals db)).
  - destruct (single _); simpl; auto.
  - destruct (existsb _ (monthly_goals db)); simpl; auto.
Qed.

Lemma createMonthlyGoal_keeps_unique
    (db : Db) (u : string) (d : CreateMonthlyGoalRequest) (new_id : string) :
  goals_unique db -> goals_unique (snd (createMonthlyGoal db u d new_id)).
Proof.
  intros N. unfold createMonthlyGoal.
  destruct (numeric_12_2 (req_income d)) as [inc|]; [|exact N].
  destruct (existsb (goal_key u (req_month d)) (monthly_goals db)) eqn:E.
  - destruct (single _); simpl; [|exact N].
    unfold goals_unique. simpl.
    rewrite (upd_owner_month u (req_month d)); [exact N|].
    intros g. reflexivity.
  - destruct (existsb (fun g => String.eqb (goal_id g) new_id)
                      (monthly_goals db)); simpl; [exact N|].
    unfold goals_unique. simpl. rewrite map_app. simpl.
    apply NoDup_snoc; [exact N|].
    intros I. apply in_map_iff in I. destruct I as (g & Eg & I).
    apply not_true_iff_false in E. apply E.
    apply existsb_exists. exists g. split; [assumption|].
    apply goal_key_iff. unfold goal_owner_month in Eg. simpl in Eg.
    now inversion Eg.
Qed.

Lemma createCategory_frame
    (db : Db) (u : string) (d : CategoryData) (new_id : string) :
  monthly_goals (snd (createCategory db u d new_id)) = monthly_goals db /\
  transactions (snd (createCategory db u d new_id)) = transactions db /\
  (forall c, In c (categories db) ->
             In c (categories (snd (createCategory db u d new_id)))) /\
  (categories_keyed db ->
   categories_keyed (snd (createCategory db u d new_id))).
Proof.
  unfold createCategory.
  destruct (insert_category db _) as [db'|] eqn:I; simpl.
  - pose proof I as I'. unfold insert_category in I'.
    destruct (category_conflict _ _); [discriminate|].
    inversion I'; subst db'. simpl.
    split; [reflexivity|]. split; [reflexivity|]. split.
    + intros c Ic. apply in_or_app. now left.
    + intros K. eapply insert_category_keyed; eauto.
  - auto.
Qed.

Lemma deleteCategory_frame (db : Db) (u categoryId : string) :
  monthly_goals (snd (deleteCategory db u categoryId)) = monthly_goals db /\
  (forall t, In t (transactions (snd (deleteCategory db u categoryId))) ->
             In t (transactions db)).
Proof.
  unfold deleteCategory. destruct (uuid_in categoryId); simpl.
  - split; [reflexivity|]. intros t I. apply filter_In in I. tauto.
  - auto.
Qed.

Lemma createTransaction_goals
    (isoMonth date_in : string -> option string) (db : Db) (u : string)
    (data : CreateTransactionRequest) (cid nid : string) :
  monthly_goals (snd (createTransaction isoMonth date_in db u data cid nid)) =
  monthly_goals db.
Proof.
  unfold createTransaction.
  destruct (isoMonth (ctr_date data)); [|reflexivity].
  destruct (resolveCategoryId db u _ _ true cid) as [[[id name]|] db1] eqn:R;
    destruct (resolve_frame _ _ _ _ _ _ _ _ R) as (G & _).
  - destruct (numeric_12_2 (ctr_amount data)); [|exact G].
    destruct (date_in (ctr_date data)); [|exact G].
    destruct (existsb _ (transactions db1)); simpl; exact G.
  - simpl. exact G.
Qed.

Lemma db0_sound : store_sound db0.
Proof.
  split; [exact db0_categories_keyed|].
  split; [exact db0_goals_unique | exact db0_transactions_sound].
Defined.

(** X19.  Every write of the budget service keeps the constraints of the
    store.  From a store in which category ids are unique, no account has
    two categories of one name, no account has two goals for one month,
    transaction ids are unique and every transaction is recorded under a
    category that exists and that its owner may see, each of
    [resolveCategoryId], [createCategory], [deleteCategory],
    [createTransaction], [updateTransaction] and [createMonthlyGoal] leads
    to such a store again, whatever its arguments and whether it succeeds
    or fails. *)
Theorem writes_keep_store_sound
    (isoMonth date_in : string -> option string) (db : Db) (u : string) :
  store_sound db ->
  (forall ref nm cr new_id,
     store_sound (snd (resolveCategoryId db u ref nm cr new_id))) /\
  (forall d new_id, store_sound (snd (createCategory db u d new_id))) /\
  (forall categoryId, store_sound (snd (deleteCategory db u categoryId))) /\
  (forall data new_category_id new_id,
     store_sound
       (snd (createTransaction isoMonth date_in db u data new_category_id
               new_id))) /\
  (forall tid upd new_id,
     store_sound
       (snd (updateTransaction isoMonth date_in db u tid upd new_id))) /\
  (forall d new_id, store_sound (snd (createMonthlyGoal db u d new_id))).
Proof.
  intros (K & G & S).
  split; [|split; [|split; [|split; [|split]]]].
  - intros ref nm cr new_id.
    destruct (resolveCategoryId db u ref nm cr new_id) as [r db'] eqn:R.
    simpl. destruct (resolve_frame _ _ _ _ _ _ _ _ R) as (Eg & Et & Keep).
    split; [eapply resolve_keeps_keys; eauto|].
    split; [unfold goals_unique; now rewrite Eg|].
    destruct S as (Nt & S). split.
    + now rewrite Et.
    + rewrite Et. intros t I. destruct (S t I) as (c & Ic & Ec & V).
      exists c. auto.
  - intros d new_id.
    destruct (createCategory_frame db u d new_id) as (Eg & Et & Keep & Kk).
    split; [now apply Kk|].
    split; [unfold goals_unique; now rewrite Eg|].
    destruct S as (Nt & S). split.
    + now rewrite Et.
    + rewrite Et. intros t I. destruct (S t I) as (c & Ic & Ec & V).
      exists c. auto.
  - intros categoryId.
    destruct (deleteCategory_keeps_sound db u categoryId K S) as (K' & S').
    destruct (deleteCategory_frame db u categoryId) as (Eg & Sub).
    split; [exact K'|].
    split; [unfold goals_unique; now rewrite Eg | exact S'].
  - intros data cid nid.
    destruct (createTransaction_keeps_sound isoMonth date_in db u data cid nid K S)
      as (K' & S').
    split; [exact K'|].
    split; [unfold goals_unique; now rewrite createTransaction_goals|].
    exact S'.
  - intros tid upd nid.
    destruct (updateTransaction_keeps_sound isoMonth date_in db u tid upd nid K S)
      as (K' & S').
    destruct (updateTransaction_frame_aux isoMonth date_in db u tid upd nid)
      as (Eg & _).
    split; [exact K'|].
    split; [unfold goals_unique; now rewrite Eg | exact S'].
  - intros d new_id.
    destruct (createMonthlyGoal_frame db u d new_id) as (Ec & Et).
    split; [|split; [now apply createMonthlyGoal_keeps_unique|]].
    + destruct K as (N & U). split; rewrite Ec; assumption.
    + destruct S as (Nt & S). split; rewrite Et; [assumption|].
      rewrite Ec. exact S.
Qed.

Lemma writes_keep_store_sound_witness :
  store_sound (snd (deleteCategory db0 alice (cat_id alices_pets))) /\
  store_sound
    (snd (createTransaction (fun d => Some (substring 0 7 d)) plain_date db0
            alice
            (mkTransactionRequest "coffee-shops" None (num 4) "latte"
                                  "2024-05-04")
            fresh_id "70000000-0000-4000-8000-000000000002")).
Proof.
  pose proof (writes_keep_store_sound (fun d => Some (substring 0 7 d))
                plain_date db0 alice db0_sound) as (_ & _ & D & T & _).
  split; [apply D | apply T].
Defined.

(* ================================================================== *)
(** * The reads of the current month *)


Lemma of_month_owned (cm v : string) (l : list Transaction) :
  filter (of_month cm v) l =
  filter (fun t => String.eqb (month t) cm) (filter (owned_by v) l).
Proof.
  induction l as [|t l IH]; simpl; [reflexivity|].
  unfold of_month at 1, owned_by at 1.
  destruct (String.eqb (tx_user_id t) v); simpl.
  - destruct (String.eqb (month t) cm); now rewrite IH.
  - exact IH.
Qed.



(** ** Goals *)

Lemma goal_filter_other (u m v m' : string)
    (put : MonthlyGoal -> MonthlyGoal) (l : list MonthlyGoal) :
  (forall g, goal_owner_month (put g) = (u, m)) ->
  (v, m') <> (u, m) ->
  filter (goal_key v m') (map (fun g => if goal_key u m g then put g else g) l)
  = filter (goal_key v m') l.
Proof.
  intros Pk N. induction l as [|g l IH]; simpl; [reflexivity|].
  rewrite IH. destruct (goal_key u m g) eqn:K; [|reflexivity].
  assert (A : goal_key v m' (put g) = false).
  { apply not_true_iff_false. intros A. apply goal_key_iff in A.
    rewrite Pk in A. now apply N. }
  assert (B : goal_key v m' g = false).
  { apply not_true_iff_false. intros B. apply goal_key_iff in B, K.
    rewrite K in B. now apply N. }
  now rewrite A, B.
Qed.

Lemma createMonthlyGoal_other_keys
    (db : Db) (u : string) (d : CreateMonthlyGoalRequest) (new_id : string)
    (v m : string) :
  (v, m) <> (u, req_month d) ->
  filter (goal_key v m) (monthly_goals (snd (createMonthlyGoal db u d new_id)))
  = filter (goal_key v m) (monthly_goals db).
Proof.
  intros N. unfold createMonthlyGoal.
  destruct (numeric_12_2 (req_income d)) as [inc|]; [|reflexivity].
  destruct (existsb (goal_key u (req_month d)) (monthly_goals db)).
  - destruct (single _); simpl; [|reflexivity].
    apply goal_filter_other; [intros g; reflexivity | exact N].
  - destruct (existsb _ (monthly_goals db)); simpl; [reflexivity|].
    rewrite filter_app. simpl.
    assert (A : goal_key v m
                  (mkMonthlyGoal new_id u (req_month d) inc
                                 (map stored_expense (req_expenses d)))
                = false).
    { apply not_true_iff_false. intros A. apply goal_key_iff in A.
      unfold goal_owner_month in A. simpl in A. now apply N. }
    rewrite A. now rewrite app_nil_r.
Qed.



(** ** The dashboard of an account *)

Lemma dashboard_ext
    (cm : string) (date_after : string -> string -> bool)
    (db db' : Db) (v : string) :
  filter (goal_key v cm) (monthly_goals db') =
    filter (goal_key v cm) (monthly_goals db) ->
  filter (owned_by v) (transactions db') =
    filter (owned_by v) (transactions db) ->
  getDashboardSummaryOf cm date_after db' v =
  getDashboardSummaryOf cm date_after db v.
Proof.
  intros G T.
  unfold getDashboardSummaryOf, getCurrentMonthlyGoal,
    getCurrentMonthTransactions.
  now rewrite !of_month_owned, G, T.
Qed.

Lemma createTransaction_other_accounts
    (isoMonth date_in : string -> option string) (db : Db) (u v : string)
    (data : CreateTransactionRequest) (cid nid : string) :
  v <> u ->
  filter (owned_by v)
         (transactions
            (snd (createTransaction isoMonth date_in db u data cid nid))) =
  filter (owned_by v) (transactions db).
Proof.
  intros N.
  destruct (createTransaction_cases isoMonth date_in db u data cid nid)
    as [(_ & E)|(mon & M & [(_ & E)|(id & name & db1 & R &
         [(_ & E)|(a & d & _ & _ & F & E)])])];
    rewrite E; simpl; try reflexivity;
    destruct (resolve_frame _ _ _ _ _ _ _ _ R) as (_ & T & _);
    try (now rewrite T).
  rewrite filter_app. simpl.
  assert (O : owned_by v
                (mkTransaction nid u id name a (ctr_description data) d mon)
              = false).
  { apply not_true_iff_false. intros O. apply owned_by_iff in O.
    simpl in O. now apply N. }
  rewrite O. now rewrite app_nil_r.
Qed.

(** X23.  No write of an account changes the dashboard of another one.
    For [v] other than [u] the summary of [v], for any month, is the same
    after a call of [createMonthlyGoal], [createTransaction],
    [updateTransaction] or [createCategory] by [u], whatever the
    arguments; it is the same after a [deleteCategory] by [u] when
    category ids are unique and every transaction is recorded under a
    category its owner may see. *)
Theorem dashboard_of_other_accounts
    (currentMonth : string) (date_after : string -> string -> bool)
    (isoMonth date_in : string -> option string) (db : Db) (u v : string) :
  v <> u ->
  let same db' :=
    getDashboardSummaryOf currentMonth date_after db' v =
    getDashboardSummaryOf currentMonth date_after db v in
  (forall d new_id, same (snd (createMonthlyGoal db u d new_id))) /\
  (forall data new_category_id new_id,
     same (snd (createTransaction isoMonth date_in db u data new_category_id
                  new_id))) /\
  (forall tid upd new_id,
     same (snd (updateTransaction isoMonth date_in db u tid upd new_id))) /\
  (forall d new_id, same (snd (createCategory db u d new_id))) /\
  (NoDup (map cat_id (categories db)) -> transactions_sound db ->
   forall categoryId, same (snd (deleteCategory db u categoryId))).
Proof.
  intros N same. subst same. cbv beta.
  split; [|split; [|split; [|split]]].
  - intros d new_id. apply dashboard_ext.
    + apply createMonthlyGoal_other_keys. intros E. inversion E. now apply N.
    + destruct (createMonthlyGoal_frame db u d new_id) as (_ & T).
      now rewrite T.
  - intros data cid nid. apply dashboard_ext.
    + now rewrite createTransaction_goals.
    + now apply createTransaction_other_accounts.
  - intros tid upd nid.
    destruct (updateTransaction_frame_aux isoMonth date_in db u tid upd nid)
      as (G & _ & _ & _ & O).
    apply dashboard_ext; [now rewrite G | now apply O].
  - intros d new_id.
    destruct (createCategory_frame db u d new_id) as (G & T & _).
    apply dashboard_ext; [now rewrite G | now rewrite T].
  - intros Nd S categoryId.
    destruct (deleteCategory_frame db u categoryId) as (G & _).
    destruct (deleteCategory_other_accounts_aux db u v categoryId Nd S N)
      as (O & _).
    apply dashboard_ext; [now rewrite G | exact O].
Qed.

Lemma dashboard_of_other_accounts_witness :
  getDashboardSummaryOf "2024-05" String.ltb
    (snd (deleteCategory db0 bob (cat_id bobs_savings))) alice =
  getDashboardSummaryOf "2024-05" String.ltb db0 alice.
Proof.
  assert (N : alice <> bob) by discriminate.
  pose proof (dashboard_of_other_accounts "2024-05" String.ltb
                (fun d => Some (substring 0 7 d)) plain_date db0 bob alice N)
    as H.
  cbv zeta in H. destruct H as (_ & _ & _ & _ & H).
  apply H; [exact db0_ids_unique | exact db0_transactions_sound].
Defined.
(* ================================================================== *)
(** * The groups of the dashboard for whole amounts *)

Section WholeAmounts.
Import Number.

Variable units : Transaction -> Z.

Lemma Zsum_app (l l' : list Z) : Zsum (l ++ l') = (Zsum l + Zsum l')%Z.
Proof. induction l as [|x l IH]; simpl; lia. Qed.

Lemma group_units_snoc (k : string) (ts : list Transaction) (t : Transaction) :
  group_units units k (ts ++ [t]) =
  (group_units units k ts +
   (if String.eqb (category_name t) k then units t else 0))%Z.
Proof.
  unfold group_units. rewrite filter_app, map_app, Zsum_app. simpl.
  destruct (String.eqb (category_name t) k); simpl; lia.
Qed.

Lemma group_units_absent (k : string) (ts : list Transaction) :
  ~ In k (names ts) -> group_units units k ts = 0%Z.
Proof.
  unfold group_units, names. induction ts as [|t ts IH]; simpl; intros N.
  - reflexivity.
  - destruct (String.eqb (category_name t) k) eqn:E.
    + apply String.eqb_eq in E. tauto.
    + apply IH. tauto.
Qed.

Lemma units_abs_nonneg (ts : list Transaction) :
  (0 <= Zsum (map (fun t => Z.abs (units t)) ts))%Z.
Proof. induction ts as [|t ts IH]; simpl; lia. Qed.

Lemma group_units_bound (k : string) (ts : list Transaction) :
  (Z.abs (group_units units k ts) <=
   Zsum (map (fun t => Z.abs (units t)) ts))%Z.
Proof.
  unfold group_units. induction ts as [|t ts IH]; simpl; [lia|].
  destruct (String.eqb (category_name t) k); simpl; lia.
Qed.

Lemma whole_amounts_snoc (ts : list Transaction) (t : Transaction) :
  whole_amounts units (ts ++ [t]) ->
  whole_amounts units ts /\ amount t = num (units t) /\
  (Z.abs (units t) + Zsum (map (fun t => Z.abs (units t)) ts) < 2 ^ 52)%Z.
Proof.
  intros (A & B). rewrite map_app, Zsum_app in B. simpl in B.
  pose proof (units_abs_nonneg ts) as Nn.
  split; [split|split].
  - intros x I. apply A. apply in_or_app. now left.
  - lia.
  - apply A. apply in_or_app. right. now left.
  - lia.
Qed.

(** With plain names and whole amounts the accumulator holds under every
    name the sum of its group, unrounded. *)
Lemma categoryTotals_whole (ts : list Transaction) :
  plain_names ts -> whole_amounts units ts ->
  forall k v, own (categoryTotals ts) k = Some v ->
    v = VNum (num (group_units units k ts)).
Proof.
  induction ts as [|t ts IH] using rev_ind; intros P W k v.
  - discriminate.
  - assert (P' : plain_names ts).
    { intros x I. apply P. apply in_or_app. now left. }
    destruct (whole_amounts_snoc ts t W) as (W' & At & Bt).
    specialize (IH P' W').
    destruct (categoryTotals_plain ts P') as (N & M & _ & _).
    assert (Pt : inherited (category_name t) = false).
    { apply P. apply in_or_app. right. now left. }
    rewrite categoryTotals_snoc. unfold add_transaction, set.
    set (acc := categoryTotals ts) in *. set (kt := category_name t) in *.
    assert (Kp : String.eqb kt "__proto__" = false).
    { destruct (String.eqb kt "__proto__") eqn:E; [|reflexivity].
      apply String.eqb_eq in E. rewrite E in Pt. discriminate. }
    rewrite Kp, own_put, group_units_snoc. fold kt.
    pose proof (group_units_bound kt ts) as Gb.
    destruct (String.eqb kt k) eqn:E.
    + apply String.eqb_eq in E. subst k.
      intros H. inversion H as [Hv]. clear H Hv.
      unfold get. destruct (own acc kt) as [v0|] eqn:Ow.
      * rewrite (IH kt v0 Ow). unfold or_else, toBoolean.
        pose proof (or_zero_num (group_units units kt ts)) as Oz.
        unfold or_zero in Oz.
        destruct (truthy_number (num (group_units units kt ts)));
          unfold plus; [|rewrite Oz by lia]; rewrite At;
          now rewrite num_add by lia.
      * rewrite Pt. unfold or_else, toBoolean, plus. rewrite At.
        change zero with (num 0). rewrite num_add by lia.
        rewrite group_units_absent; [reflexivity|].
        rewrite <- M. now apply own_None.
    + intros H. rewrite (IH k v H). do 2 f_equal. lia.
Qed.

Lemma lt_num_zero (z : Z) :
  (Z.abs z < 2 ^ 53)%Z -> lt (num z) zero = (z <? 0)%Z.
Proof.
  intros B. rewrite (num_canon z B). destruct z; reflexivity.
Qed.

Lemma byAmountDesc_whole (a b : TopCategory) (za zb : Z) :
  top_amount a = VNum (num za) -> top_amount b = VNum (num zb) ->
  (Z.abs za < 2 ^ 52)%Z -> (Z.abs zb < 2 ^ 52)%Z ->
  precedes byAmountDesc a b = (zb <? za)%Z.
Proof.
  intros A B Ba Bb. unfold precedes, byAmountDesc, minus. rewrite A, B.
  rewrite num_sub by lia. rewrite lt_num_zero by lia.
  destruct (Z.ltb_spec (zb - za) 0), (Z.ltb_spec zb za); lia || reflexivity.
Qed.

Variable z : TopCategory -> Z.

Lemma insert_units_sorted (x : TopCategory) (l : list TopCategory) :
  (forall e, In e (x :: l) ->
     top_amount e = VNum (num (z e)) /\ (Z.abs (z e) < 2 ^ 52)%Z) ->
  StronglySorted (fun a b => (z b <= z a)%Z) l ->
  StronglySorted (fun a b => (z b <= z a)%Z) (insert byAmountDesc x l).
Proof.
  induction l as [|y l IH]; simpl; intros Num S.
  - repeat constructor.
  - destruct (Num x (or_introl eq_refl)) as (Hx & Bx).
    destruct (Num y (or_intror (or_introl eq_refl))) as (Hy & By).
    inversion S as [|? ? S' F]; subst.
    rewrite (byAmountDesc_whole y x (z y) (z x) Hy Hx By Bx).
    destruct (Z.ltb_spec (z x) (z y)) as [L|L].
    + constructor.
      * apply IH; [|assumption]. intros e [<-|I]; apply Num; simpl; auto.
      * apply Forall_forall. intros e I. apply insert_In in I.
        destruct I as [->|I]; [lia|].
        rewrite Forall_forall in F. auto.
    + constructor; [assumption|]. constructor; [exact L|].
      eapply Forall_impl; [|exact F]. cbv beta. intros e He. lia.
Qed.

Lemma sort_units_sorted (l : list TopCategory) :
  (forall e, In e l ->
     top_amount e = VNum (num (z e)) /\ (Z.abs (z e) < 2 ^ 52)%Z) ->
  StronglySorted (fun a b => (z b <= z a)%Z) (sort byAmountDesc l).
Proof.
  induction l as [|x l IH]; simpl; intros Num; [constructor|].
  apply insert_units_sorted.
  - intros e [<-|I]; [auto|]. apply Num. right. now apply (sort_In byAmountDesc).
  - apply IH. auto.
Qed.

End WholeAmounts.

Lemma sorted_app_inv {A : Type} (R : A -> A -> Prop) (l1 l2 : list A) :
  StronglySorted R (l1 ++ l2) ->
  StronglySorted R l1 /\ forall a b, In a l1 -> In b l2 -> R a b.
Proof.
  induction l1 as [|x l1 IH]; simpl; intros S.
  - split; [constructor | tauto].
  - inversion S as [|? ? S' F]; subst. destruct (IH S') as (S1 & C).
    rewrite Forall_forall in F. split.
    + constructor; [assumption|]. apply Forall_forall. intros y I.
      apply F. apply in_or_app. now left.
    + intros a b [<-|Ia] Ib; [|auto]. apply F. apply in_or_app. now right.
Qed.

(** X26.  For category names that are no property names of
    [Object.prototype] and amounts that are whole numbers (whose absolute
    values come to less than 2^52), nothing is rounded and [topCategories]
    is made of the largest groups: [totalExpenses] is the sum of all
    amounts; every entry is a category name of the transactions with the
    sum of its amounts and the share of that sum in [totalExpenses], in
    percent as the code divides and multiplies (0 when the total is not
    above 0); the entries are in descending order of their sums, no name
    occurs twice, there are at most five, and a name without an entry
    belongs to a group that is no larger than any of the five entries. *)
Theorem topCategories_largest_groups
    (units : Transaction -> Z) (ts : list Transaction) :
  plain_names ts -> whole_amounts units ts ->
  totalExpenses ts = num (Zsum (map units ts)) /\
  (forall e, In e (topCategories ts) ->
     In (top_category_name e) (names ts) /\
     top_amount e = VNum (num (group_units units (top_category_name e) ts)) /\
     percentage e =
       VNum (if gt (totalExpenses ts) zero
             then mul (div (num (group_units units (top_category_name e) ts))
                           (totalExpenses ts))
                      (num 100)
             else zero)) /\
  StronglySorted
    (fun a b => (group_units units (top_category_name b) ts <=
                 group_units units (top_category_name a) ts)%Z)
    (topCategories ts) /\
  NoDup (map top_category_name (topCategories ts)) /\
  (List.length (topCategories ts) <= 5)%nat /\
  (forall k, In k (names ts) ->
     (exists e, In e (topCategories ts) /\ top_category_name e = k) \/
     (List.length (topCategories ts) = 5%nat /\
      forall e, In e (topCategories ts) ->
        (group_units units k ts <=
         group_units units (top_category_name e) ts)%Z)).
Proof.
  intros P W. destruct (toTop_entries_plain ts P) as (N & M & V).
  destruct (categoryTotals_plain ts P) as (Nk & _ & _ & _).
  pose proof (categoryTotals_whole units ts P W) as Tot.
  pose proof (entries_perm (categoryTotals ts)) as Pe.
  split.
  { destruct W as (A & B). apply totalExpenses_whole.
    - rewrite map_map. apply map_ext_in. exact A.
    - rewrite map_map. eapply Z.lt_trans; [exact B|]. reflexivity. }
  unfold topCategories, slice0.
  set (L := map (toTop ts) (entries (categoryTotals ts))) in *.
  set (S := sort byAmountDesc L).
  set (zof := fun e => group_units units (top_category_name e) ts).
  assert (Num : forall e, In e L ->
            top_amount e = VNum (num (zof e)) /\ (Z.abs (zof e) < 2 ^ 52)%Z).
  { intros e I. apply in_map_iff in I. destruct I as ((k & v) & <- & I).
    apply (Permutation_in _ Pe) in I. apply (In_own _ _ _ Nk) in I.
    unfold zof. simpl. split; [f_equal; exact (Tot k v I)|].
    pose proof (group_units_bound units k ts). destruct W as (_ & B). lia. }
  assert (InS : forall e, In e S <-> In e L) by (intros e; apply sort_In).
  pose proof (sort_units_sorted zof L Num) as Sorted. fold S in Sorted.
  rewrite <- (firstn_skipn 5 S) in Sorted.
  apply sorted_app_inv in Sorted. destruct Sorted as (S1 & Cross).
  assert (Sub : forall e, In e (firstn 5 S) -> In e L).
  { intros e I. apply InS. rewrite <- (firstn_skipn 5 S).
    apply in_or_app. now left. }
  split; [|split; [|split; [|split]]].
  - intros e I. pose proof (Sub e I) as Ie. split; [|split].
    + apply M. exists e. split; [exact Ie | reflexivity].
    + exact (proj1 (Num e Ie)).
    + destruct (V e Ie) as (x & A & Pc). rewrite Pc.
      rewrite (proj1 (Num e Ie)) in A. inversion A as [Ax]. reflexivity.
  - exact S1.
  - assert (NS : NoDup (map top_category_name S)).
    { apply (Permutation_NoDup
               (Permutation_map _ (Permutation_sym (sort_perm byAmountDesc L)))).
      exact N. }
    rewrite <- (firstn_skipn 5 S), map_app in NS.
    now apply NoDup_app_remove_r in NS.
  - apply firstn_le_length.
  - intros k I. apply M in I. destruct I as (e & I & <-).
    apply InS in I. rewrite <- (firstn_skipn 5 S) in I.
    apply in_app_or in I. destruct I as [I|I]; [left; eauto|].
    right. split.
    + rewrite length_firstn. apply Nat.min_l.
      destruct (Nat.le_gt_cases 5 (List.length S)) as [H|H]; [exact H|].
      rewrite skipn_all2 in I by lia. contradiction.
    + intros e' I'. exact (Cross e' e I' I).
Qed.

Lemma topCategories_largest_groups_witness :
  map (fun e => group_units units_of (top_category_name e) six_groups)
      (topCategories six_groups) = [50; 40; 30; 20; 10]%Z /\
  (List.length (topCategories six_groups) = 5%nat /\
   forall e, In e (topCategories six_groups) ->
     (group_units units_of "E" six_groups <=
      group_units units_of (top_category_name e) six_groups)%Z).
Proof.
  assert (P : plain_names six_groups).
  { intros t [<-|[<-|[<-|[<-|[<-|[<-|[]]]]]]]; reflexivity. }
  assert (W : whole_amounts units_of six_groups).
  { split.
    - intros t [<-|[<-|[<-|[<-|[<-|[<-|[]]]]]]]; vm_compute; reflexivity.
    - vm_compute. reflexivity. }
  destruct (topCategories_largest_groups units_of six_groups P W)
    as (_ & _ & _ & _ & _ & H).
  split; [vm_compute; reflexivity|].
  destruct (H "E") as [(e & I & E)|R].
  - simpl. tauto.
  - exfalso. vm_compute in I.
    destruct I as [<-|[<-|[<-|[<-|[<-|[]]]]]]; discriminate E.
  - exact R.
Defined.

(** ** The totals and the order of the rows *)

Lemma Zsum_perm (l l' : list Z) : Permutation l l' -> Zsum l = Zsum l'.
Proof.
  induction 1 as [|x l l' P IH|x y l|l l' l'' P1 IH1 P2 IH2]; simpl; lia.
Qed.

Lemma totalExpenses_rows (units : Transaction -> Z) (l l' : list Transaction) :
  whole_amounts units l -> Permutation l' l ->
  totalExpenses l' = num (Zsum (map units l)).
Proof.
  intros (A & B) Pm.
  rewrite (Zsum_perm _ _ (Permutation_map units (Permutation_sym Pm))).
  apply totalExpenses_whole.
  - rewrite map_map. apply map_ext_in. intros t I. apply A.
    now apply (Permutation_in _ Pm).
  - rewrite map_map.
    rewrite (Zsum_perm _ _ (Permutation_map (fun t => Z.abs (units t)) Pm)).
    eapply Z.lt_trans; [exact B | reflexivity].
Qed.

(** The three amounts 0.1, 0.2 and 0.3 add up to 0.6000000000000001 in
    this order and to 0.6 in the opposite one. *)
Example totalExpenses_order_matters :
  totalExpenses [spend "A" (dec 1 1); spend "A" (dec 2 1); spend "A" (dec 3 1)]
    = S754_finite false 5404319552844596 (-53) /\
  totalExpenses [spend "A" (dec 3 1); spend "A" (dec 2 1); spend "A" (dec 1 1)]
    = S754_finite false 5404319552844595 (-53).
Proof. split; vm_compute; reflexivity. Qed.

(** X24.  For amounts that are whole numbers (whose absolute values come
    to less than 2^52) the totals of the dashboard of an account are
    functions of the table, not of the order in which the store returns
    the rows: the total of the expenses is the sum of the amounts of the
    transactions of the account in the month, and for any two orders on
    dates the expenses, the savings and the progress of the month are the
    same numbers; the goal, the income and the expected savings are the
    same whatever the amounts. *)
Theorem dashboard_totals_of_table
    (currentMonth : string) (date_after date_after' : string -> string -> bool)
    (db : Db) (u : string) (units : Transaction -> Z) :
  whole_amounts units (filter (of_month currentMonth u) (transactions db)) ->
  let s := getDashboardSummaryOf currentMonth date_after db u in
  let s' := getDashboardSummaryOf currentMonth date_after' db u in
  sum_totalExpenses s =
    num (Zsum (map units
                   (filter (of_month currentMonth u) (transactions db)))) /\
  sum_totalExpenses s = sum_totalExpenses s' /\
  sum_actualSavings s = sum_actualSavings s' /\
  sum_monthlyProgress s = sum_monthlyProgress s' /\
  sum_monthlyGoal s = sum_monthlyGoal s' /\
  sum_totalIncome s = sum_totalIncome s' /\
  sum_expectedSavings s = sum_expectedSavings s'.
Proof.
  intros W. cbv zeta. unfold getDashboardSummaryOf, getDashboardSummary.
  cbn [sum_totalExpenses sum_actualSavings sum_monthlyProgress sum_monthlyGoal
       sum_totalIncome sum_expectedSavings].
  assert (T : forall da,
            totalExpenses (getCurrentMonthTransactions currentMonth da db u) =
            num (Zsum (map units
                           (filter (of_month currentMonth u)
                                   (transactions db))))).
  { intros da. apply totalExpenses_rows; [exact W|].
    unfold getCurrentMonthTransactions. apply order_by_perm. }
  split; [apply T|]. split; [now rewrite !T|]. split.
  - unfold actualSavings. now rewrite !T.
  - split; [unfold monthlyProgress; now rewrite !T|]. auto.
Qed.

Lemma dashboard_totals_of_table_witness :
  sum_totalExpenses (getDashboardSummaryOf "2024-05" String.ltb db0 alice) =
  sum_totalExpenses
    (getDashboardSummaryOf "2024-05" (fun a b => String.ltb b a) db0 alice).
Proof.
  assert (W : whole_amounts units_of
                (filter (of_month "2024-05" alice) (transactions db0))).
  { split.
    - intros t I. vm_compute in I. destruct I as [<-|[]].
      vm_compute. reflexivity.
    - vm_compute. reflexivity. }
  destruct (dashboard_totals_of_table "2024-05" String.ltb
              (fun a b => String.ltb b a) db0 alice units_of W)
    as (_ & E & _).
  exact E.
Defined.

(** ** All groups together *)

Lemma Zsum_map_ext {A : Type} (f g : A -> Z) (l : list A) :
  (forall x, In x l -> f x = g x) -> Zsum (map f l) = Zsum (map g l).
Proof.
  intros H. f_equal. now apply map_ext_in.
Qed.

Lemma Zsum_map_plus {A : Type} (f g : A -> Z) (l : list A) :
  Zsum (map (fun x => (f x + g x)%Z) l) = (Zsum (map f l) + Zsum (map g l))%Z.
Proof.
  induction l as [|x l IH]; simpl; lia.
Qed.

Lemma Zsum_zero {A : Type} (f : A -> Z) (l : list A) :
  (forall x, In x l -> f x = 0%Z) -> Zsum (map f l) = 0%Z.
Proof.
  induction l as [|x l IH]; simpl; intros H; [reflexivity|].
  rewrite (H x (or_introl eq_refl)), IH; [reflexivity|]. auto.
Qed.

(** The amount of one transaction is counted under one name. *)
Lemma Zsum_indicator (n : string) (a : Z) (ks : list string) :
  NoDup ks -> In n ks ->
  Zsum (map (fun k => if String.eqb n k then a else 0%Z) ks) = a.
Proof.
  induction ks as [|k ks IH]; simpl; [tauto|].
  intros N I. inversion N as [|? ? Nk N']; subst.
  destruct (String.eqb n k) eqn:E.
  - apply String.eqb_eq in E. subst k.
    rewrite Zsum_zero; [lia|]. intros x Ix.
    destruct (String.eqb n x) eqn:Ex; [|reflexivity].
    apply String.eqb_eq in Ex. subst x. contradiction.
  - destruct I as [->|I]; [now rewrite String.eqb_refl in E|].
    rewrite IH by assumption. lia.
Qed.

(** The sums of the groups add up to the sum of all amounts. *)
Lemma group_units_total (units : Transaction -> Z) (ts : list Transaction)
    (ks : list string) :
  NoDup ks -> (forall t, In t ts -> In (category_name t) ks) ->
  Zsum (map (fun k => group_units units k ts) ks) = Zsum (map units ts).
Proof.
  intros N. induction ts as [|t ts IH]; intros C.
  - apply Zsum_zero. reflexivity.
  - simpl.
    rewrite (Zsum_map_ext _
               (fun k => ((if String.eqb (category_name t) k
                           then units t else 0) + group_units units k ts)%Z)).
    + rewrite Zsum_map_plus, Zsum_indicator, IH; auto.
      * intros x I. apply C. now right.
      * apply C. now left.
    + intros k _. unfold group_units. simpl.
      destruct (String.eqb (category_name t) k); simpl; lia.
Qed.

Lemma entries_count (ts : list Transaction) :
  plain_names ts ->
  List.length (entries (categoryTotals ts)) =
  List.length (nodup string_dec (names ts)).
Proof.
  intros P. destruct (categoryTotals_plain ts P) as (N & K & _).
  rewrite (Permutation_length (entries_perm _)).
  rewrite <- (length_map fst).
  apply Permutation_length. apply NoDup_Permutation.
  - exact N.
  - apply NoDup_nodup.
  - intros k. rewrite nodup_In. apply K.
Qed.

(** Three groups of 10: each share is 33.33333333333333, and the three
    add up to 99.99999999999999, not to 100. *)
Example percentages_of_thirds :
  map percentage
      (topCategories [spend "A" (num 10); spend "B" (num 10);
                      spend "C" (num 10)]) =
    [VNum (S754_finite false 4691249611844266 (-47));
     VNum (S754_finite false 4691249611844266 (-47));
     VNum (S754_finite false 4691249611844266 (-47))] /\
  add (add (S754_finite false 4691249611844266 (-47))
           (S754_finite false 4691249611844266 (-47)))
      (S754_finite false 4691249611844266 (-47)) <> num 100.
Proof. split; [vm_compute; reflexivity | vm_compute; discriminate]. Qed.

(** X25.  With category names that are no property names of
    [Object.prototype], at most five different names and amounts that are
    whole numbers (whose absolute values come to less than 2^52),
    [topCategories] accounts for all the expenses: every category name of
    the transactions has an entry, and the amounts of the entries, which
    are the sums of the groups, add up to the amount of [totalExpenses]. *)
Theorem topCategories_whole
    (units : Transaction -> Z) (ts : list Transaction) :
  plain_names ts -> whole_amounts units ts ->
  (List.length (nodup string_dec (names ts)) <= 5)%nat ->
  (forall k, In k (names ts) ->
     exists e, In e (topCategories ts) /\ top_category_name e = k /\
               top_amount e = VNum (num (group_units units k ts))) /\
  totalExpenses ts =
    num (Zsum (map (fun e => group_units units (top_category_name e) ts)
                   (topCategories ts))).
Proof.
  intros P W Five. destruct (toTop_entries_plain ts P) as (N & M & V).
  destruct (categoryTotals_plain ts P) as (Nk & _ & _ & _).
  pose proof (categoryTotals_whole units ts P W) as Tot.
  pose proof (entries_perm (categoryTotals ts)) as Pe.
  pose proof (entries_count ts P) as Len.
  unfold topCategories, slice0.
  set (L := map (toTop ts) (entries (categoryTotals ts))) in *.
  assert (All : firstn 5 (sort byAmountDesc L) = sort byAmountDesc L).
  { apply firstn_all2. rewrite sort_length. unfold L.
    rewrite length_map, Len. exact Five. }
  rewrite All.
  pose proof (sort_perm byAmountDesc L) as Perm.
  split.
  - intros k I. apply M in I. destruct I as (e & I & E).
    exists e. split; [now apply sort_In|]. split; [exact E|].
    apply in_map_iff in I. destruct I as ((k' & v) & <- & I).
    simpl in E. subst k'. simpl.
    apply (Permutation_in _ Pe) in I. apply (In_own _ _ _ Nk) in I.
    f_equal. exact (Tot k v I).
  - rewrite (Zsum_perm _ _
               (Permutation_map
                  (fun e => group_units units (top_category_name e) ts) Perm)).
    rewrite <- (map_map top_category_name
                        (fun k => group_units units k ts) L).
    rewrite (group_units_total units ts (map top_category_name L) N).
    + destruct W as (A & B). apply totalExpenses_whole.
      * rewrite map_map. apply map_ext_in. exact A.
      * rewrite map_map. eapply Z.lt_trans; [exact B | reflexivity].
    + intros t I.
      assert (Ik : In (category_name t) (names ts)) by now apply in_map.
      apply M in Ik. destruct Ik as (e & Ie & <-). now apply in_map.
Qed.

Lemma topCategories_whole_witness :
  totalExpenses [spend "Rent" (num 30); spend "Food" (num 10);
                 spend "Rent" (num 20)] = num 60 /\
  map (fun e => (top_category_name e, top_amount e))
      (topCategories [spend "Rent" (num 30); spend "Food" (num 10);
                      spend "Rent" (num 20)]) =
    [("Rent", VNum (num 50)); ("Food", VNum (num 10))].
Proof.
  assert (P : plain_names [spend "Rent" (num 30); spend "Food" (num 10);
                           spend "Rent" (num 20)]).
  { intros t [<-|[<-|[<-|[]]]]; reflexivity. }
  assert (W : whole_amounts units_of
                [spend "Rent" (num 30); spend "Food" (num 10);
                 spend "Rent" (num 20)]).
  { split.
    - intros t [<-|[<-|[<-|[]]]]; vm_compute; reflexivity.
    - vm_compute. reflexivity. }
  assert (F : (List.length
                 (nodup string_dec
                    (names [spend "Rent" (num 30); spend "Food" (num 10);
                            spend "Rent" (num 20)]))
               <= 5)%nat) by (vm_compute; lia).
  destruct (topCategories_whole units_of _ P W F) as (_ & S).
  split; [rewrite S|]; vm_compute; reflexivity.
Defined.

(* ================================================================== *)
(** * The request handlers *)

Lemma createMonthlyGoal_errors
    (db db' : Db) (u : string) (d : CreateMonthlyGoalRequest) (new_id : string)
    (e : ServiceError) :
  createMonthlyGoal db u d new_id = (Err e, db') -> statusCode e = 500%nat.
Proof.
  unfold createMonthlyGoal.
  destruct (numeric_12_2 (req_income d)); [|intros E; inversion E; reflexivity].
  destruct (existsb _ (monthly_goals db)).
  - destruct (single _); intros E; inversion E; reflexivity.
  - destruct (existsb _ (monthly_goals db)); intros E; inversion E; reflexivity.
Qed.

Lemma createTransaction_errors
    (isoMonth date_in : string -> option string) (db db' : Db) (u : string)
    (data : CreateTransactionRequest) (cid nid : string) (e : ServiceError) :
  createTransaction isoMonth date_in db u data cid nid = (Err e, db') ->
  statusCode e = 500%nat \/ (statusCode e = 400%nat /\ db' = db).
Proof.
  intros E.
  destruct (createTransaction_cases isoMonth date_in db u data cid nid)
    as [(_ & E')|(mon & M & [(_ & E')|(id & name & db1 & R &
         [(_ & E')|(a & d & _ & _ & _ & E')])])];
    rewrite E' in E; inversion E; subst; simpl; auto.
Qed.

Lemma updateTransaction_errors
    (isoMonth date_in : string -> option string) (db db' : Db) (u tid : string)
    (upd : TransactionUpdates) (nid : string) (e : ServiceError) :
  updateTransaction isoMonth date_in db u tid upd nid = (Err e, db') ->
  In (statusCode e) [400; 404; 500]%nat /\
  (statusCode e <> 500%nat -> db' = db).
Proof.
  intros E.
  destruct (updateTransaction_cases isoMonth date_in db u tid upd nid)
    as [(_ & E')|(existing & _ & [(d & _ & _ & _ & E')|
         (newDate & mon & _ & [(_ & E')|(cid & cname & db1 & _ &
           [(_ & E')|(a & d & _ & _ & E')])])])];
    rewrite E' in E; inversion E; subst; simpl; auto.
  split; [auto | intros N; now contradiction N].
Qed.

Lemma createCategory_errors
    (db db' : Db) (u : string) (d : CategoryData) (new_id : string)
    (e : ServiceError) :
  createCategory db u d new_id = (Err e, db') -> statusCode e = 500%nat.
Proof.
  unfold createCategory. destruct (insert_category db _); intros E;
    inversion E; reflexivity.
Qed.

(** X27.  Every handler of the budget routes that writes keeps to one
    contract, whatever the request: a success is answered with status 201
    by the three handlers that create and with 200 by the two others, and
    only when the request carries an authenticated account; an error is
    passed on with status 400, 404 or 500, and with 400 or 404 the store
    has not been written. *)
Theorem handlers_contract
    (isoMonth date_in : string -> option string) (db : Db)
    (user : option string) :
  (forall goalData new_id,
     handler_contract 201 user db
       (createMonthlyGoalHandler db user goalData new_id)) /\
  (forall data new_category_id new_id,
     handler_contract 201 user db
       (createTransactionHandler isoMonth date_in db user data new_category_id
                                 new_id)) /\
  (forall transactionId updates new_id,
     handler_contract 200 user db
       (updateTransactionHandler isoMonth date_in db user transactionId updates
                                 new_id)) /\
  (forall body new_id,
     handler_contract 201 user db (createCategoryHandler db user body new_id)) /\
  (forall categoryId,
     handler_contract 200 user db (deleteCategoryHandler db user categoryId)).
Proof.
  assert (NoUser : forall (A : Type) (d : Db),
            handler_contract (A := A) 201 None d (Next userNotFound, d) /\
            handler_contract (A := A) 200 None d (Next userNotFound, d)).
  { intros A d. split; (split; [simpl; auto | reflexivity]). }
  assert (Bad : forall (A : Type) (o : option string) (n : nat) (m : string)
                       (d : Db),
            handler_contract (A := A) n o d (Next (createError m 400), d)).
  { intros A o n m d. split; [simpl; auto | reflexivity]. }
  split; [|split; [|split; [|split]]].
  - intros d nid. destruct user as [id|]; simpl; [|apply NoUser].
    destruct (createMonthlyGoal db id d nid) as [[g|e] db'] eqn:E;
      unfold handler_contract; simpl.
    + split; [reflexivity | discriminate].
    + rewrite (createMonthlyGoal_errors _ _ _ _ _ _ E).
      split; [simpl; auto | intros N; now contradiction N].
  - intros data cid nid. destruct user as [id|]; simpl; [|apply NoUser].
    destruct (createTransaction isoMonth date_in db id data cid nid)
      as [[t|e] db'] eqn:E; unfold handler_contract; simpl.
    + split; [reflexivity | discriminate].
    + destruct (createTransaction_errors _ _ _ _ _ _ _ _ _ E) as [S|(S & ->)];
        rewrite S; (split; [simpl; auto|]); intros N;
        [now contradiction N | reflexivity].
  - intros tid upd nid. destruct user as [id|]; simpl; [|apply NoUser].
    destruct (truthy tid); simpl; [|apply Bad].
    destruct (updateTransaction isoMonth date_in db id tid upd nid)
      as [[t|e] db'] eqn:E; unfold handler_contract; simpl.
    + split; [reflexivity | discriminate].
    + exact (updateTransaction_errors _ _ _ _ _ _ _ _ _ E).
  - intros body nid. destruct user as [id|]; simpl; [|apply NoUser].
    destruct (body_name body) as [name|]; [|apply Bad].
    destruct (body_color body) as [color|]; [|apply Bad].
    destruct (body_icon body) as [icon|]; [|apply Bad].
    destruct (truthy name && truthy color && truthy icon); [|apply Bad].
    destruct (createCategory db id (mkCategoryData name color icon) nid)
      as [[c|e] db'] eqn:E; unfold handler_contract; simpl.
    + split; [reflexivity | discriminate].
    + rewrite (createCategory_errors _ _ _ _ _ _ E).
      split; [simpl; auto | intros N; now contradiction N].
  - intros categoryId. destruct user as [id|]; simpl; [|apply NoUser].
    destruct (truthy categoryId); simpl; [|apply Bad].
    unfold deleteCategory. destruct (uuid_in categoryId);
      unfold handler_contract; simpl.
    + split; [reflexivity | discriminate].
    + split; [auto | intros N; now contradiction N].
Qed.

(* ================================================================== *)
(** * References that are slugs *)






(* ================================================================== *)
(** * The name derived from a slug *)

Lemma toLower_toUpper (c : ascii) : toLowerChar (toUpperChar c) = toLowerChar c.
Proof. destruct c as [[] [] [] [] [] [] [] []]; reflexivity. Qed.

Lemma toUpper_toUpper (c : ascii) : toUpperChar (toUpperChar c) = toUpperChar c.
Proof. destruct c as [[] [] [] [] [] [] [] []]; reflexivity. Qed.

Lemma is_word_toUpper (c : ascii) : is_word (toUpperChar c) = is_word c.
Proof. destruct c as [[] [] [] [] [] [] [] []]; reflexivity. Qed.

Lemma toUpper_hyphen (c : ascii) :
  toUpperChar c = "-"%char -> c = "-"%char.
Proof. destruct c as [[] [] [] [] [] [] [] []]; vm_compute; congruence. Qed.

Lemma capitalize_from_length (p : bool) (s : string) :
  String.length (capitalize_from p s) = String.length s.
Proof.
  revert p. induction s as [|c r IH]; intros p; simpl; [reflexivity|].
  now rewrite IH.
Qed.

Lemma capitalize_from_lower (p : bool) (s : string) :
  map_chars toLowerChar (capitalize_from p s) = map_chars toLowerChar s.
Proof.
  revert p. induction s as [|c r IH]; intros p; simpl; [reflexivity|].
  rewrite IH. destruct (is_word c && negb p); [|reflexivity].
  now rewrite toLower_toUpper.
Qed.

Lemma capitalize_from_again (p : bool) (s : string) :
  capitalize_from p (capitalize_from p s) = capitalize_from p s.
Proof.
  revert p. induction s as [|c r IH]; intros p; simpl; [reflexivity|].
  destruct (is_word c && negb p) eqn:W.
  - rewrite is_word_toUpper, W, toUpper_toUpper. now rewrite IH.
  - rewrite W. now rewrite IH.
Qed.

Lemma capitalize_from_hyphen (p : bool) (s : string) :
  In "-"%char (list_ascii_of_string (capitalize_from p s)) ->
  In "-"%char (list_ascii_of_string s).
Proof.
  revert p. induction s as [|c r IH]; intros p; simpl; [tauto|].
  intros [E|I]; [left|right; eauto].
  destruct (is_word c && negb p); [now apply toUpper_hyphen | exact E].
Qed.

Lemma hyphens_to_spaces_length (s : string) :
  String.length (hyphens_to_spaces s) = String.length s.
Proof.
  unfold hyphens_to_spaces. induction s as [|c r IH]; simpl; [reflexivity|].
  now rewrite IH.
Qed.

Lemma hyphens_to_spaces_none (s : string) :
  ~ In "-"%char (list_ascii_of_string (hyphens_to_spaces s)).
Proof.
  unfold hyphens_to_spaces. induction s as [|c r IH]; simpl; [tauto|].
  intros [E|I]; [|contradiction].
  destruct (code c =? 45)%nat eqn:H; [discriminate|].
  subst c. discriminate.
Qed.

(** X29.  The name [resolveCategoryId] derives from a reference is the
    reference up to hyphens and the case of letters: it has the length of
    the reference, no hyphen is left in it, read in lower case it is the
    reference with a space for every hyphen read in lower case, and
    deriving a name from it again changes nothing. *)
Theorem derived_name_shape (slug : string) :
  let derived := capitalize_words (hyphens_to_spaces slug) in
  String.length derived = String.length slug /\
  ~ In "-"%char (list_ascii_of_string derived) /\
  map_chars toLowerChar derived =
    map_chars toLowerChar (hyphens_to_spaces slug) /\
  capitalize_words (hyphens_to_spaces derived) = derived.
Proof.
  cbv zeta. unfold capitalize_words.
  split; [|split; [|split]].
  - now rewrite capitalize_from_length, hyphens_to_spaces_length.
  - intros I. apply capitalize_from_hyphen in I.
    now apply hyphens_to_spaces_none in I.
  - apply capitalize_from_lower.
  - assert (Fix : forall s, ~ In "-"%char (list_ascii_of_string s) ->
                            hyphens_to_spaces s = s).
    { unfold hyphens_to_spaces.
      induction s as [|c r IH]; simpl; intros N; [reflexivity|].
      rewrite IH by tauto.
      destruct (code c =? 45)%nat eqn:H; [|reflexivity].
      exfalso. apply N. left. apply Nat.eqb_eq in H.
      unfold code in H. rewrite <- (ascii_nat_embedding c), H. reflexivity. }
    rewrite Fix.
    + apply capitalize_from_again.
    + intros I. apply capitalize_from_hyphen in I.
      now apply hyphens_to_spaces_none in I.
Qed.
